(** * tesseract_gui rendering: MinimalScene

    A shallow embedding of [rendering/src/minimal_scene.cpp]: the
    [RenderSync] hand-off between the Qt scene-graph thread and the render
    worker, the one-frame cycle of [IgnRenderer::Render], the input
    broadcasting of [IgnRenderer::HandleMouseEvent], the texture swap of
    [TextureNode::PrepareNode], the size bookkeeping of [RenderThread] and
    [RenderWindowItem], and [IgnRenderer::ScreenToScene]. *)

From Stdlib Require Import List Bool Arith ZArith Lia.
From Stdlib Require QArith String.
Import ListNotations.

Set Implicit Arguments.

(** ** RenderSync: the two-thread hand-off *)

Module RenderSync.

(** [enum class RenderStallState]. *)
Inductive RenderStallState : Set :=
| WorkerCanProceed
| WorkerIsProceeding
| QtCanProceed
| ShuttingDown.

(** The threads that touch a [RenderSync]: the Qt thread calls
    [WaitForWorkerThread], the worker thread runs [IgnRenderer::Render], and
    the GUI thread calls [Shutdown] from [~RenderWindowItem]. *)
Inductive thread : Set := Qt | Worker | Gui.

(** Program points of [WaitForWorkerThread]. A [cv.wait (lock, pred)] is the
    loop [while (!pred ()) wait (lock)]: the predicate is tested with the
    mutex held ([QWait1], [QWait2]); when it fails the thread releases the
    mutex and sleeps on the condition variable ([QSleep1], [QSleep2]); once
    notified it has to take the mutex again ([QWoken1], [QWoken2]) before it
    tests the predicate anew. *)
Inductive qt_pc : Set :=
| QIdle      (* outside WaitForWorkerThread *)
| QLock      (* std::unique_lock lock (this->mutex) *)
| QWait1     (* first cv.wait: predicate test *)
| QSleep1
| QWoken1
| QSet       (* renderStallState = WorkerCanProceed *)
| QUnlock    (* lock.unlock () *)
| QNotify    (* cv.notify_one () *)
| QRelock    (* lock.lock () *)
| QWait2     (* second cv.wait: predicate test *)
| QSleep2
| QWoken2
| QReturn.   (* lock goes out of scope *)

(** Program points of the worker loop: [IgnRenderer::Render] with
    [WaitForQtThreadAndBlock] and [ReleaseQtThreadFromBlock] inlined. *)
Inductive worker_pc : Set :=
| WLock      (* std::unique_lock lock (_renderSync->mutex) *)
| WWait      (* cv.wait of WaitForQtThreadAndBlock: predicate test *)
| WSleep
| WWoken
| WSet       (* renderStallState = WorkerIsProceeding *)
| WRender    (* the frame: resize, texture id, input, camera->Update () *)
| WRelease   (* renderStallState = QtCanProceed *)
| WUnlock    (* _lock.unlock () *)
| WNotify.   (* cv.notify_one () *)

(** Program points of [Shutdown]. *)
Inductive gui_pc : Set :=
| GIdle
| GLock      (* std::unique_lock lock (this->mutex) *)
| GSet       (* renderStallState = ShuttingDown *)
| GUnlock    (* lock.unlock () *)
| GNotify.   (* cv.notify_one () *)

Record state : Set := mkState {
  renderStallState : RenderStallState;
  mutex : option thread;          (* owner of RenderSync::mutex *)
  qpc : qt_pc;
  wpc : worker_pc;
  gpc : gui_pc
}.

(** [renderStallState] starts as [QtCanProceed]; nobody holds the mutex, the
    worker is about to enter [Render]. *)
Definition init : state :=
  mkState QtCanProceed None QIdle WLock GIdle.

(** What an observer sees of a step. *)
Inductive event : Set :=
| CallBegin     (* Qt thread entered WaitForWorkerThread *)
| CallReturn    (* WaitForWorkerThread returned *)
| Proceed       (* worker wrote WorkerIsProceeding and left the block call *)
| Render        (* worker ran the frame body *)
| Release       (* worker wrote QtCanProceed *)
| Shutdown.     (* GUI thread wrote ShuttingDown *)

(** The two wait predicates of the source. *)
Definition qt_may_go (st : RenderStallState) : bool :=
  match st with
  | QtCanProceed | ShuttingDown => true
  | _ => false
  end.

Definition worker_may_go (st : RenderStallState) : bool :=
  match st with
  | WorkerCanProceed | ShuttingDown => true
  | _ => false
  end.

Definition set_stall (v : RenderStallState) (s : state) : state :=
  mkState v (mutex s) (qpc s) (wpc s) (gpc s).
Definition set_mutex (m : option thread) (s : state) : state :=
  mkState (renderStallState s) m (qpc s) (wpc s) (gpc s).
Definition set_qpc (p : qt_pc) (s : state) : state :=
  mkState (renderStallState s) (mutex s) p (wpc s) (gpc s).
Definition set_wpc (p : worker_pc) (s : state) : state :=
  mkState (renderStallState s) (mutex s) (qpc s) p (gpc s).
Definition set_gpc (p : gui_pc) (s : state) : state :=
  mkState (renderStallState s) (mutex s) (qpc s) (wpc s) p.

(** [mutex.lock ()]: possible only while the mutex is free. *)
Definition acquire (t : thread) (s : state) : option state :=
  match mutex s with
  | None => Some (set_mutex (Some t) s)
  | Some _ => None
  end.

Definition release (s : state) : state := set_mutex None s.

Definition qt_sleeps (s : state) : bool :=
  match qpc s with QSleep1 | QSleep2 => true | _ => false end.

Definition worker_sleeps (s : state) : bool :=
  match wpc s with WSleep => true | _ => false end.

(** A sleeping thread leaves the condition variable's queue. *)
Definition wake (t : thread) (s : state) : state :=
  match t with
  | Qt => match qpc s with
          | QSleep1 => set_qpc QWoken1 s
          | QSleep2 => set_qpc QWoken2 s
          | _ => s
          end
  | Worker => match wpc s with
              | WSleep => set_wpc WWoken s
              | _ => s
              end
  | Gui => s
  end.

(** [cv.notify_one ()]: wakes one sleeper when there is one. With two
    sleepers the implementation chooses; [prefer] is that choice. *)
Definition notify_one (prefer : thread) (s : state) : state :=
  match qt_sleeps s, worker_sleeps s with
  | true, true => match prefer with Worker => wake Worker s | _ => wake Qt s end
  | true, false => wake Qt s
  | false, true => wake Worker s
  | false, false => s
  end.

Definition step_result : Set := option (state * list event).

(** One step of [WaitForWorkerThread] on the Qt thread. *)
Definition qt_step (prefer : thread) (s : state) : step_result :=
  match qpc s with
  | QIdle => Some (set_qpc QLock s, [CallBegin])
  | QLock =>
      match acquire Qt s with
      | Some s' => Some (set_qpc QWait1 s', [])
      | None => None
      end
  | QWait1 =>
      if qt_may_go (renderStallState s)
      then Some (set_qpc QSet s, [])
      else Some (set_qpc QSleep1 (release s), [])
  | QSleep1 => None
  | QWoken1 =>
      match acquire Qt s with
      | Some s' => Some (set_qpc QWait1 s', [])
      | None => None
      end
  | QSet => Some (set_qpc QUnlock (set_stall WorkerCanProceed s), [])
  | QUnlock => Some (set_qpc QNotify (release s), [])
  | QNotify => Some (set_qpc QRelock (notify_one prefer s), [])
  | QRelock =>
      match acquire Qt s with
      | Some s' => Some (set_qpc QWait2 s', [])
      | None => None
      end
  | QWait2 =>
      if qt_may_go (renderStallState s)
      then Some (set_qpc QReturn s, [])
      else Some (set_qpc QSleep2 (release s), [])
  | QSleep2 => None
  | QWoken2 =>
      match acquire Qt s with
      | Some s' => Some (set_qpc QWait2 s', [])
      | None => None
      end
  | QReturn => Some (set_qpc QIdle (release s), [CallReturn])
  end.

(** One step of the worker: [Render] is entered again as soon as it
    returned. *)
Definition worker_step (prefer : thread) (s : state) : step_result :=
  match wpc s with
  | WLock =>
      match acquire Worker s with
      | Some s' => Some (set_wpc WWait s', [])
      | None => None
      end
  | WWait =>
      if worker_may_go (renderStallState s)
      then Some (set_wpc WSet s, [])
      else Some (set_wpc WSleep (release s), [])
  | WSleep => None
  | WWoken =>
      match acquire Worker s with
      | Some s' => Some (set_wpc WWait s', [])
      | None => None
      end
  | WSet => Some (set_wpc WRender (set_stall WorkerIsProceeding s), [Proceed])
  | WRender => Some (set_wpc WRelease s, [Render])
  | WRelease => Some (set_wpc WUnlock (set_stall QtCanProceed s), [Release])
  | WUnlock => Some (set_wpc WNotify (release s), [])
  | WNotify => Some (set_wpc WLock (notify_one prefer s), [])
  end.

(** One step of [Shutdown] on the GUI thread. *)
Definition gui_step (prefer : thread) (s : state) : step_result :=
  match gpc s with
  | GIdle => Some (set_gpc GLock s, [])
  | GLock =>
      match acquire Gui s with
      | Some s' => Some (set_gpc GSet s', [])
      | None => None
      end
  | GSet => Some (set_gpc GUnlock (set_stall ShuttingDown s), [Shutdown])
  | GUnlock => Some (set_gpc GNotify (release s), [])
  | GNotify => Some (set_gpc GIdle (notify_one prefer s), [])
  end.

(** A scheduler decision: run the next statement of a thread (with the
    choice a [notify_one] would make), or wake a sleeper spuriously, which
    [std::condition_variable::wait] is allowed to do. *)
Inductive label : Set :=
| Run (t : thread) (prefer : thread)
| Spurious (t : thread).

Definition sleeps (t : thread) (s : state) : bool :=
  match t with
  | Qt => qt_sleeps s
  | Worker => worker_sleeps s
  | Gui => false
  end.

Definition step (l : label) (s : state) : step_result :=
  match l with
  | Run Qt p => qt_step p s
  | Run Worker p => worker_step p s
  | Run Gui p => gui_step p s
  | Spurious t => if sleeps t s then Some (wake t s, []) else None
  end.

(** Running a schedule: the state reached and the events seen, oldest
    first; [None] when the schedule asks a thread to move that cannot. *)
Fixpoint run (sched : list label) (s : state) : step_result :=
  match sched with
  | [] => Some (s, [])
  | l :: rest =>
      match step l s with
      | None => None
      | Some (s', ev) =>
          match run rest s' with
          | None => None
          | Some (s'', evs) => Some (s'', ev ++ evs)
          end
      end
  end.


(** *** Finite enumeration of the protocol states

    Every component of [state] is a finite type, so a property of all
    states and all scheduler decisions is decided by evaluating it on the
    enumeration below. *)

Definition all_stall : list RenderStallState :=
  [WorkerCanProceed; WorkerIsProceeding; QtCanProceed; ShuttingDown].
Definition all_threads : list thread := [Qt; Worker; Gui].
Definition all_mutex : list (option thread) := None :: map Some all_threads.
Definition all_qpc : list qt_pc :=
  [QIdle; QLock; QWait1; QSleep1; QWoken1; QSet; QUnlock; QNotify; QRelock;
   QWait2; QSleep2; QWoken2; QReturn].
Definition all_wpc : list worker_pc :=
  [WLock; WWait; WSleep; WWoken; WSet; WRender; WRelease; WUnlock; WNotify].
Definition all_gpc : list gui_pc := [GIdle; GLock; GSet; GUnlock; GNotify].

Definition all_states : list state :=
  flat_map (fun st =>
  flat_map (fun m =>
  flat_map (fun q =>
  flat_map (fun w =>
  map (fun g => mkState st m q w g) all_gpc) all_wpc) all_qpc) all_mutex)
  all_stall.

Definition all_labels : list label :=
  flat_map (fun t => map (Run t) all_threads) all_threads
  ++ map Spurious all_threads.

Scheme Equality for event.
Scheme Equality for RenderStallState.
Scheme Equality for thread.
Scheme Equality for qt_pc.
Scheme Equality for worker_pc.
Scheme Equality for gui_pc.

(** *** The invariant of the hand-off *)

Definition qt_holds (s : state) : bool :=
  match qpc s with
  | QWait1 | QSet | QUnlock | QWait2 | QReturn => true
  | _ => false
  end.

Definition worker_holds (s : state) : bool :=
  match wpc s with
  | WWait | WSet | WRender | WRelease | WUnlock => true
  | _ => false
  end.

Definition gui_holds (s : state) : bool :=
  match gpc s with GSet | GUnlock => true | _ => false end.

(** The owner recorded in [mutex] is the one thread whose program point
    lies between a lock and the matching unlock. *)
Definition mutex_ok (s : state) : bool :=
  match mutex s with
  | None => negb (qt_holds s) && negb (worker_holds s) && negb (gui_holds s)
  | Some Qt => qt_holds s && negb (worker_holds s) && negb (gui_holds s)
  | Some Worker => negb (qt_holds s) && worker_holds s && negb (gui_holds s)
  | Some Gui => negb (qt_holds s) && negb (worker_holds s) && gui_holds s
  end.

Definition in_cycle (s : state) : bool :=
  match wpc s with WRender | WRelease => true | _ => false end.

Definition is_stall (v : RenderStallState) (s : state) : bool :=
  match v, renderStallState s with
  | WorkerCanProceed, WorkerCanProceed
  | WorkerIsProceeding, WorkerIsProceeding
  | QtCanProceed, QtCanProceed
  | ShuttingDown, ShuttingDown => true
  | _, _ => false
  end.

(** A thread that changed [renderStallState] and has not yet called
    [notify_one]. *)
Definition qt_pending (s : state) : bool :=
  match qpc s with QUnlock | QNotify => true | _ => false end.
Definition worker_pending (s : state) : bool :=
  match wpc s with WUnlock | WNotify => true | _ => false end.
Definition gui_pending (s : state) : bool :=
  match gpc s with GUnlock | GNotify => true | _ => false end.

(** [coherent]: the mutex bookkeeping is right; the state is
    [WorkerIsProceeding] exactly while the worker is inside its frame; a
    thread sleeps on the condition variable only while its predicate is
    false or the notification that will wake it is still to come; the two
    threads never sleep together. *)
Definition coherent (s : state) : bool :=
  mutex_ok s
  && Bool.eqb (is_stall WorkerIsProceeding s) (in_cycle s)
  && implb (worker_sleeps s)
       (negb (worker_may_go (renderStallState s)) || qt_pending s
        || (gui_pending s && is_stall ShuttingDown s))
  && implb (qt_sleeps s)
       (negb (qt_may_go (renderStallState s)) || worker_pending s
        || (gui_pending s && is_stall ShuttingDown s))
  && negb (qt_sleeps s && worker_sleeps s).

Definition can_step (t : thread) (s : state) : bool :=
  match step (Run t Qt) s with Some _ => true | None => false end.

(** *** Calls of [WaitForWorkerThread] read off a trace *)

(** A finished call: whether [Shutdown] had written [ShuttingDown] before
    the call returned, and what the worker did between the call's entry and
    its return. *)
Record call : Set := mkCall {
  after_shutdown : bool;
  worker_events : list event
}.

Record scan : Set := mkScan {
  shutdown_seen : bool;
  current : option (list event);   (* worker events of the call in progress *)
  finished : list call
}.

Definition cur_step (c : option (list event)) (e : event)
  : option (list event) :=
  match e with
  | CallBegin => Some []
  | CallReturn => None
  | Shutdown => c
  | Proceed | Render | Release => option_map (fun l => l ++ [e]) c
  end.

Definition scan_step (m : scan) (e : event) : scan :=
  mkScan
    (match e with Shutdown => true | _ => shutdown_seen m end)
    (cur_step (current m) e)
    (match e, current m with
     | CallReturn, Some evs => finished m ++ [mkCall (shutdown_seen m) evs]
     | _, _ => finished m
     end).

Definition scan0 : scan := mkScan false None [].

Definition calls (tr : list event) : list call :=
  finished (fold_left scan_step tr scan0).

(** One complete worker cycle: block call left, frame rendered, release. *)
Definition one_cycle : list event := [Proceed; Render; Release].

Definition exactly_one_cycle (c : call) : Prop :=
  after_shutdown c = false -> worker_events c = one_cycle.

(** While [Shutdown] has not written yet, the worker events of the call in
    progress can be read off the state. *)
Definition expected (s : state) : option (list event) :=
  match qpc s with
  | QIdle => None
  | QLock | QWait1 | QSleep1 | QWoken1 | QSet => Some []
  | _ =>
      match renderStallState s with
      | WorkerCanProceed => Some []
      | WorkerIsProceeding =>
          match wpc s with
          | WRender => Some [Proceed]
          | _ => Some [Proceed; Render]
          end
      | _ => Some one_cycle
      end
  end.

Definition before_handoff (s : state) : bool :=
  match qpc s with
  | QIdle | QLock | QWait1 | QSleep1 | QWoken1 | QSet => true
  | _ => false
  end.

(** The invariant that holds as long as [Shutdown] has not written: the
    state is [QtCanProceed] until the Qt thread hands off, the worker
    leaves its block call only on [WorkerCanProceed], and the Qt thread
    passes its second wait only on [QtCanProceed]. *)
Definition before_shutdown (s : state) : bool :=
  coherent s
  && negb (is_stall ShuttingDown s)
  && negb (gui_pending s)
  && implb (before_handoff s) (is_stall QtCanProceed s)
  && implb (match wpc s with WSet => true | _ => false end)
       (is_stall WorkerCanProceed s)
  && implb (match qpc s with QReturn => true | _ => false end)
       (is_stall QtCanProceed s).

Definition same_events (a b : option (list event)) : bool :=
  match a, b with
  | None, None => true
  | Some x, Some y => if list_eq_dec event_eq_dec x y then true else false
  | _, _ => false
  end.

Definition is_shutdown (e : event) : bool :=
  match e with Shutdown => true | _ => false end.
Definition is_return (e : event) : bool :=
  match e with CallReturn => true | _ => false end.

(** What one step has to preserve; evaluated on every state and label. *)
Definition coherent_step (s : state) (l : label) : bool :=
  match step l s with
  | None => true
  | Some (s', _) => coherent s'
  end.

Definition before_shutdown_step (s : state) (l : label) : bool :=
  match step l s with
  | None => true
  | Some (s', []) =>
      before_shutdown s' && same_events (expected s) (expected s')
  | Some (s', [e]) =>
      is_shutdown e
      || (before_shutdown s'
          && same_events (cur_step (expected s) e) (expected s')
          && implb (is_return e) (same_events (expected s) (Some one_cycle)))
  | Some (_, _ :: _ :: _) => false
  end.

Definition progress_ok (s : state) : bool :=
  match mutex s with
  | Some Gui => can_step Gui s
  | _ => can_step Qt s || can_step Worker s
  end.


(** While the state is [WorkerIsProceeding] a step either leaves it so, or
    is the worker's own release writing [QtCanProceed]. *)
Definition proceeding_step (s : state) (l : label) : bool :=
  match step l s with
  | None => true
  | Some (s', ev) =>
      (is_stall WorkerIsProceeding s' && negb (existsb is_shutdown ev))
      || (is_stall QtCanProceed s'
          && match l, ev with
             | Run Worker _, [Release] => true
             | _, _ => false
             end)
  end.

(** *** How long a call can take

    [longest n s]: the length of the longest run of thread steps (no
    spurious wake-up, no [Shutdown]) that starts in [s] and stays inside
    the call of [WaitForWorkerThread] in progress, cut off at [n]. *)
Definition is_idle (s : state) : bool :=
  match qpc s with QIdle => true | _ => false end.

Fixpoint longest (fuel : nat) (s : state) : nat :=
  match fuel with
  | 0 => 0
  | S f =>
      if is_idle s then 0
      else
        Nat.max
          (match step (Run Qt Qt) s with
           | Some (s', _) => S (longest f s')
           | None => 0
           end)
          (match step (Run Worker Qt) s with
           | Some (s', _) => S (longest f s')
           | None => 0
           end)
  end.

(** No [Shutdown] so far and none in progress. *)
Definition undisturbed (s : state) : bool :=
  before_shutdown s && match gpc s with GIdle => true | _ => false end.

Definition state_eqb (a b : state) : bool :=
  RenderStallState_beq (renderStallState a) (renderStallState b)
  && match mutex a, mutex b with
     | None, None => true
     | Some x, Some y => thread_beq x y
     | _, _ => false
     end
  && qt_pc_beq (qpc a) (qpc b)
  && worker_pc_beq (wpc a) (wpc b)
  && gui_pc_beq (gpc a) (gpc b).

(** [longest] tabulated on the undisturbed states. *)
Definition rank_table : list (state * nat) :=
  Eval vm_compute in
    map (fun s => (s, longest 24 s)) (filter undisturbed all_states).

Definition rank (s : state) : nat :=
  match find (fun p => state_eqb (fst p) s) rank_table with
  | Some (_, n) => n
  | None => 0
  end.

Definition thread_label (l : label) : bool :=
  match l with
  | Run Qt _ | Run Worker _ => true
  | _ => false
  end.

Definition rank_step (s : state) (l : label) : bool :=
  match step l s with
  | None => true
  | Some (s', ev) =>
      negb (thread_label l)
      || (undisturbed s'
          && (is_idle s
              || (if is_idle s' then existsb is_return ev
                  else (rank s' <? rank s) && negb (existsb is_return ev))))
  end.

(** Schedules in which the GUI thread does not move. *)
Definition no_gui (l : label) : bool :=
  match l with
  | Run Gui _ => false
  | _ => true
  end.

Definition undisturbed_step (s : state) (l : label) : bool :=
  match step l s with
  | None => true
  | Some (s', _) => negb (no_gui l) || undisturbed s'
  end.

(** Scheduler decisions used in the examples; with at most one sleeper the
    preference of [notify_one] does not matter. *)
Definition runQ : label := Run Qt Qt.
Definition runW : label := Run Worker Worker.
Definition runG : label := Run Gui Gui.

(** A thread is blocked when it has no step to take: it sleeps on the
    condition variable, or it waits for a mutex somebody else holds. *)
Definition blocked (t : thread) (s : state) : Prop :=
  forall p, step (Run t p) s = None.


Definition never_both_blocked (s : state) : Prop :=
  ~ (blocked Qt s /\ blocked Worker s).

(** The call of [WaitForWorkerThread] in progress returns: some run of
    thread steps reaches the return, and no run of thread steps of [rank]
    steps or more avoids it. *)
Definition call_completes (s : state) : Prop :=
  (exists more s' tr',
     forallb thread_label more = true
     /\ run more s = Some (s', tr')
     /\ is_idle s' = true /\ In CallReturn tr')
  /\ (forall more s' tr',
        forallb thread_label more = true ->
        run more s = Some (s', tr') ->
        (rank s <= length more)%nat -> In CallReturn tr').

(** The link between the scan of the trace so far and the state reached. *)
Definition linked (m : scan) (s : state) : Prop :=
  coherent s = true
  /\ (shutdown_seen m = false ->
      before_shutdown s = true /\ current m = expected s)
  /\ Forall exactly_one_cycle (finished m).

(** Schedules of the examples. *)

(** The Qt thread hands off and goes to sleep in its second wait;
    [Shutdown] runs before the worker has moved; the call returns. *)
Definition shutdown_cuts_call_short : list label :=
  [runW; runW;
   runQ; runQ; runQ; runQ; runQ; runQ; runQ; runQ;
   runG; runG; runG; runG; runG;
   runQ; runQ; runQ].



(** Two calls in a row, the worker running its cycle inside each. *)
Definition two_calls : list label :=
  [runW; runW;
   runQ; runQ; runQ; runQ; runQ; runQ; runQ; runQ;
   runW; runW; runW; runW; runW; runW; runW;
   runQ; runQ; runQ;
   runQ; runQ; runQ; runQ; runQ; runQ;
   runW; runW; runW; runW; runW; runW; runW;
   runQ; runQ; runQ].

Definition two_calls_end : state :=
  mkState QtCanProceed None QIdle WLock GIdle.

Definition two_calls_trace : list event :=
  [CallBegin; Proceed; Render; Release; CallReturn;
   CallBegin; Proceed; Render; Release; CallReturn].

(** The worker enters [Render] and goes to sleep in
    [WaitForQtThreadAndBlock]. *)
Definition worker_blocks : list label := [runW; runW].

(** A whole call of [Shutdown]. *)
Definition shutdown_call : list label := [runG; runG; runG; runG; runG].

(** The worker takes the mutex again, tests its predicate, writes the
    state, and runs the frame. *)
Definition worker_resumes : list label := [runW; runW; runW; runW].

(** The worker asleep in its block call while [Shutdown] has written
    [ShuttingDown] and is about to notify. *)
Definition asleep_at_shutdown : state :=
  mkState ShuttingDown None QIdle WSleep GNotify.

(** The Qt thread hands off and the worker gets as far as its frame. *)
Definition into_the_frame : list label :=
  [runW; runW; runQ; runQ; runQ; runQ; runQ; runQ; runW; runW; runW].

Definition mid_cycle : state :=
  mkState WorkerIsProceeding (Some Worker) QRelock WRender GIdle.

(** [Shutdown] is called mid-cycle; the worker finishes its frame and
    releases; [Shutdown] writes; the worker comes round again. *)
Definition shutdown_mid_cycle : list label :=
  [runG; runW; runW; runW; runG; runG; runG; runG; runW; runW; runW; runW].


(** *** Who is where, the order of events, frames ahead *)

(** The Qt thread has written [WorkerCanProceed] and has not yet passed
    its second wait. *)
Definition qt_handed_off (s : state) : bool :=
  match qpc s with
  | QUnlock | QNotify | QRelock | QWait2 | QSleep2 | QWoken2 => true
  | _ => false
  end.

(** What the comments of [RenderStallState] say of each value, read as a
    test of the state. *)
Definition documented (s : state) : bool :=
  match renderStallState s with
  | WorkerCanProceed => qt_handed_off s && negb (in_cycle s)
  | WorkerIsProceeding => qt_handed_off s && in_cycle s
  | QtCanProceed =>
      negb (in_cycle s) && negb (match wpc s with WSet => true | _ => false end)
  | ShuttingDown => false
  end.

(** The events of one hand-off, in order. *)
Definition handoff_cycle : list event :=
  [CallBegin; Proceed; Render; Release; CallReturn].

(** [follows pos tr]: the trace [tr] goes round [handoff_cycle] starting at
    index [pos]; the result is the index it stops at. *)
Fixpoint follows (pos : nat) (tr : list event) : option nat :=
  match tr with
  | [] => Some pos
  | e :: rest =>
      if event_beq e (nth pos handoff_cycle CallBegin)
      then follows (Nat.modulo (S pos) 5) rest
      else None
  end.

(** Where in the cycle a state is, while [Shutdown] has not written. *)
Definition position (s : state) : nat :=
  match expected s with
  | None => 0
  | Some l => S (length l)
  end.

Definition cycle_step (s : state) (l : label) : bool :=
  match step l s with
  | None => true
  | Some (s', ev) =>
      existsb is_shutdown ev
      || (before_shutdown s'
          && match follows (position s) ev with
             | Some n => Nat.eqb n (position s')
             | None => false
             end)
  end.

Definition is_render (e : event) : bool :=
  match e with Render => true | _ => false end.

Definition frames (tr : list event) : nat := length (filter is_render tr).
Definition returns (tr : list event) : nat := length (filter is_return tr).

(** Steps of the worker alone. *)
Definition worker_label (l : label) : bool :=
  match l with
  | Run Worker _ | Spurious Worker => true
  | _ => false
  end.

(** How many frames the worker can still render when nobody else moves. *)
Definition frames_ahead (s : state) : nat :=
  match wpc s with
  | WSet | WRender => 1
  | WRelease => 0
  | _ => if worker_may_go (renderStallState s) then 1 else 0
  end.

Definition nobody_else (s : state) : bool :=
  is_idle s && match gpc s with GIdle => true | _ => false end.

Definition alone_step (s : state) (l : label) : bool :=
  match step l s with
  | None => true
  | Some (s', ev) =>
      negb (worker_label l)
      || (nobody_else s' && (frames_ahead s' + frames ev <=? frames_ahead s))
  end.

(** A schedule that gets a call of [Shutdown] done: let whoever holds the
    mutex run until it lets go, then run the GUI thread. *)
Definition helper (s : state) : label :=
  match mutex s with
  | Some Qt => runQ
  | Some Worker => runW
  | _ => runG
  end.

Definition gui_idle (s : state) : bool :=
  match gpc s with GIdle => true | _ => false end.

Fixpoint drive (fuel : nat) (s : state) : list label :=
  match fuel with
  | 0 => []
  | S f =>
      if gui_idle s then []
      else
        match step (helper s) s with
        | None => []
        | Some (s', _) => helper s :: drive f s'
        end
  end.

Definition shutdown_written (s : state) : bool :=
  match gpc s with GUnlock | GNotify => true | _ => false end.

Definition drive_ok (s : state) : bool :=
  match run (drive 10 s) s with
  | None => false
  | Some (s', tr) =>
      gui_idle s'
      && (gui_idle s || shutdown_written s || existsb is_shutdown tr)
  end.

(** After [Shutdown]: the worker renders while the Qt thread is outside
    [WaitForWorkerThread], then sleeps with nobody left to wake it. *)
Definition frame_after_shutdown : list label :=
  worker_blocks ++ shutdown_call ++ [runW; runW; runW].

Definition asleep_for_good : state :=
  mkState QtCanProceed None QIdle WSleep GIdle.

End RenderSync.

(** ** The renderer, its input queue, the render thread and the texture node *)

Module Scene.

Import String.StringSyntax.
Local Open Scope string_scope.
Local Open Scope Z_scope.

(** *** Plain data *)

(** [QSize], a pair of C++ [int]s. *)
Record QSize : Set := mkQSize { width : Z; height : Z }.

(** [ignition::math::Vector2i]. *)
Record Vector2i : Set := mkVector2i { X : Z; Y : Z }.

(** [ignition::math::Vector3d] over the type [D] of doubles. *)
Record Vector3 (D : Type) : Type := mkVector3 { vx : D; vy : D; vz : D }.
Arguments mkVector3 {D} _ _ _.
Arguments vx {D} _.
Arguments vy {D} _.
Arguments vz {D} _.

(** [ignition::common::MouseEvent::EventType] and [MouseButton]. The
    mouse and the key events both have [NO_EVENT], [PRESS] and [RELEASE];
    the mouse ones are [MouseNoEvent], [MousePress] and [MouseRelease]
    here. *)
Inductive MouseEventType : Set :=
| MouseNoEvent | MOVE | MousePress | MouseRelease | SCROLL.

Inductive MouseButton : Set := NO_BUTTON | LEFT | MIDDLE | RIGHT.

(** [ignition::common::MouseEvent], the members this file reads or writes;
    [Type_] is the accessor [Type ()]. *)
Record MouseEvent : Set := mkMouseEvent {
  Pos : Vector2i;
  PressPos : Vector2i;
  Dragging : bool;
  Type_ : MouseEventType;
  Button : MouseButton;
  Control : bool;
  Shift : bool;
  Alt : bool
}.

(** [ignition::common::KeyEvent::EventType]. *)
Inductive KeyEventType : Set := NO_EVENT | PRESS | RELEASE.

Record KeyEvent : Set := mkKeyEvent {
  KeyType : KeyEventType;
  Key : Z;
  KeyControl : bool;
  KeyShift : bool;
  KeyAlt : bool
}.

Definition SetType (t : KeyEventType) (k : KeyEvent) : KeyEvent :=
  mkKeyEvent t (Key k) (KeyControl k) (KeyShift k) (KeyAlt k).

(** The events of [ignition::gui::events] this file sends to the
    application. *)
Inductive gui_event (D : Type) : Type :=
| HoverToScene (p : Vector3 D)
| HoverOnScene (m : MouseEvent)
| DragOnScene (m : MouseEvent)
| MousePressOnScene (m : MouseEvent)
| LeftClickToScene (p : Vector3 D)
| LeftClickOnScene (m : MouseEvent)
| RightClickToScene (p : Vector3 D)
| RightClickOnScene (m : MouseEvent)
| ScrollOnScene (m : MouseEvent)
| KeyPressOnScene (k : KeyEvent)
| KeyReleaseOnScene (k : KeyEvent)
| DropOnScene (text : String.string) (p : Vector2i)
| PreRenderEvent
| RenderEvent.
Arguments HoverToScene {D} _.
Arguments HoverOnScene {D} _.
Arguments DragOnScene {D} _.
Arguments MousePressOnScene {D} _.
Arguments LeftClickToScene {D} _.
Arguments LeftClickOnScene {D} _.
Arguments RightClickToScene {D} _.
Arguments RightClickOnScene {D} _.
Arguments ScrollOnScene {D} _.
Arguments KeyPressOnScene {D} _.
Arguments KeyReleaseOnScene {D} _.
Arguments DropOnScene {D} _ _.
Arguments PreRenderEvent {D}.
Arguments RenderEvent {D}.

(** C++ [int] division: undefined for a zero divisor and for
    [INT_MIN / -1]; otherwise it truncates towards zero. *)
Definition INT_MIN : Z := - 2 ^ 31.
Definition INT_MAX : Z := 2 ^ 31 - 1.

Definition int_div (a b : Z) : option Z :=
  if b =? 0 then None
  else if (a =? INT_MIN) && (b =? -1) then None
  else Some (Z.quot a b).

(** [qreal] is [double]. This file only compares [qreal]s and converts them
    to [int]; both are exact on the finite doubles, which are rationals. A
    conversion truncates towards zero and is undefined when the result does
    not fit an [int]. *)
Definition qreal : Set := QArith_base.Q.

Definition truncate (x : qreal) : Z :=
  Z.quot (QArith_base.Qnum x) (Z.pos (QArith_base.Qden x)).

Definition to_int (x : qreal) : option Z :=
  let z := truncate x in
  if (INT_MIN <=? z) && (z <=? INT_MAX) then Some z else None.

Definition qreal_le (x y : qreal) : bool := QArith_base.Qle_bool x y.
Definition qreal_lt (x y : qreal) : bool := negb (QArith_base.Qle_bool y x).

(** [std::max ({a, b})]: the first largest element. *)
Definition std_max (a b : qreal) : qreal :=
  if qreal_lt a b then b else a.

Definition qreal_of_Z (z : Z) : qreal := QArith_base.inject_Z z.

(** *** The rendering engine and the application

    What the file asks of [ignition::rendering] and of the application
    object: none of it is code of this file, so it is an interface, and
    every result below holds for every implementation of it. *)
Class Engine : Type := {
  D : Type;                                  (* double *)
  dadd : D -> D -> D;
  dsub : D -> D -> D;
  dmul : D -> D -> D;
  ddiv : D -> D -> D;
  of_int : Z -> D;                           (* integer to double *)
  Camera : Type;
  ImageWidth : Camera -> Z;
  ImageHeight : Camera -> Z;
  SetImageWidth : Z -> Camera -> Camera;
  SetImageHeight : Z -> Camera -> Camera;
  SetAspectRatio : D -> Camera -> Camera;
  PreRender : Camera -> Camera;
  RenderTextureGLId : Camera -> Z;
  Update : Camera -> Camera;                 (* update and render to texture *)
  RayQuery : Type;
  RayQueryResult : Type;
  SetFromCamera : Camera -> D * D -> RayQuery -> RayQuery;
  ClosestPoint : RayQuery -> RayQueryResult;
  result_ok : RayQueryResult -> bool;        (* operator bool *)
  result_point : RayQueryResult -> Vector3 D;
  Origin : RayQuery -> Vector3 D;
  Direction : RayQuery -> Vector3 D;
  (* Initialize *)
  engine_supported : bool;                   (* rendering::engine (name) *)
  grid_visual_exists : bool;                 (* scene->VisualByName *)
  grid_created : bool;                       (* scene->CreateGrid () *)
  CreateCamera : Camera;                     (* scene->CreateCamera () *)
  SetUpCamera : QSize -> Camera -> Camera;   (* pose, clip planes, size, FOV *)
  CreateRayQuery : Camera -> RayQuery;
  (* the application *)
  getApp : bool;                             (* tesseract_gui::getApp () *)
  deliver : gui_event D -> Camera -> Camera  (* what the handlers do *)
}.

Section WithEngine.
Context {E : Engine}.

Definition Vector3d : Type := Vector3 D.
Definition event : Type := gui_event D.

(** [Vector3d::operator+] and [Vector3d::operator* (double)]. *)
Definition vadd (a b : Vector3d) : Vector3d :=
  mkVector3 (dadd (vx a) (vx b)) (dadd (vy a) (vy b)) (dadd (vz a) (vz b)).
Definition vscale (a : Vector3d) (k : D) : Vector3d :=
  mkVector3 (dmul (vx a) k) (dmul (vy a) k) (dmul (vz a) k).

(** [IgnRenderer::Implementation]. *)
Record Implementation : Type := mkImplementation {
  mouseDirty : bool;
  hoverDirty : bool;
  dropDirty : bool;
  mouseEvent : MouseEvent;
  keyEvent : KeyEvent;
  camera : Camera;
  mouseHoverPos : Vector2i;
  mouseDropPos : Vector2i;
  dropText : String.string;
  rayQuery : RayQuery
}.

(** [IgnRenderer]: the public members the file uses, and [dataPtr]. *)
Record IgnRenderer : Type := mkIgnRenderer {
  initialized : bool;
  textureId : Z;
  textureSize : QSize;
  textureDirty : bool;
  gridEnable : bool;
  dataPtr : Implementation
}.

Definition with_dataPtr (f : Implementation -> Implementation)
  (r : IgnRenderer) : IgnRenderer :=
  mkIgnRenderer (initialized r) (textureId r) (textureSize r)
    (textureDirty r) (gridEnable r) (f (dataPtr r)).

Definition set_mouseDirty (b : bool) (i : Implementation) : Implementation :=
  mkImplementation b (hoverDirty i) (dropDirty i) (mouseEvent i) (keyEvent i)
    (camera i) (mouseHoverPos i) (mouseDropPos i) (dropText i) (rayQuery i).
Definition set_hoverDirty (b : bool) (i : Implementation) : Implementation :=
  mkImplementation (mouseDirty i) b (dropDirty i) (mouseEvent i) (keyEvent i)
    (camera i) (mouseHoverPos i) (mouseDropPos i) (dropText i) (rayQuery i).
Definition set_dropDirty (b : bool) (i : Implementation) : Implementation :=
  mkImplementation (mouseDirty i) (hoverDirty i) b (mouseEvent i) (keyEvent i)
    (camera i) (mouseHoverPos i) (mouseDropPos i) (dropText i) (rayQuery i).
Definition set_mouseEvent (m : MouseEvent) (i : Implementation)
  : Implementation :=
  mkImplementation (mouseDirty i) (hoverDirty i) (dropDirty i) m (keyEvent i)
    (camera i) (mouseHoverPos i) (mouseDropPos i) (dropText i) (rayQuery i).
Definition set_keyEvent (k : KeyEvent) (i : Implementation) : Implementation :=
  mkImplementation (mouseDirty i) (hoverDirty i) (dropDirty i) (mouseEvent i) k
    (camera i) (mouseHoverPos i) (mouseDropPos i) (dropText i) (rayQuery i).
Definition set_camera (c : Camera) (i : Implementation) : Implementation :=
  mkImplementation (mouseDirty i) (hoverDirty i) (dropDirty i) (mouseEvent i)
    (keyEvent i) c (mouseHoverPos i) (mouseDropPos i) (dropText i)
    (rayQuery i).
Definition set_mouseHoverPos (p : Vector2i) (i : Implementation)
  : Implementation :=
  mkImplementation (mouseDirty i) (hoverDirty i) (dropDirty i) (mouseEvent i)
    (keyEvent i) (camera i) p (mouseDropPos i) (dropText i) (rayQuery i).
Definition set_drop (t : String.string) (p : Vector2i) (i : Implementation)
  : Implementation :=
  mkImplementation (mouseDirty i) (hoverDirty i) (dropDirty i) (mouseEvent i)
    (keyEvent i) (camera i) (mouseHoverPos i) p t (rayQuery i).
Definition set_rayQuery (q : RayQuery) (i : Implementation) : Implementation :=
  mkImplementation (mouseDirty i) (hoverDirty i) (dropDirty i) (mouseEvent i)
    (keyEvent i) (camera i) (mouseHoverPos i) (mouseDropPos i) (dropText i) q.

Definition set_initialized (b : bool) (r : IgnRenderer) : IgnRenderer :=
  mkIgnRenderer b (textureId r) (textureSize r) (textureDirty r)
    (gridEnable r) (dataPtr r).
Definition set_textureId (n : Z) (r : IgnRenderer) : IgnRenderer :=
  mkIgnRenderer (initialized r) n (textureSize r) (textureDirty r)
    (gridEnable r) (dataPtr r).
Definition set_textureSize (sz : QSize) (r : IgnRenderer) : IgnRenderer :=
  mkIgnRenderer (initialized r) (textureId r) sz (textureDirty r)
    (gridEnable r) (dataPtr r).
Definition set_textureDirty (b : bool) (r : IgnRenderer) : IgnRenderer :=
  mkIgnRenderer (initialized r) (textureId r) (textureSize r) b
    (gridEnable r) (dataPtr r).

(** *** The monad of the worker-side code

    A computation reads and writes the renderer, sends events to the
    application, and may run into undefined behaviour ([None]): a call
    through a null [getApp ()], an [int] division by zero. *)
Definition M (A : Type) : Type :=
  IgnRenderer -> option (A * IgnRenderer * list event).

Definition ret {A : Type} (a : A) : M A := fun r => Some (a, r, []).

Definition bind {A B : Type} (m : M A) (f : A -> M B) : M B :=
  fun r =>
    match m r with
    | None => None
    | Some (a, r1, l1) =>
        match f a r1 with
        | None => None
        | Some (b, r2, l2) => Some (b, r2, l1 ++ l2)
        end
    end.

Definition gets {A : Type} (f : IgnRenderer -> A) : M A :=
  fun r => Some (f r, r, []).

Definition modify (f : IgnRenderer -> IgnRenderer) : M unit :=
  fun r => Some (tt, f r, []).

Definition undefined {A : Type} : M A := fun _ => None.

(** [getApp ()->sendEvent (getApp (), e)]: the handlers run before the
    call returns. *)
Definition sendEvent (e : event) : M unit :=
  fun r =>
    if getApp
    then Some (tt, with_dataPtr (fun i => set_camera (deliver e (camera i)) i) r,
               [e])
    else None.

Local Notation "x <- m ;; k" := (bind m (fun x => k))
  (at level 61, m at next level, right associativity).
Local Notation "m ;; k" := (bind m (fun _ => k))
  (at level 61, right associativity).

Definition when (b : bool) (m : M unit) : M unit := if b then m else ret tt.

(** *** [IgnRenderer::ScreenToScene] *)

Definition normalize_x (cam : Camera) (p : Vector2i) : D :=
  dsub (ddiv (dmul (of_int 2) (of_int (X p))) (of_int (ImageWidth cam)))
    (of_int 1).

Definition normalize_y (cam : Camera) (p : Vector2i) : D :=
  dsub (of_int 1)
    (ddiv (dmul (of_int 2) (of_int (Y p))) (of_int (ImageHeight cam))).

Definition ScreenToScene (_screenPos : Vector2i) : M Vector3d :=
  cam <- gets (fun r => camera (dataPtr r)) ;;
  let nx := normalize_x cam _screenPos in
  let ny := normalize_y cam _screenPos in
  modify (with_dataPtr
            (fun i => set_rayQuery (SetFromCamera cam (nx, ny) (rayQuery i)) i)) ;;
  rq <- gets (fun r => rayQuery (dataPtr r)) ;;
  let result := ClosestPoint rq in
  if result_ok result
  then ret (result_point result)
  else ret (vadd (Origin rq) (vscale (Direction rq) (of_int 10))).

(** *** The producers of pending input (GUI thread) *)

Definition NewHoverEvent (_hoverPos : Vector2i) (r : IgnRenderer)
  : IgnRenderer :=
  with_dataPtr (fun i => set_hoverDirty true (set_mouseHoverPos _hoverPos i)) r.

Definition NewDropEvent (_dropText : String.string) (_dropPos : Vector2i)
  (r : IgnRenderer) : IgnRenderer :=
  with_dataPtr (fun i => set_dropDirty true (set_drop _dropText _dropPos i)) r.

Definition NewMouseEvent (_e : MouseEvent) (r : IgnRenderer) : IgnRenderer :=
  with_dataPtr (fun i => set_mouseDirty true (set_mouseEvent _e i)) r.

Definition copy_modifiers (k : KeyEvent) (m : MouseEvent) : MouseEvent :=
  mkMouseEvent (Pos m) (PressPos m) (Dragging m) (Type_ m) (Button m)
    (KeyControl k) (KeyShift k) (KeyAlt k).

Definition HandleKeyPress (_e : KeyEvent) (r : IgnRenderer) : IgnRenderer :=
  with_dataPtr
    (fun i => set_mouseEvent (copy_modifiers _e (mouseEvent i))
                (set_keyEvent _e i)) r.

Definition HandleKeyRelease (_e : KeyEvent) (r : IgnRenderer) : IgnRenderer :=
  with_dataPtr
    (fun i => set_mouseEvent (copy_modifiers _e (mouseEvent i))
                (set_keyEvent _e i)) r.

(** *** The broadcasts (worker thread) *)

Definition BroadcastDrop : M unit :=
  dirty <- gets (fun r => dropDirty (dataPtr r)) ;;
  if negb dirty then ret tt
  else
    i <- gets dataPtr ;;
    sendEvent (DropOnScene (dropText i) (mouseDropPos i)) ;;
    modify (with_dataPtr (set_dropDirty false)).

Definition hover_event (i : Implementation) : MouseEvent :=
  mkMouseEvent (mouseHoverPos i) (PressPos (mouseEvent i)) false MOVE
    (Button (mouseEvent i)) (Control (mouseEvent i)) (Shift (mouseEvent i))
    (Alt (mouseEvent i)).

Definition BroadcastHoverPos : M unit :=
  dirty <- gets (fun r => hoverDirty (dataPtr r)) ;;
  if negb dirty then ret tt
  else
    hover <- gets (fun r => mouseHoverPos (dataPtr r)) ;;
    pos <- ScreenToScene hover ;;
    sendEvent (HoverToScene pos) ;;
    i <- gets dataPtr ;;
    sendEvent (HoverOnScene (hover_event i)) ;;
    modify (with_dataPtr (set_hoverDirty false)).

Definition BroadcastDrag : M unit :=
  i <- gets dataPtr ;;
  if negb (mouseDirty i) then ret tt
  else if negb (Dragging (mouseEvent i)) then ret tt
  else
    sendEvent (DragOnScene (mouseEvent i)) ;;
    modify (with_dataPtr (set_mouseDirty false)).

Definition is_button (b : MouseButton) (m : MouseEvent) : bool :=
  match b, Button m with
  | NO_BUTTON, NO_BUTTON | LEFT, LEFT | MIDDLE, MIDDLE | RIGHT, RIGHT => true
  | _, _ => false
  end.

Definition is_type (t : MouseEventType) (m : MouseEvent) : bool :=
  match t, Type_ m with
  | MouseNoEvent, MouseNoEvent | MOVE, MOVE | MousePress, MousePress
  | MouseRelease, MouseRelease | SCROLL, SCROLL => true
  | _, _ => false
  end.

Definition BroadcastLeftClick : M unit :=
  i <- gets dataPtr ;;
  if negb (mouseDirty i) then ret tt
  else if negb (is_button LEFT (mouseEvent i))
          || negb (is_type MouseRelease (mouseEvent i))
  then ret tt
  else
    pos <- ScreenToScene (Pos (mouseEvent i)) ;;
    sendEvent (LeftClickToScene pos) ;;
    sendEvent (LeftClickOnScene (mouseEvent i)) ;;
    modify (with_dataPtr (set_mouseDirty false)).

Definition BroadcastRightClick : M unit :=
  i <- gets dataPtr ;;
  if negb (mouseDirty i) then ret tt
  else if negb (is_button RIGHT (mouseEvent i))
          || negb (is_type MouseRelease (mouseEvent i))
  then ret tt
  else
    pos <- ScreenToScene (Pos (mouseEvent i)) ;;
    sendEvent (RightClickToScene pos) ;;
    sendEvent (RightClickOnScene (mouseEvent i)) ;;
    modify (with_dataPtr (set_mouseDirty false)).

Definition BroadcastMousePress : M unit :=
  i <- gets dataPtr ;;
  if negb (mouseDirty i) then ret tt
  else if negb (is_type MousePress (mouseEvent i)) then ret tt
  else
    sendEvent (MousePressOnScene (mouseEvent i)) ;;
    modify (with_dataPtr (set_mouseDirty false)).

Definition BroadcastScroll : M unit :=
  i <- gets dataPtr ;;
  if negb (mouseDirty i) then ret tt
  else if negb (is_type SCROLL (mouseEvent i)) then ret tt
  else
    sendEvent (ScrollOnScene (mouseEvent i)) ;;
    modify (with_dataPtr (set_mouseDirty false)).

Definition is_key_type (t : KeyEventType) (k : KeyEvent) : bool :=
  match t, KeyType k with
  | NO_EVENT, NO_EVENT | PRESS, PRESS | RELEASE, RELEASE => true
  | _, _ => false
  end.

Definition BroadcastKeyRelease : M unit :=
  i <- gets dataPtr ;;
  if negb (is_key_type RELEASE (keyEvent i)) then ret tt
  else
    sendEvent (KeyReleaseOnScene (keyEvent i)) ;;
    modify (with_dataPtr (fun i => set_keyEvent (SetType NO_EVENT (keyEvent i)) i)).

Definition BroadcastKeyPress : M unit :=
  i <- gets dataPtr ;;
  if negb (is_key_type PRESS (keyEvent i)) then ret tt
  else
    sendEvent (KeyPressOnScene (keyEvent i)) ;;
    modify (with_dataPtr (fun i => set_keyEvent (SetType NO_EVENT (keyEvent i)) i)).

(** [IgnRenderer::HandleMouseEvent], run with the input mutex held. *)
Definition HandleMouseEvent : M unit :=
  BroadcastHoverPos ;;
  BroadcastDrag ;;
  BroadcastMousePress ;;
  BroadcastLeftClick ;;
  BroadcastRightClick ;;
  BroadcastScroll ;;
  BroadcastKeyPress ;;
  BroadcastKeyRelease ;;
  BroadcastDrop ;;
  modify (with_dataPtr (set_mouseDirty false)).

(** *** [IgnRenderer::Initialize] *)

Definition Initialize (r : IgnRenderer) : IgnRenderer :=
  if initialized r then r
  else if negb engine_supported then r
  else if gridEnable r && negb grid_visual_exists && negb grid_created then r
  else
    let cam := PreRender (SetUpCamera (textureSize r) CreateCamera) in
    set_initialized true
      (with_dataPtr (fun i => set_rayQuery (CreateRayQuery cam) i)
         (set_textureId (RenderTextureGLId cam)
            (with_dataPtr (set_camera cam) r))).

(** *** [IgnRenderer::Render]

    The frame between [WaitForQtThreadAndBlock] and
    [ReleaseQtThreadFromBlock]; the two calls themselves are the worker
    steps of [RenderSync]. *)

Definition resize : M unit :=
  sz <- gets textureSize ;;
  modify (with_dataPtr
            (fun i => set_camera
                        (SetImageHeight (height sz)
                           (SetImageWidth (width sz) (camera i))) i)) ;;
  match int_div (width sz) (height sz) with
  | None => undefined
  | Some ratio =>
      modify (with_dataPtr
                (fun i => set_camera
                            (PreRender (SetAspectRatio (of_int ratio) (camera i)))
                            i)) ;;
      modify (set_textureDirty false)
  end.

Definition read_texture_id : M unit :=
  modify (fun r => set_textureId (RenderTextureGLId (camera (dataPtr r))) r).

Definition update_camera : M unit :=
  modify (with_dataPtr (fun i => set_camera (Update (camera i)) i)).

Definition Render : M unit :=
  dirty <- gets textureDirty ;;
  when dirty resize ;;
  read_texture_id ;;
  HandleMouseEvent ;;
  when getApp (sendEvent PreRenderEvent) ;;
  update_camera ;;
  when getApp (sendEvent RenderEvent).

(** *** [RenderThread]

    [RenderNext] returns, besides the renderer and the events sent, the
    arguments of the [TextureReady] signal when it is emitted. *)
Definition RenderNext (r : IgnRenderer)
  : option (IgnRenderer * list event * option (Z * QSize)) :=
  let r1 := if initialized r then r else Initialize r in
  if negb (initialized r1) then Some (r1, [], None)
  else
    match Render r1 with
    | None => None
    | Some (_, r2, evs) => Some (r2, evs, Some (textureId r2, textureSize r2))
    end.

(** [SizeChanged]: [sender] is the [QQuickItem] that sent the signal, as
    its width and height, or [None] when the sender is no [QQuickItem]. *)
Definition SizeChanged (sender : option (qreal * qreal)) (r : IgnRenderer)
  : option IgnRenderer :=
  match sender with
  | None => Some r
  | Some (w, h) =>
      if qreal_le w (qreal_of_Z 0) || qreal_le h (qreal_of_Z 0) then Some r
      else
        match to_int w, to_int h with
        | Some wi, Some hi =>
            Some (set_textureDirty true (set_textureSize (mkQSize wi hi) r))
        | _, _ => None
        end
  end.

(** [RenderWindowItem::Ready], as far as the renderer is concerned: the
    initial texture size from the item's width and height. *)
Definition Ready (w h : qreal) (r : IgnRenderer) : option IgnRenderer :=
  match to_int (std_max w (qreal_of_Z 1)), to_int (std_max h (qreal_of_Z 1)) with
  | Some wi, Some hi => Some (set_textureSize (mkQSize wi hi) r)
  | _, _ => None
  end.

End WithEngine.

(** *** [TextureNode] *)

(** The [QSGTexture] that wraps a GL texture id. *)
Record QSGTexture : Set := mkQSGTexture {
  gl_id : Z;
  gl_size : QSize
}.

Record TextureNode : Set := mkTextureNode {
  id : Z;                     (* uint id *)
  size : QSize;
  texture : QSGTexture;       (* this->texture *)
  shown : QSGTexture          (* what setTexture installed *)
}.

(** What [NewTexture] and [PrepareNode] do besides writing members. *)
Inductive node_effect : Set :=
| MutexLock
| MutexUnlock
| Delete (t : QSGTexture)
| Create (t : QSGTexture)
| MarkDirtyMaterial
| EmitPendingNewTexture
| EmitTextureInUse
| WaitForWorkerThread.

(** The constructor: the default 0 texture of size 1 x 1. *)
Definition TextureNode_new : TextureNode :=
  let t := mkQSGTexture 0 (mkQSize 1 1) in
  mkTextureNode 0 (mkQSize 0 0) t t.

Definition NewTexture (_id : Z) (_size : QSize) (n : TextureNode)
  : TextureNode * list node_effect :=
  (mkTextureNode _id _size (texture n) (shown n),
   [MutexLock; MutexUnlock; EmitPendingNewTexture]).

(** [createTextureFromId (newId, sz, TextureIsOpaque)]. *)
Definition createTextureFromId (newId : Z) (sz : QSize) : QSGTexture :=
  mkQSGTexture newId sz.

Definition PrepareNode (n : TextureNode) : TextureNode * list node_effect :=
  let newId := id n in
  let sz := size n in
  let n1 := mkTextureNode 0 (size n) (texture n) (shown n) in
  if negb (newId =? 0)
  then
    let t := createTextureFromId newId sz in
    (mkTextureNode (id n1) (size n1) t t,
     [MutexLock; MutexUnlock; Delete (texture n1); Create t;
      MarkDirtyMaterial; EmitTextureInUse; WaitForWorkerThread])
  else
    (n1, [MutexLock; MutexUnlock; EmitTextureInUse; WaitForWorkerThread]).

(** *** What [HandleMouseEvent] dispatches, payloads aside *)

Inductive category : Set :=
| Hover | Drag | GenericPress | LeftClick | RightClick | Scroll
| KeyPress | KeyRelease | Drop.

(** The category an event opens a dispatch of; the second event of a hover
    or click dispatch, and the render events, open none. *)
Definition lead {D : Type} (e : gui_event D) : option category :=
  match e with
  | HoverToScene _ => Some Hover
  | HoverOnScene _ => None
  | DragOnScene _ => Some Drag
  | MousePressOnScene _ => Some GenericPress
  | LeftClickToScene _ => Some LeftClick
  | LeftClickOnScene _ => None
  | RightClickToScene _ => Some RightClick
  | RightClickOnScene _ => None
  | ScrollOnScene _ => Some Scroll
  | KeyPressOnScene _ => Some KeyPress
  | KeyReleaseOnScene _ => Some KeyRelease
  | DropOnScene _ _ => Some Drop
  | PreRenderEvent => None
  | RenderEvent => None
  end.

Definition dispatched {D : Type} (log : list (gui_event D)) : list category :=
  flat_map (fun e => match lead e with Some c => [c] | None => [] end) log.

Definition category_eqb (a b : category) : bool :=
  match a, b with
  | Hover, Hover | Drag, Drag | GenericPress, GenericPress
  | LeftClick, LeftClick | RightClick, RightClick | Scroll, Scroll
  | KeyPress, KeyPress | KeyRelease, KeyRelease | Drop, Drop => true
  | _, _ => false
  end.

(** How often a category was dispatched. *)
Definition times (c : category) (cs : list category) : nat :=
  length (filter (category_eqb c) cs).

Definition is_mouse_category (c : category) : bool :=
  match c with
  | Drag | GenericPress | LeftClick | RightClick | Scroll => true
  | _ => false
  end.

(** The pending input of a renderer: the dirty flags and the two stored
    events. *)
Record Pending : Set := mkPending {
  pHover : bool;
  pMouse : bool;
  pDrop : bool;
  pMouseEvent : MouseEvent;
  pKeyEvent : KeyEvent
}.

Definition pending {E : Engine} (r : IgnRenderer) : Pending :=
  let i := dataPtr r in
  mkPending (hoverDirty i) (mouseDirty i) (dropDirty i) (mouseEvent i)
    (keyEvent i).

(** What gates a category: its dirty flag, or for the keys the type of the
    stored key event. *)
Definition gate (c : category) (p : Pending) : bool :=
  match c with
  | Hover => pHover p
  | Drag | GenericPress | LeftClick | RightClick | Scroll => pMouse p
  | KeyPress => is_key_type PRESS (pKeyEvent p)
  | KeyRelease => is_key_type RELEASE (pKeyEvent p)
  | Drop => pDrop p
  end.

(** The one mouse broadcast a pending mouse event leads to, if any, in the
    order [HandleMouseEvent] tries them. *)
Definition mouse_path (m : MouseEvent) : option category :=
  if Dragging m then Some Drag
  else if is_type MousePress m then Some GenericPress
  else if is_button LEFT m && is_type MouseRelease m then Some LeftClick
  else if is_button RIGHT m && is_type MouseRelease m then Some RightClick
  else if is_type SCROLL m then Some Scroll
  else None.

Definition key_path (k : KeyEvent) : option category :=
  match KeyType k with
  | PRESS => Some KeyPress
  | RELEASE => Some KeyRelease
  | NO_EVENT => None
  end.

Definition opt_list {A : Type} (o : option A) : list A :=
  match o with Some a => [a] | None => [] end.

(** The dispatch table of [HandleMouseEvent]: what it dispatches, in
    order, and the pending input it leaves. *)
Definition dispatch_table (p : Pending) : list category :=
  (if pHover p then [Hover] else [])
  ++ (if pMouse p then opt_list (mouse_path (pMouseEvent p)) else [])
  ++ opt_list (key_path (pKeyEvent p))
  ++ (if pDrop p then [Drop] else []).

Definition consumed (p : Pending) : Pending :=
  mkPending false false false (pMouseEvent p)
    (match KeyType (pKeyEvent p) with
     | NO_EVENT => pKeyEvent p
     | _ => SetType NO_EVENT (pKeyEvent p)
     end).

(** The shadow of one broadcast on the pending input. *)
Definition shadow : Set := Pending -> Pending * list category.

Definition shadow_seq (a b : shadow) : shadow :=
  fun p => let (p1, c1) := a p in let (p2, c2) := b p1 in (p2, c1 ++ c2).

Definition clear_mouse (p : Pending) : Pending :=
  mkPending (pHover p) false (pDrop p) (pMouseEvent p) (pKeyEvent p).
Definition clear_hover (p : Pending) : Pending :=
  mkPending false (pMouse p) (pDrop p) (pMouseEvent p) (pKeyEvent p).
Definition clear_drop (p : Pending) : Pending :=
  mkPending (pHover p) (pMouse p) false (pMouseEvent p) (pKeyEvent p).
Definition clear_key (p : Pending) : Pending :=
  mkPending (pHover p) (pMouse p) (pDrop p) (pMouseEvent p)
    (SetType NO_EVENT (pKeyEvent p)).

Definition mouse_shadow (c : category) (fires : MouseEvent -> bool) : shadow :=
  fun p =>
    if pMouse p && fires (pMouseEvent p) then (clear_mouse p, [c]) else (p, []).

Definition hover_shadow : shadow :=
  fun p => if pHover p then (clear_hover p, [Hover]) else (p, []).
Definition drop_shadow : shadow :=
  fun p => if pDrop p then (clear_drop p, [Drop]) else (p, []).
Definition key_shadow (c : category) (t : KeyEventType) : shadow :=
  fun p => if is_key_type t (pKeyEvent p) then (clear_key p, [c]) else (p, []).

(** What makes the broadcast of a category dispatch: its gate, and for
    the mouse categories also the test on the stored mouse event. *)
Definition fires (c : category) (p : Pending) : bool :=
  match c with
  | Hover => pHover p
  | Drag => pMouse p && Dragging (pMouseEvent p)
  | GenericPress => pMouse p && is_type MousePress (pMouseEvent p)
  | LeftClick =>
      pMouse p
      && (is_button LEFT (pMouseEvent p)
          && is_type MouseRelease (pMouseEvent p))
  | RightClick =>
      pMouse p
      && (is_button RIGHT (pMouseEvent p)
          && is_type MouseRelease (pMouseEvent p))
  | Scroll => pMouse p && is_type SCROLL (pMouseEvent p)
  | KeyPress => is_key_type PRESS (pKeyEvent p)
  | KeyRelease => is_key_type RELEASE (pKeyEvent p)
  | Drop => pDrop p
  end.

(** The pending input with the gate of a category reset: its dirty flag
    false, or the type of the stored key event [NO_EVENT]. *)
Definition reset (c : category) (p : Pending) : Pending :=
  match c with
  | Hover => clear_hover p
  | Drag | GenericPress | LeftClick | RightClick | Scroll => clear_mouse p
  | KeyPress | KeyRelease => clear_key p
  | Drop => clear_drop p
  end.

Definition HandleMouseEvent_shadow : shadow :=
  shadow_seq hover_shadow
  (shadow_seq (mouse_shadow Drag Dragging)
  (shadow_seq (mouse_shadow GenericPress (is_type MousePress))
  (shadow_seq (mouse_shadow LeftClick
                 (fun m => is_button LEFT m && is_type MouseRelease m))
  (shadow_seq (mouse_shadow RightClick
                 (fun m => is_button RIGHT m && is_type MouseRelease m))
  (shadow_seq (mouse_shadow Scroll (is_type SCROLL))
  (shadow_seq (key_shadow KeyPress PRESS)
  (shadow_seq (key_shadow KeyRelease RELEASE)
  (shadow_seq drop_shadow
     (fun p => (clear_mouse p, [])))))))))).

(** *** An engine to run the code on

    Exact rational arithmetic for the doubles; a camera that remembers its
    image size and counts frames, its render texture alternating between
    two GL ids from frame to frame; a ray query that hits the plane
    [z = 5] in the right half of the image and nothing in the left half;
    an application whose handlers leave the camera alone. *)

Record ToyCamera : Set := mkToyCamera {
  toy_width : Z;
  toy_height : Z;
  toy_frames : Z
}.

Record ToyRay : Set := mkToyRay {
  toy_nx : QArith_base.Q;
  toy_ny : QArith_base.Q
}.

Definition Qzero : QArith_base.Q := QArith_base.inject_Z 0.

Definition toy_hit (q : ToyRay) : option (Vector3 QArith_base.Q) :=
  if QArith_base.Qle_bool Qzero (toy_nx q)
  then Some (mkVector3 (toy_nx q) (toy_ny q) (QArith_base.inject_Z 5))
  else None.

Definition toy_engine : Engine := {|
  D := QArith_base.Q;
  dadd := QArith_base.Qplus;
  dsub := QArith_base.Qminus;
  dmul := QArith_base.Qmult;
  ddiv := QArith_base.Qdiv;
  of_int := QArith_base.inject_Z;
  Camera := ToyCamera;
  ImageWidth := toy_width;
  ImageHeight := toy_height;
  SetImageWidth := fun w c => mkToyCamera w (toy_height c) (toy_frames c);
  SetImageHeight := fun h c => mkToyCamera (toy_width c) h (toy_frames c);
  SetAspectRatio := fun _ c => c;
  PreRender := fun c => c;
  RenderTextureGLId := fun c => 7 + Z.modulo (toy_frames c) 2;
  Update := fun c => mkToyCamera (toy_width c) (toy_height c) (toy_frames c + 1);
  RayQuery := ToyRay;
  RayQueryResult := option (Vector3 QArith_base.Q);
  SetFromCamera := fun _ n _ => mkToyRay (fst n) (snd n);
  ClosestPoint := toy_hit;
  result_ok := fun o => match o with Some _ => true | None => false end;
  result_point :=
    fun o => match o with
             | Some p => p
             | None => mkVector3 Qzero Qzero Qzero
             end;
  Origin := fun _ => mkVector3 Qzero Qzero Qzero;
  Direction := fun q => mkVector3 (toy_nx q) (toy_ny q) (QArith_base.inject_Z 1);
  engine_supported := true;
  grid_visual_exists := false;
  grid_created := true;
  CreateCamera := mkToyCamera 1 1 0;
  SetUpCamera := fun sz c => mkToyCamera (width sz) (height sz) (toy_frames c);
  CreateRayQuery := fun _ => mkToyRay Qzero Qzero;
  getApp := true;
  deliver := fun _ c => c
|}.

Definition origin2 : Vector2i := mkVector2i 0 0.

Definition idle_mouse : MouseEvent :=
  mkMouseEvent origin2 origin2 false MouseNoEvent NO_BUTTON false false false.

Definition idle_key : KeyEvent := mkKeyEvent NO_EVENT 0 false false false.

(** A renderer on the toy engine after [Initialize], 800 x 600, nothing
    pending. *)
Definition toy_renderer : @IgnRenderer toy_engine :=
  @mkIgnRenderer toy_engine true 7 (mkQSize 800 600) false true
    (@mkImplementation toy_engine false false false idle_mouse idle_key
       (mkToyCamera 800 600 0) origin2 origin2 String.EmptyString
       (mkToyRay Qzero Qzero)).

(** A key press and a move without dragging, as the GUI thread leaves
    them. *)
Definition key_a_pressed : KeyEvent := mkKeyEvent PRESS 65 false false false.

Definition plain_move : MouseEvent :=
  mkMouseEvent (mkVector2i 10 20) origin2 false MOVE NO_BUTTON false false
    false.

Definition middle_release : MouseEvent :=
  mkMouseEvent (mkVector2i 10 20) origin2 false MouseRelease MIDDLE false false
    false.

Definition left_release : MouseEvent :=
  mkMouseEvent (mkVector2i 600 150) origin2 false MouseRelease LEFT false false
    false.

Definition drag_press : MouseEvent :=
  mkMouseEvent (mkVector2i 10 20) origin2 true MousePress LEFT false false
    false.

(** Everything pending at once: a hover, a left-button release, a key
    press and a drop. *)
Definition busy_renderer : @IgnRenderer toy_engine :=
  NewHoverEvent (mkVector2i 200 300)
    (NewDropEvent "box" (mkVector2i 5 5)
       (HandleKeyPress key_a_pressed
          (NewMouseEvent left_release toy_renderer))).

(** A move without dragging is pending. *)
Definition moved_renderer : @IgnRenderer toy_engine :=
  NewMouseEvent plain_move toy_renderer.

(** A sender whose height is one half. *)
Definition half : qreal := QArith_base.Qmake 1 2.

(** The renderer state right after the [if (this->textureDirty)] block of
    [Render]: where the texture id is read. *)
Definition after_resize {E : Engine} (r : IgnRenderer) : option IgnRenderer :=
  match when (textureDirty r) resize r with
  | Some (_, r1, _) => Some r1
  | None => None
  end.

(** *** Notions used to state the results *)

Section Notions.
Context {E : Engine}.

(** The ray query after [SetFromCamera] with the normalized position. *)
Definition aimed (r : IgnRenderer) (p : Vector2i) : RayQuery :=
  let cam := camera (dataPtr r) in
  SetFromCamera cam (normalize_x cam p, normalize_y cam p)
    (rayQuery (dataPtr r)).

Definition scene_point (r : IgnRenderer) (p : Vector2i) : Vector3d :=
  let rq := aimed r p in
  if result_ok (ClosestPoint rq)
  then result_point (ClosestPoint rq)
  else vadd (Origin rq) (vscale (Direction rq) (of_int 10)).

(** Members of [IgnRenderer] outside [dataPtr]. *)
Definition same_public (r r' : IgnRenderer) : Prop :=
  initialized r' = initialized r
  /\ textureId r' = textureId r
  /\ textureSize r' = textureSize r
  /\ textureDirty r' = textureDirty r
  /\ gridEnable r' = gridEnable r.

(** A computation acts on the pending input as its shadow says, and
    leaves the public members alone. *)
Definition simulates (m : M unit) (sh : shadow) : Prop :=
  forall r r' log u,
    m r = Some (u, r', log) ->
    (pending r', dispatched log) = sh (pending r) /\ same_public r r'.

(** A computation that runs into nothing undefined. *)
Definition defined (m : M unit) : Prop :=
  forall r, exists r' log, m r = Some (tt, r', log).

(** What the handlers of the application do to the camera on an event
    that [Render] sends only when there is an application. *)
Definition app_handlers (e : event) (c : Camera) : Camera :=
  if getApp then deliver e c else c.

(** The broadcast of each category. *)
Definition broadcast_of (c : category) : M unit :=
  match c with
  | Hover => BroadcastHoverPos
  | Drag => BroadcastDrag
  | GenericPress => BroadcastMousePress
  | LeftClick => BroadcastLeftClick
  | RightClick => BroadcastRightClick
  | Scroll => BroadcastScroll
  | KeyPress => BroadcastKeyPress
  | KeyRelease => BroadcastKeyRelease
  | Drop => BroadcastDrop
  end.

(** Integers up to [exact_max] are doubles, and so are their doubles,
    their differences and their quotients when these are integers. *)
Definition exact_max : Z := 2 ^ 52.

Definition deq (dle : D -> D -> Prop) (a b : D) : Prop :=
  dle a b /\ dle b a.

(** What the normalization of [ScreenToScene] needs of the order on the
    doubles: the conversion from [int] does not decrease; doubling an
    integer, dividing a multiple by a positive integer and subtracting
    integers are exact up to [exact_max]; dividing by a positive integer
    and subtracting 1 do not decrease, subtracting from 1 does not
    increase. All of it holds of the IEEE doubles with rounding to nearest
    under [<=], and of exact arithmetic. *)
Record ordered_arith (dle : D -> D -> Prop) : Prop := mkOrderedArith {
  dle_trans : forall a b c, dle a b -> dle b c -> dle a c;
  of_int_mono : forall a b, a <= b -> dle (of_int a) (of_int b);
  twice_exact :
    forall a, Z.abs a <= exact_max ->
              deq dle (dmul (of_int 2) (of_int a)) (of_int (2 * a));
  div_mono :
    forall a b w, 0 < w <= exact_max -> dle a b ->
                  dle (ddiv a (of_int w)) (ddiv b (of_int w));
  div_exact :
    forall k w, 0 < w -> Z.abs (k * w) <= 2 * exact_max ->
                deq dle (ddiv (of_int (k * w)) (of_int w)) (of_int k);
  sub_mono_l :
    forall a b, dle a b -> dle (dsub a (of_int 1)) (dsub b (of_int 1));
  sub_mono_r :
    forall a b, dle a b -> dle (dsub (of_int 1) b) (dsub (of_int 1) a);
  sub_exact :
    forall a b, Z.abs a <= exact_max -> Z.abs b <= exact_max ->
                deq dle (dsub (of_int a) (of_int b)) (of_int (a - b))
}.

End Notions.

(** *** What the sent events carry *)

(** The stored input an event can carry: the mouse event, the hover and
    drop positions, the drop text, and the key event apart from its type,
    which a dispatch resets. *)
Record Stored : Set := mkStored {
  sMouse : MouseEvent;
  sHover : Vector2i;
  sDropPos : Vector2i;
  sDropText : String.string;
  sKey : KeyEvent
}.

Section Carried.
Context {E : Engine}.

Definition stored (r : IgnRenderer) : Stored :=
  let i := dataPtr r in
  mkStored (mouseEvent i) (mouseHoverPos i) (mouseDropPos i) (dropText i)
    (SetType NO_EVENT (keyEvent i)).

(** An event of [HandleMouseEvent] carries the stored input [a]: the mouse
    events the stored mouse event, which has the shape their broadcast
    tests for; the hover event the hover position, not dragging, of type
    [MOVE]; the key events the stored key event with the type of their
    broadcast; the drop event the stored text and position. The two render
    events are none of [HandleMouseEvent]. *)
Definition carries (a : Stored) (e : event) : Prop :=
  match e with
  | HoverToScene _ | LeftClickToScene _ | RightClickToScene _ => True
  | HoverOnScene m =>
      m = mkMouseEvent (sHover a) (PressPos (sMouse a)) false MOVE
            (Button (sMouse a)) (Control (sMouse a)) (Shift (sMouse a))
            (Alt (sMouse a))
  | DragOnScene m => m = sMouse a /\ Dragging m = true
  | MousePressOnScene m => m = sMouse a /\ Type_ m = MousePress
  | LeftClickOnScene m =>
      m = sMouse a /\ Button m = LEFT /\ Type_ m = MouseRelease
  | RightClickOnScene m =>
      m = sMouse a /\ Button m = RIGHT /\ Type_ m = MouseRelease
  | ScrollOnScene m => m = sMouse a /\ Type_ m = SCROLL
  | KeyPressOnScene k => SetType NO_EVENT k = sKey a /\ KeyType k = PRESS
  | KeyReleaseOnScene k => SetType NO_EVENT k = sKey a /\ KeyType k = RELEASE
  | DropOnScene t p => t = sDropText a /\ p = sDropPos a
  | PreRenderEvent | RenderEvent => False
  end.

(** A computation that leaves the stored input alone and sends only
    events that carry it. *)
Definition keeps (m : M unit) : Prop :=
  forall r r' log u,
    m r = Some (u, r', log) ->
    stored r' = stored r /\ Forall (carries (stored r)) log.

(** A computation without an application to send to: it is undefined as
    soon as its shadow dispatches something, and sends nothing
    otherwise. *)
Definition without_app (m : M unit) (sh : shadow) : Prop :=
  getApp = false ->
  forall r,
    match snd (sh (pending r)) with
    | [] =>
        exists r',
          m r = Some (tt, r', [])
          /\ pending r' = fst (sh (pending r))
          /\ same_public r r'
          /\ camera (dataPtr r') = camera (dataPtr r)
    | _ :: _ => m r = None
    end.

(** The events [Render] sends around [camera->Update ()]. *)
Definition render_events : list event :=
  if getApp then [PreRenderEvent; RenderEvent] else [].

(** The end of a frame: the handlers of the pre-render event, the update
    of the camera, the handlers of the render event. *)
Definition finish_frame (r : IgnRenderer) : IgnRenderer :=
  with_dataPtr
    (fun i =>
       set_camera
         (app_handlers RenderEvent
            (Update (app_handlers PreRenderEvent (camera i)))) i) r.

(** The renderer with the texture id read off its camera. *)
Definition with_id_read (r : IgnRenderer) : IgnRenderer :=
  set_textureId (RenderTextureGLId (camera (dataPtr r))) r.

(** [Initialize] cannot get through. *)
Definition cannot_initialize (r : IgnRenderer) : bool :=
  negb engine_supported
  || (gridEnable r && negb grid_visual_exists && negb grid_created).

(** *** [RenderWindowItem]: the handlers of the GUI thread

    [RenderWindowItem::Implementation::mouseEvent] and the renderer of the
    render thread; an event arrives as [ignition::gui::convert] made it. *)
Record RenderWindowItem : Type := mkRenderWindowItem {
  item_mouseEvent : MouseEvent;
  ignRenderer : IgnRenderer
}.

Definition SetPressPos (p : Vector2i) (m : MouseEvent) : MouseEvent :=
  mkMouseEvent (Pos m) p (Dragging m) (Type_ m) (Button m) (Control m)
    (Shift m) (Alt m).

Definition SetDragging (b : bool) (m : MouseEvent) : MouseEvent :=
  mkMouseEvent (Pos m) (PressPos m) b (Type_ m) (Button m) (Control m)
    (Shift m) (Alt m).

Definition forward (m : MouseEvent) (it : RenderWindowItem)
  : RenderWindowItem :=
  mkRenderWindowItem m (NewMouseEvent m (ignRenderer it)).

Definition mousePressEvent (_e : MouseEvent) (it : RenderWindowItem)
  : RenderWindowItem :=
  forward (SetPressPos (Pos _e) _e) it.

Definition mouseReleaseEvent (_e : MouseEvent) (it : RenderWindowItem)
  : RenderWindowItem :=
  let pressPos := PressPos (item_mouseEvent it) in
  let dragging := Dragging (item_mouseEvent it) in
  forward (SetDragging dragging (SetPressPos pressPos _e)) it.

Definition mouseMoveEvent (_e : MouseEvent) (it : RenderWindowItem)
  : RenderWindowItem :=
  let pressPos := PressPos (item_mouseEvent it) in
  forward (if Dragging _e then SetPressPos pressPos _e else _e) it.

Definition wheelEvent (_e : MouseEvent) (it : RenderWindowItem)
  : RenderWindowItem :=
  forward _e it.

(** [keyPressEvent] and [keyReleaseEvent]: both end in
    [IgnRenderer::HandleKeyPress]. *)
Definition keyPressEvent (isAutoRepeat : bool) (_e : KeyEvent)
  (it : RenderWindowItem) : RenderWindowItem :=
  if isAutoRepeat then it
  else mkRenderWindowItem (item_mouseEvent it)
         (HandleKeyPress _e (ignRenderer it)).

Definition keyReleaseEvent (isAutoRepeat : bool) (_e : KeyEvent)
  (it : RenderWindowItem) : RenderWindowItem :=
  if isAutoRepeat then it
  else mkRenderWindowItem (item_mouseEvent it)
         (HandleKeyPress _e (ignRenderer it)).

Definition OnHovered (_mouseX _mouseY : Z) (it : RenderWindowItem)
  : RenderWindowItem :=
  mkRenderWindowItem (item_mouseEvent it)
    (NewHoverEvent (mkVector2i _mouseX _mouseY) (ignRenderer it)).

Definition OnDropped (_drop : String.string) (_mouseX _mouseY : Z)
  (it : RenderWindowItem) : RenderWindowItem :=
  mkRenderWindowItem (item_mouseEvent it)
    (NewDropEvent _drop (mkVector2i _mouseX _mouseY) (ignRenderer it)).

(** What happens to an item between two looks at it: events on the GUI
    thread, and frames of the worker applying the pending input. *)
Inductive gui_op : Type :=
| MousePressed (e : MouseEvent)
| MouseReleased (e : MouseEvent)
| MouseMoved (e : MouseEvent)
| Wheeled (e : MouseEvent)
| KeyPressed (isAutoRepeat : bool) (e : KeyEvent)
| KeyReleased (isAutoRepeat : bool) (e : KeyEvent)
| Hovered (x y : Z)
| Dropped (text : String.string) (x y : Z)
| Frame.

Definition item_step (o : gui_op) (it : RenderWindowItem)
  : option (RenderWindowItem * list event) :=
  match o with
  | MousePressed e => Some (mousePressEvent e it, [])
  | MouseReleased e => Some (mouseReleaseEvent e it, [])
  | MouseMoved e => Some (mouseMoveEvent e it, [])
  | Wheeled e => Some (wheelEvent e it, [])
  | KeyPressed a e => Some (keyPressEvent a e it, [])
  | KeyReleased a e => Some (keyReleaseEvent a e it, [])
  | Hovered x y => Some (OnHovered x y it, [])
  | Dropped t x y => Some (OnDropped t x y it, [])
  | Frame =>
      match HandleMouseEvent (ignRenderer it) with
      | None => None
      | Some (_, r, log) =>
          Some (mkRenderWindowItem (item_mouseEvent it) r, log)
      end
  end.

Fixpoint session (ops : list gui_op) (it : RenderWindowItem)
  : option (RenderWindowItem * list event) :=
  match ops with
  | [] => Some (it, [])
  | o :: rest =>
      match item_step o it with
      | None => None
      | Some (it1, l1) =>
          match session rest it1 with
          | None => None
          | Some (it2, l2) => Some (it2, l1 ++ l2)
          end
      end
  end.

(** Operations that store no new key event: everything but a key event
    that is not an auto-repeat. *)
Definition no_new_key (o : gui_op) : bool :=
  match o with
  | KeyPressed a _ | KeyReleased a _ => a
  | _ => true
  end.

Definition is_frame (o : gui_op) : bool :=
  match o with Frame => true | _ => false end.

(** Operations that leave the press position of the item alone: all but a
    press, a wheel event and a move that is not dragging. *)
Definition keeps_press (o : gui_op) : bool :=
  match o with
  | MousePressed _ | Wheeled _ => false
  | MouseMoved e => Dragging e
  | _ => true
  end.

(** Operations that are no mouse event. *)
Definition no_mouse (o : gui_op) : bool :=
  match o with
  | MousePressed _ | MouseReleased _ | MouseMoved _ | Wheeled _ => false
  | _ => true
  end.

(** The mouse event an event carries. *)
Definition mouse_of (e : event) : option MouseEvent :=
  match e with
  | HoverOnScene m | DragOnScene m | MousePressOnScene m
  | LeftClickOnScene m | RightClickOnScene m | ScrollOnScene m => Some m
  | _ => None
  end.

(** The modifiers of a mouse event are those of a key event. *)
Definition modifiers_of (k : KeyEvent) (m : MouseEvent) : Prop :=
  Control m = KeyControl k /\ Shift m = KeyShift k /\ Alt m = KeyAlt k.

End Carried.

(** *** The texture node over time *)

Inductive node_op : Set :=
| Publish (id : Z) (sz : QSize)     (* TextureReady reaches NewTexture *)
| Prepare.                          (* beforeRendering reaches PrepareNode *)

Definition node_step (o : node_op) (n : TextureNode)
  : TextureNode * list node_effect :=
  match o with
  | Publish i sz => NewTexture i sz n
  | Prepare => PrepareNode n
  end.

Fixpoint node_run (ops : list node_op) (n : TextureNode)
  : TextureNode * list node_effect :=
  match ops with
  | [] => (n, [])
  | o :: rest =>
      let (n1, l1) := node_step o n in
      let (n2, l2) := node_run rest n1 in
      (n2, l1 ++ l2)
  end.

Definition is_wait (e : node_effect) : bool :=
  match e with WaitForWorkerThread => true | _ => false end.
Definition is_in_use (e : node_effect) : bool :=
  match e with EmitTextureInUse => true | _ => false end.
Definition is_prepare (o : node_op) : bool :=
  match o with Prepare => true | _ => false end.

Definition count {A : Type} (f : A -> bool) (l : list A) : nat :=
  length (filter f l).

(** Every [EmitTextureInUse] is followed at once by
    [WaitForWorkerThread], and there is no [WaitForWorkerThread] without
    it. *)
Fixpoint paired (l : list node_effect) : bool :=
  match l with
  | [] => true
  | EmitTextureInUse :: WaitForWorkerThread :: rest => paired rest
  | EmitTextureInUse :: _ => false
  | WaitForWorkerThread :: _ => false
  | _ :: rest => paired rest
  end.

(** The textures created and the textures deleted, in order. *)
Definition created (l : list node_effect) : list QSGTexture :=
  flat_map (fun e => match e with Create t => [t] | _ => [] end) l.

Definition deleted (l : list node_effect) : list QSGTexture :=
  flat_map (fun e => match e with Delete t => [t] | _ => [] end) l.

(** *** Sample inputs for the item and the node *)

Definition toy_item : @RenderWindowItem toy_engine :=
  @mkRenderWindowItem toy_engine idle_mouse toy_renderer.

Definition left_press : MouseEvent :=
  mkMouseEvent (mkVector2i 100 120) origin2 false MousePress LEFT false false
    false.

Definition drag_move : MouseEvent :=
  mkMouseEvent (mkVector2i 300 200) origin2 true MOVE LEFT false false false.

Definition ctrl_pressed : KeyEvent := mkKeyEvent PRESS 17 true false false.

(** A drag from press to release with a frame after each event. *)
Definition drag_session : list gui_op :=
  [MouseMoved drag_move; Frame; MouseReleased left_release; Frame].

(** Two textures published before the scene graph prepares the node. *)
Definition two_published : list node_op :=
  [Publish 7 (mkQSize 800 600); Publish 8 (mkQSize 640 480); Prepare].

End Scene.

(** ** RenderSync: invariants, liveness of the hand-off, shutdown *)

Module RenderSyncTheory.
Import RenderSync.

(** *** The enumerations are complete *)

Lemma all_states_complete (s : state) : In s all_states.
Proof.
  destruct s as [st m q w g]. unfold all_states.
  apply in_flat_map. exists st. split; [destruct st; simpl; tauto|].
  apply in_flat_map. exists m.
  split; [destruct m as [[]|]; simpl; tauto|].
  apply in_flat_map. exists q. split; [destruct q; simpl; tauto|].
  apply in_flat_map. exists w. split; [destruct w; simpl; tauto|].
  apply in_map. destruct g; simpl; tauto.
Qed.

Lemma all_labels_complete (l : label) : In l all_labels.
Proof. destruct l as [[] []|[]]; simpl; tauto. Qed.

(** A boolean property that evaluates to [true] on the enumeration holds of
    every state and every label. *)
Lemma by_enumeration (P : state -> label -> bool) :
  forallb (fun s => forallb (P s) all_labels) all_states = true ->
  forall s l, P s l = true.
Proof.
  intros H s l.
  rewrite forallb_forall in H.
  specialize (H s (all_states_complete s)).
  rewrite forallb_forall in H.
  exact (H l (all_labels_complete l)).
Qed.

Lemma by_enumeration_states (P : state -> bool) :
  forallb P all_states = true -> forall s, P s = true.
Proof.
  intros H s. rewrite forallb_forall in H. exact (H s (all_states_complete s)).
Qed.

(** *** [coherent] is an invariant *)

Lemma coherent_init : coherent init = true.
Proof. reflexivity. Qed.

Lemma coherent_preserved (s s' : state) (l : label) (ev : list event) :
  coherent s = true -> step l s = Some (s', ev) -> coherent s' = true.
Proof.
  intros Hc Hs.
  assert (H : implb (coherent s) (coherent_step s l) = true).
  { revert s l Hc Hs. intros s l _ _.
    apply (by_enumeration (fun s l => implb (coherent s) (coherent_step s l))).
    vm_compute. reflexivity. }
  rewrite Hc in H. simpl in H. unfold coherent_step in H.
  rewrite Hs in H. exact H.
Qed.

Lemma coherent_run (sched : list label) :
  forall s s' tr,
    coherent s = true -> run sched s = Some (s', tr) -> coherent s' = true.
Proof.
  induction sched as [|l rest IH]; intros s s' tr Hc Hr; simpl in Hr.
  - injection Hr as <- _. exact Hc.
  - destruct (step l s) as [[s1 ev]|] eqn:Hs; [|discriminate].
    destruct (run rest s1) as [[s2 evs]|] eqn:Hr1; [|discriminate].
    injection Hr as <- _.
    eapply IH; [|exact Hr1]. eapply coherent_preserved; eassumption.
Qed.

(** Whether a thread can move does not depend on the choice [notify_one]
    would make. *)
Lemma can_step_spec (t p : thread) (s : state) :
  can_step t s = false <-> step (Run t p) s = None.
Proof.
  unfold can_step.
  destruct s as [st m q w g]; destruct t; simpl;
    unfold qt_step, worker_step, gui_step, acquire; simpl.
  - destruct q; simpl; try destruct m; try destruct (qt_may_go st);
      split; intro; congruence.
  - destruct w; simpl; try destruct m; try destruct (worker_may_go st);
      split; intro; congruence.
  - destruct g; simpl; try destruct m; split; intro; congruence.
Qed.

Lemma coherent_progress (s : state) :
  coherent s = true -> progress_ok s = true.
Proof.
  intro Hc.
  assert (H : implb (coherent s) (progress_ok s) = true).
  { apply (by_enumeration_states (fun s => implb (coherent s) (progress_ok s))).
    vm_compute. reflexivity. }
  rewrite Hc in H. exact H.
Qed.

Lemma coherent_not_both_asleep (s : state) :
  coherent s = true -> qt_sleeps s && worker_sleeps s = false.
Proof.
  unfold coherent. intro H.
  apply andb_prop in H as [_ H]. apply negb_true_iff in H. exact H.
Qed.

(** *** The scan of a trace *)

Lemma fold_scan_app (tr1 tr2 : list event) (m : scan) :
  fold_left scan_step (tr1 ++ tr2) m
  = fold_left scan_step tr2 (fold_left scan_step tr1 m).
Proof. apply fold_left_app. Qed.

Lemma same_events_eq (a b : option (list event)) :
  same_events a b = true -> a = b.
Proof.
  destruct a as [x|], b as [y|]; simpl; try discriminate; auto.
  destruct (list_eq_dec event_eq_dec x y); [congruence|discriminate].
Qed.

Lemma linked_init : linked scan0 init.
Proof.
  split; [reflexivity|]. split; [intros _; split; reflexivity|].
  constructor.
Qed.

Lemma before_shutdown_preserved (s : state) (l : label) :
  before_shutdown s = true -> before_shutdown_step s l = true.
Proof.
  intro Hb.
  assert (H : implb (before_shutdown s) (before_shutdown_step s l) = true).
  { apply (by_enumeration
             (fun s l => implb (before_shutdown s) (before_shutdown_step s l))).
    vm_compute. reflexivity. }
  rewrite Hb in H. exact H.
Qed.

Lemma linked_step (m : scan) (s s' : state) (l : label) (ev : list event) :
  linked m s -> step l s = Some (s', ev) ->
  linked (fold_left scan_step ev m) s'.
Proof.
  intros (Hc & Hb & Hf) Hs.
  assert (Hc' : coherent s' = true) by (eapply coherent_preserved; eassumption).
  destruct (shutdown_seen m) eqn:Hsd.
  - (* after a shutdown only the finished calls matter, and each new one is
       recorded as after_shutdown *)
    assert (Hev : shutdown_seen (fold_left scan_step ev m) = true
                  /\ Forall exactly_one_cycle
                       (finished (fold_left scan_step ev m))).
    { clear Hs. revert m Hsd Hf Hb.
      induction ev as [|e ev IH]; intros m Hsd Hf Hb; simpl; [auto|].
      apply IH.
      - simpl. destruct e; auto.
      - simpl. destruct e; auto.
        destruct (current m); auto.
        apply Forall_app. split; [assumption|].
        constructor; [|constructor].
        unfold exactly_one_cycle. simpl. congruence.
      - simpl. destruct e; intro; congruence. }
    destruct Hev as [Hsd' Hf'].
    split; [assumption|]. split; [congruence|assumption].
  - destruct (Hb eq_refl) as [Hbs Hcur].
    pose proof (@before_shutdown_preserved s l Hbs) as Hstep.
    unfold before_shutdown_step in Hstep. rewrite Hs in Hstep.
    destruct ev as [|e [|e2 ev]]; [| |discriminate].
    + apply andb_prop in Hstep as [Hbs' Hexp]. apply same_events_eq in Hexp.
      simpl. split; [assumption|]. split; [|assumption].
      intros _. split; [assumption|congruence].
    + simpl. destruct (is_shutdown e) eqn:He.
      * destruct e; try discriminate. simpl.
        split; [assumption|]. split; [discriminate|assumption].
      * simpl in Hstep.
        apply andb_prop in Hstep as [Hstep Hret].
        apply andb_prop in Hstep as [Hbs' Hexp].
        apply same_events_eq in Hexp.
        split; [assumption|]. split.
        -- intros _. split; [assumption|]. simpl. rewrite Hcur. exact Hexp.
        -- simpl. destruct e; try assumption.
           simpl in Hret. apply same_events_eq in Hret.
           rewrite Hcur, Hret.
           apply Forall_app. split; [assumption|].
           constructor; [|constructor]. intros _. reflexivity.
Qed.

Lemma linked_run (sched : list label) :
  forall m s s' tr,
    linked m s -> run sched s = Some (s', tr) ->
    linked (fold_left scan_step tr m) s'.
Proof.
  induction sched as [|l rest IH]; intros m s s' tr Hl Hr; simpl in Hr.
  - injection Hr as <- <-. exact Hl.
  - destruct (step l s) as [[s1 ev]|] eqn:Hs; [|discriminate].
    destruct (run rest s1) as [[s2 evs]|] eqn:Hr1; [|discriminate].
    injection Hr as <- <-.
    rewrite fold_scan_app. eapply IH; [|exact Hr1].
    eapply linked_step; eassumption.
Qed.


Lemma proceeding_preserved (s : state) (l : label) :
  coherent s = true -> renderStallState s = WorkerIsProceeding ->
  proceeding_step s l = true.
Proof.
  intros Hc Hw.
  assert (H : implb (coherent s && is_stall WorkerIsProceeding s)
                (proceeding_step s l) = true).
  { apply (by_enumeration
             (fun s l => implb (coherent s && is_stall WorkerIsProceeding s)
                           (proceeding_step s l))).
    vm_compute. reflexivity. }
  rewrite Hc in H. unfold is_stall in H. rewrite Hw in H. exact H.
Qed.

Lemma proceeding_worker_runs (s : state) :
  coherent s = true -> renderStallState s = WorkerIsProceeding ->
  can_step Worker s = true /\ mutex s = Some Worker.
Proof.
  intros Hc Hw.
  assert (H : implb (coherent s && is_stall WorkerIsProceeding s)
                (can_step Worker s
                 && match mutex s with Some Worker => true | _ => false end)
              = true).
  { apply (by_enumeration_states
             (fun s => implb (coherent s && is_stall WorkerIsProceeding s)
                (can_step Worker s
                 && match mutex s with Some Worker => true | _ => false end))).
    vm_compute. reflexivity. }
  rewrite Hc in H. unfold is_stall in H. rewrite Hw in H. simpl in H.
  apply andb_prop in H as [H1 H2]. split; [exact H1|].
  destruct (mutex s) as [[]|]; congruence.
Qed.

(** *** Every call returns *)

Lemma undisturbed_init : undisturbed init = true.
Proof. reflexivity. Qed.

Lemma rank_decreases (s s' : state) (l : label) (ev : list event) :
  undisturbed s = true -> thread_label l = true ->
  step l s = Some (s', ev) ->
  undisturbed s' = true
  /\ (is_idle s = false ->
      (is_idle s' = true /\ In CallReturn ev)
      \/ (is_idle s' = false /\ rank s' < rank s)).
Proof.
  intros Hu Hl Hs.
  assert (H : (if undisturbed s then rank_step s l else true) = true).
  { apply (by_enumeration
             (fun s l => if undisturbed s then rank_step s l else true)).
    vm_compute. reflexivity. }
  rewrite Hu in H. unfold rank_step in H.
  rewrite Hs, Hl in H. simpl in H.
  apply andb_prop in H as [Hu' H]. split; [exact Hu'|].
  intro Hi. rewrite Hi in H. simpl in H.
  destruct (is_idle s') eqn:Hi'.
  - left. split; [reflexivity|].
    apply existsb_exists in H as (e & He & Hr).
    destruct e; try discriminate. exact He.
  - right. split; [reflexivity|].
    apply andb_prop in H as [H _]. apply Nat.ltb_lt in H. exact H.
Qed.

Lemma rank_positive (s : state) :
  undisturbed s = true -> is_idle s = false -> 0 < rank s.
Proof.
  intros Hu Hi.
  assert (H : (if undisturbed s && negb (is_idle s) then 0 <? rank s else true)
              = true).
  { apply (by_enumeration_states
             (fun s => if undisturbed s && negb (is_idle s)
                       then 0 <? rank s else true)).
    vm_compute. reflexivity. }
  rewrite Hu, Hi in H. simpl in H. apply Nat.ltb_lt in H. exact H.
Qed.

(** Any run of thread steps that starts inside a call and is at least
    [rank] steps long sees the call return. *)
Lemma call_returns_within (sched : list label) :
  forall s s' tr,
    undisturbed s = true -> is_idle s = false ->
    forallb thread_label sched = true ->
    run sched s = Some (s', tr) ->
    rank s <= length sched ->
    In CallReturn tr.
Proof.
  induction sched as [|l rest IH]; intros s s' tr Hu Hi Hl Hr Hlen.
  - simpl in Hlen.
    pose proof (rank_positive s Hu Hi). lia.
  - simpl in Hl. apply andb_prop in Hl as [Hl Hrest].
    simpl in Hr.
    destruct (step l s) as [[s1 ev]|] eqn:Hs; [|discriminate].
    destruct (run rest s1) as [[s2 evs]|] eqn:Hr1; [|discriminate].
    injection Hr as <- <-.
    destruct (rank_decreases s l Hu Hl Hs) as [Hu1 Hd].
    apply in_or_app.
    destruct (Hd Hi) as [[_ Hin]|[Hi1 Hlt]]; [left; exact Hin|].
    right. eapply IH; try eassumption. simpl in Hlen. lia.
Qed.

(** And such a run exists: some thread can always move. *)
Lemma call_can_return (n : nat) :
  forall s,
    undisturbed s = true -> is_idle s = false -> rank s <= n ->
    exists sched s' tr,
      forallb thread_label sched = true
      /\ run sched s = Some (s', tr)
      /\ is_idle s' = true
      /\ In CallReturn tr.
Proof.
  induction n as [|n IH]; intros s Hu Hi Hn.
  - pose proof (rank_positive s Hu Hi). lia.
  - assert (Hp : can_step Qt s || can_step Worker s = true).
    { assert (H : implb (undisturbed s)
                    (can_step Qt s || can_step Worker s) = true).
      { apply (by_enumeration_states
                 (fun s => implb (undisturbed s)
                             (can_step Qt s || can_step Worker s))).
        vm_compute. reflexivity. }
      rewrite Hu in H. exact H. }
    assert (Hl : exists l s1 ev,
               thread_label l = true /\ step l s = Some (s1, ev)).
    { apply orb_prop in Hp as [Hp|Hp]; unfold can_step in Hp.
      - destruct (step (Run Qt Qt) s) as [[s1 ev]|] eqn:Hs; [|discriminate].
        exists (Run Qt Qt), s1, ev. auto.
      - destruct (step (Run Worker Qt) s) as [[s1 ev]|] eqn:Hs;
          [|discriminate].
        exists (Run Worker Qt), s1, ev. auto. }
    destruct Hl as (l & s1 & ev & Hl & Hs).
    destruct (rank_decreases s l Hu Hl Hs) as [Hu1 Hd].
    destruct (Hd Hi) as [[Hi1 Hin]|[Hi1 Hlt]].
    + exists [l], s1, ev. simpl. rewrite Hl, Hs, app_nil_r. auto.
    + destruct (IH s1 Hu1 Hi1 ltac:(lia)) as (sched & s' & tr & A & B & C & D).
      exists (l :: sched), s', (ev ++ tr). simpl.
      rewrite Hl, A, Hs, B. repeat split; auto.
      apply in_or_app. right. exact D.
Qed.

Lemma undisturbed_run (sched : list label) :
  forall s s' tr,
    undisturbed s = true -> forallb no_gui sched = true ->
    run sched s = Some (s', tr) -> undisturbed s' = true.
Proof.
  induction sched as [|l rest IH]; intros s s' tr Hu Hl Hr; simpl in Hr.
  - injection Hr as <- _. exact Hu.
  - simpl in Hl. apply andb_prop in Hl as [Hl Hrest].
    destruct (step l s) as [[s1 ev]|] eqn:Hs; [|discriminate].
    destruct (run rest s1) as [[s2 evs]|] eqn:Hr1; [|discriminate].
    injection Hr as <- _.
    eapply IH; [|exact Hrest|exact Hr1].
    assert (H : implb (undisturbed s) (undisturbed_step s l) = true).
    { apply (by_enumeration
               (fun s l => implb (undisturbed s) (undisturbed_step s l))).
      vm_compute. reflexivity. }
    rewrite Hu in H. simpl in H. unfold undisturbed_step in H.
    rewrite Hs, Hl in H. exact H.
Qed.

(** Without [Shutdown], a call of [WaitForWorkerThread] that has begun
    always returns. *)
Lemma every_call_returns (sched : list label) (s : state) (tr : list event) :
  forallb no_gui sched = true ->
  run sched init = Some (s, tr) ->
  is_idle s = false ->
  call_completes s.
Proof.
  intros Hl Hr Hi.
  pose proof (undisturbed_run sched init undisturbed_init Hl Hr) as Hu.
  split.
  - apply (call_can_return (n := rank s)); auto.
  - intros more s' tr' Hm Hrun Hlen.
    eapply call_returns_within; eassumption.
Qed.

Lemma undisturbed_gui_has_no_mutex (s : state) :
  undisturbed s = true -> mutex s <> Some Gui.
Proof.
  intro Hu.
  assert (H : implb (undisturbed s)
                (match mutex s with Some Gui => false | _ => true end) = true).
  { apply (by_enumeration_states
             (fun s => implb (undisturbed s)
                (match mutex s with Some Gui => false | _ => true end))).
    vm_compute. reflexivity. }
  rewrite Hu in H. simpl in H. intro Hm. rewrite Hm in H. discriminate.
Qed.

(** *** The claims about the hand-off *)

(** C1. Take any run of the hand-off from its initial state
    [QtCanProceed]: the Qt thread calling [WaitForWorkerThread] again and
    again, the worker looping through block, frame and release, scheduled
    in any order, with spurious wake-ups. The two threads are never both
    blocked, and a call that has begun returns. With [Shutdown] racing
    they are both blocked only while the GUI thread holds the mutex inside
    [Shutdown], and then it can move. They never both sleep on the
    condition variable. And every call of [WaitForWorkerThread] that
    returned before [Shutdown] wrote [ShuttingDown] spans exactly one
    worker cycle: block call left, frame rendered, release. *)
Theorem handoff_never_deadlocks_and_spans_one_cycle
  (sched : list label) (s : state) (tr : list event) :
  run sched init = Some (s, tr) ->
  (forallb no_gui sched = true ->
   never_both_blocked s /\ (is_idle s = false -> call_completes s))
  /\ (blocked Qt s -> blocked Worker s ->
      mutex s = Some Gui /\ ~ blocked Gui s)
  /\ qt_sleeps s && worker_sleeps s = false
  /\ Forall exactly_one_cycle (calls tr).
Proof.
  intro Hr.
  pose proof (linked_run sched linked_init Hr) as (Hc & _ & Hf).
  assert (Hb : blocked Qt s -> blocked Worker s ->
               mutex s = Some Gui /\ ~ blocked Gui s).
  { intros Hq Hw.
    pose proof (coherent_progress s Hc) as Hp. unfold progress_ok in Hp.
    pose proof (proj2 (can_step_spec Qt Qt s) (Hq Qt)) as Hq'.
    pose proof (proj2 (can_step_spec Worker Qt s) (Hw Qt)) as Hw'.
    destruct (mutex s) as [[]|]; try (rewrite Hq', Hw' in Hp; discriminate).
    split; [reflexivity|].
    intro Hg. pose proof (proj2 (can_step_spec Gui Qt s) (Hg Qt)).
    congruence. }
  split; [|split; [exact Hb|split]].
  - intro Hl. split.
    + intros [Hq Hw]. destruct (Hb Hq Hw) as [Hm _].
      apply (@undisturbed_gui_has_no_mutex s); [|exact Hm].
      exact (undisturbed_run sched init undisturbed_init Hl Hr).
    + intro Hi. exact (every_call_returns sched Hl Hr Hi).
  - apply coherent_not_both_asleep. exact Hc.
  - exact Hf.
Qed.

Lemma handoff_two_calls_witness :
  run two_calls init = Some (two_calls_end, two_calls_trace)
  /\ calls two_calls_trace = [mkCall false one_cycle; mkCall false one_cycle]
  /\ (forallb no_gui two_calls = true ->
      never_both_blocked two_calls_end
      /\ (is_idle two_calls_end = false -> call_completes two_calls_end))
  /\ (blocked Qt two_calls_end -> blocked Worker two_calls_end ->
      mutex two_calls_end = Some Gui /\ ~ blocked Gui two_calls_end)
  /\ qt_sleeps two_calls_end && worker_sleeps two_calls_end = false
  /\ Forall exactly_one_cycle (calls two_calls_trace).
Proof.
  split; [reflexivity|]. split; [reflexivity|].
  apply (handoff_never_deadlocks_and_spans_one_cycle two_calls).
  reflexivity.
Defined.

(** Why calls after [Shutdown] are set apart: [Shutdown] can end a call in
    which the worker has not run at all. *)
Example shutdown_ends_a_call_without_a_cycle :
  run shutdown_cuts_call_short init
    = Some (mkState ShuttingDown None QIdle WWoken GIdle,
            [CallBegin; Shutdown; CallReturn])
  /\ calls [CallBegin; Shutdown; CallReturn] = [mkCall true []].
Proof. split; reflexivity. Qed.

(** C2, as the code has it. When [Shutdown] has written [ShuttingDown] while
    the worker sleeps in the wait of [WaitForQtThreadAndBlock], the
    notification of [Shutdown] wakes the worker, its predicate holds, and
    the call does not return early: it writes [WorkerIsProceeding] and
    [Render] goes on with the frame. *)
Theorem shutdown_wakes_worker_which_proceeds (s : state) (p : thread) :
  renderStallState s = ShuttingDown ->
  wpc s = WSleep -> qt_sleeps s = false ->
  gpc s = GNotify -> mutex s = None ->
  exists s1 s2,
    run [Run Gui p; Run Worker p; Run Worker p; Run Worker p] s
      = Some (s1, [Proceed])
    /\ renderStallState s1 = WorkerIsProceeding
    /\ wpc s1 = WRender
    /\ run [Run Worker p] s1 = Some (s2, [Render]).
Proof.
  destruct s as [st m q w g]. simpl. intros -> -> Hq -> ->.
  destruct q; try discriminate Hq;
    (eexists; eexists; repeat split; reflexivity).
Qed.

Lemma shutdown_wakes_worker_witness :
  renderStallState asleep_at_shutdown = ShuttingDown
  /\ exists s1 s2,
       run [Run Gui Gui; Run Worker Gui; Run Worker Gui; Run Worker Gui]
         asleep_at_shutdown = Some (s1, [Proceed])
       /\ renderStallState s1 = WorkerIsProceeding
       /\ wpc s1 = WRender
       /\ run [Run Worker Gui] s1 = Some (s2, [Render]).
Proof.
  split; [reflexivity|].
  apply (@shutdown_wakes_worker_which_proceeds asleep_at_shutdown Gui);
    reflexivity.
Defined.

(** C2 as stated fails: the worker goes to sleep in its block call,
    [Shutdown] runs, and the worker then writes [WorkerIsProceeding] and
    renders. *)
Lemma shutdown_while_blocked_still_renders :
  run worker_blocks init
    = Some (mkState QtCanProceed None QIdle WSleep GIdle, [])
  /\ run (worker_blocks ++ shutdown_call) init
     = Some (mkState ShuttingDown None QIdle WWoken GIdle, [Shutdown])
  /\ run (worker_blocks ++ shutdown_call ++ worker_resumes) init
     = Some (mkState WorkerIsProceeding (Some Worker) QIdle WRelease GIdle,
             [Shutdown; Proceed; Render]).
Proof. repeat split; reflexivity. Qed.

(** C3, as the code has it. In a reachable state with
    [renderStallState = WorkerIsProceeding]: a [Shutdown] that has been
    called waits for the mutex; the worker holds it and can move; no step
    leaves [WorkerIsProceeding] except the worker's release, which writes
    [QtCanProceed]. And a worker that tests its predicate under
    [ShuttingDown] does not sleep and does not return early: it writes
    [WorkerIsProceeding] again. *)
Theorem shutdown_mid_cycle_waits_then_worker_proceeds
  (sched : list label) (s : state) (tr : list event) :
  run sched init = Some (s, tr) ->
  renderStallState s = WorkerIsProceeding ->
  (forall p, gpc s = GLock -> step (Run Gui p) s = None)
  /\ ~ blocked Worker s
  /\ (forall l s' ev,
        step l s = Some (s', ev) ->
        (renderStallState s' = WorkerIsProceeding /\ ~ In Shutdown ev)
        \/ (renderStallState s' = QtCanProceed /\ ev = [Release]))
  /\ (forall s2 p,
        renderStallState s2 = ShuttingDown -> wpc s2 = WWait ->
        run [Run Worker p; Run Worker p] s2
        = Some (set_wpc WRender (set_stall WorkerIsProceeding s2), [Proceed])).
Proof.
  intros Hr Hw.
  pose proof (coherent_run sched init coherent_init Hr) as Hc.
  destruct (proceeding_worker_runs s Hc Hw) as [Hcan Hm].
  repeat split.
  - intros p Hg. unfold step, gui_step, acquire. rewrite Hg, Hm. reflexivity.
  - intro Hb. pose proof (proj2 (can_step_spec Worker Qt s) (Hb Qt)).
    congruence.
  - intros l s' ev Hs.
    pose proof (proceeding_preserved s l Hc Hw) as H.
    unfold proceeding_step in H. rewrite Hs in H.
    apply orb_prop in H as [H|H]; apply andb_prop in H as [H1 H2].
    + left. split.
      * unfold is_stall in H1. destruct (renderStallState s'); congruence.
      * intro Hin. apply negb_true_iff in H2.
        assert (existsb is_shutdown ev = true); [|congruence].
        apply existsb_exists. exists Shutdown. auto.
    + right. split.
      * unfold is_stall in H1. destruct (renderStallState s'); congruence.
      * destruct l as [[] ?|]; try discriminate.
        destruct ev as [|[] [|]]; try discriminate. reflexivity.
  - intros s2 p Hsd Hwait. destruct s2 as [st m q w g]. simpl in *.
    subst. reflexivity.
Qed.

Lemma shutdown_mid_cycle_witness :
  run into_the_frame init = Some (mid_cycle, [CallBegin; Proceed])
  /\ (forall p, gpc mid_cycle = GLock -> step (Run Gui p) mid_cycle = None)
  /\ ~ blocked Worker mid_cycle
  /\ (forall l s' ev,
        step l mid_cycle = Some (s', ev) ->
        (renderStallState s' = WorkerIsProceeding /\ ~ In Shutdown ev)
        \/ (renderStallState s' = QtCanProceed /\ ev = [Release]))
  /\ (forall s2 p,
        renderStallState s2 = ShuttingDown -> wpc s2 = WWait ->
        run [Run Worker p; Run Worker p] s2
        = Some (set_wpc WRender (set_stall WorkerIsProceeding s2), [Proceed])).
Proof.
  split; [reflexivity|].
  apply (@shutdown_mid_cycle_waits_then_worker_proceeds into_the_frame
           mid_cycle [CallBegin; Proceed]); reflexivity.
Defined.

(** C3 as stated fails: [Shutdown] is called while the worker is in its
    frame and has to wait; the worker releases with [QtCanProceed];
    [Shutdown] writes [ShuttingDown]; the worker's next block call then
    writes [WorkerIsProceeding] and a second cycle starts. *)
Lemma shutdown_mid_cycle_next_call_proceeds :
  run into_the_frame init = Some (mid_cycle, [CallBegin; Proceed])
  /\ run [runG; runG] mid_cycle = None
  /\ run [runG; runW; runW; runW] mid_cycle
     = Some (mkState QtCanProceed None QRelock WNotify GLock,
             [Render; Release])
  /\ run [runG; runW; runW; runW; runG; runG; runG; runG] mid_cycle
     = Some (mkState ShuttingDown None QRelock WNotify GIdle,
             [Render; Release; Shutdown])
  /\ run shutdown_mid_cycle mid_cycle
     = Some (mkState WorkerIsProceeding (Some Worker) QRelock WRender GIdle,
             [Render; Release; Shutdown; Proceed]).
Proof. repeat split; reflexivity. Qed.

(** *** More about the hand-off: who runs when, the order of events *)

Lemma scan_shutdown_seen (tr : list event) :
  forall m,
    shutdown_seen (fold_left scan_step tr m)
    = shutdown_seen m || existsb is_shutdown tr.
Proof.
  induction tr as [|e tr IH]; intro m; simpl.
  - rewrite orb_false_r. reflexivity.
  - rewrite IH. simpl. destruct e; simpl;
      rewrite ?orb_true_r, ?orb_false_r; reflexivity.
Qed.

Lemma before_shutdown_run
  (sched : list label) (s : state) (tr : list event) :
  run sched init = Some (s, tr) ->
  existsb is_shutdown tr = false ->
  before_shutdown s = true.
Proof.
  intros Hr Hn.
  pose proof (linked_run sched linked_init Hr) as (_ & Hb & _).
  apply Hb. rewrite scan_shutdown_seen, Hn. reflexivity.
Qed.

Lemma before_shutdown_documented (s : state) :
  before_shutdown s = true -> documented s = true.
Proof.
  intro Hb.
  assert (H : implb (before_shutdown s) (documented s) = true).
  { apply (by_enumeration_states
             (fun s => implb (before_shutdown s) (documented s))).
    vm_compute. reflexivity. }
  rewrite Hb in H. exact H.
Qed.

(** X1. Until [Shutdown] writes, the state is what the comments of
    [RenderStallState] say: on [WorkerCanProceed] and [WorkerIsProceeding]
    the Qt thread is inside [WaitForWorkerThread], between its hand-off and
    its return; the worker is in its frame exactly on
    [WorkerIsProceeding]. So the frame never runs while the Qt thread is
    outside [WaitForWorkerThread]. *)
Theorem frame_runs_only_inside_the_call
  (sched : list label) (s : state) (tr : list event) :
  run sched init = Some (s, tr) ->
  existsb is_shutdown tr = false ->
  (renderStallState s = WorkerCanProceed ->
   qt_handed_off s = true /\ in_cycle s = false)
  /\ (renderStallState s = WorkerIsProceeding ->
      qt_handed_off s = true /\ in_cycle s = true)
  /\ (renderStallState s = QtCanProceed ->
      in_cycle s = false /\ wpc s <> WSet)
  /\ renderStallState s <> ShuttingDown
  /\ (in_cycle s = true -> qt_handed_off s = true)
  /\ (is_idle s = true -> in_cycle s = false).
Proof.
  intros Hr Hn.
  pose proof (@before_shutdown_documented s
                (@before_shutdown_run sched s tr Hr Hn)) as Hd.
  unfold documented in Hd.
  destruct s as [st m q w g]; cbn in *.
  destruct st; try discriminate Hd;
    repeat split; try discriminate; intros;
    try (apply andb_prop in Hd as [A B]);
    try (apply negb_true_iff in A); try (apply negb_true_iff in B);
    try assumption; try congruence.
  all: destruct q, w; cbn in *; congruence.
Qed.

Lemma frame_inside_call_witness :
  run into_the_frame init = Some (mid_cycle, [CallBegin; Proceed])
  /\ (renderStallState mid_cycle = WorkerCanProceed ->
      qt_handed_off mid_cycle = true /\ in_cycle mid_cycle = false)
  /\ (renderStallState mid_cycle = WorkerIsProceeding ->
      qt_handed_off mid_cycle = true /\ in_cycle mid_cycle = true)
  /\ (renderStallState mid_cycle = QtCanProceed ->
      in_cycle mid_cycle = false /\ wpc mid_cycle <> WSet)
  /\ renderStallState mid_cycle <> ShuttingDown
  /\ (in_cycle mid_cycle = true -> qt_handed_off mid_cycle = true)
  /\ (is_idle mid_cycle = true -> in_cycle mid_cycle = false).
Proof.
  split; [reflexivity|].
  apply (@frame_runs_only_inside_the_call into_the_frame mid_cycle
           [CallBegin; Proceed]); reflexivity.
Defined.

(** After [Shutdown] this is no longer so: the worker is in its frame
    while the Qt thread is outside [WaitForWorkerThread]. *)
Example frame_overlaps_after_shutdown :
  run frame_after_shutdown init
    = Some (mkState WorkerIsProceeding (Some Worker) QIdle WRender GIdle,
            [Shutdown; Proceed]).
Proof. reflexivity. Qed.

Lemma follows_app (a b : list event) :
  forall p,
    follows p (a ++ b)
    = match follows p a with
      | Some q => follows q b
      | None => None
      end.
Proof.
  induction a as [|e a IH]; intro p; cbn [app follows]; [reflexivity|].
  destruct (event_beq e (nth p handoff_cycle CallBegin)); [apply IH|reflexivity].
Qed.

Lemma cycle_preserved (s : state) (l : label) :
  before_shutdown s = true -> cycle_step s l = true.
Proof.
  intro Hb.
  assert (H : implb (before_shutdown s) (cycle_step s l) = true).
  { apply (by_enumeration
             (fun s l => implb (before_shutdown s) (cycle_step s l))).
    vm_compute. reflexivity. }
  rewrite Hb in H. exact H.
Qed.

Lemma cycle_run (sched : list label) :
  forall s s' tr,
    before_shutdown s = true ->
    run sched s = Some (s', tr) ->
    existsb is_shutdown tr = false ->
    follows (position s) tr = Some (position s').
Proof.
  induction sched as [|l rest IH]; intros s s' tr Hb Hr Hn; simpl in Hr.
  - injection Hr as <- <-. reflexivity.
  - destruct (step l s) as [[s1 ev]|] eqn:Hs; [|discriminate].
    destruct (run rest s1) as [[s2 evs]|] eqn:Hr1; [|discriminate].
    injection Hr as <- <-.
    rewrite existsb_app in Hn. apply orb_false_elim in Hn as [Hn1 Hn2].
    pose proof (@cycle_preserved s l Hb) as Hc. unfold cycle_step in Hc.
    rewrite Hs, Hn1 in Hc. simpl in Hc.
    apply andb_prop in Hc as [Hb1 Hf].
    rewrite follows_app.
    destruct (follows (position s) ev) as [n|]; [|discriminate].
    apply Nat.eqb_eq in Hf. subst n.
    eapply IH; eassumption.
Qed.

(** On a trace that goes round the cycle, the frames rendered and the
    calls returned differ by the frame in flight. *)
Lemma follows_counts (tr : list event) :
  forall p q,
    p < 5 -> follows p tr = Some q ->
    frames tr + (if 3 <=? p then 1 else 0)
    = returns tr + (if 3 <=? q then 1 else 0)
    /\ q < 5.
Proof.
  induction tr as [|e tr IH]; intros p q Hp H; cbn [follows] in H.
  - injection H as <-. unfold frames, returns. simpl. auto.
  - destruct (event_beq e (nth p handoff_cycle CallBegin)) eqn:He;
      [|discriminate].
    assert (Hp' : p = 0 \/ p = 1 \/ p = 2 \/ p = 3 \/ p = 4) by lia.
    destruct Hp' as [-> | [-> | [-> | [-> | ->]]]];
      destruct e; try discriminate He;
      (apply IH in H; [|simpl; lia]);
      destruct H as [H Hq]; unfold frames, returns in *; simpl in *;
      split; lia.
Qed.

(** X2. Until [Shutdown] writes, the events of any run go round the cycle
    call begins, worker proceeds, frame, release, call returns, starting
    with a call: the worker does nothing outside a call of
    [WaitForWorkerThread], and the number of frames rendered is the number
    of calls returned, plus one while a rendered frame awaits the return
    of its call. *)
Theorem events_go_round_the_cycle
  (sched : list label) (s : state) (tr : list event) :
  run sched init = Some (s, tr) ->
  existsb is_shutdown tr = false ->
  follows 0 tr = Some (position s)
  /\ frames tr = returns tr + (if 3 <=? position s then 1 else 0).
Proof.
  intros Hr Hn.
  assert (Hf : follows 0 tr = Some (position s)).
  { change 0 with (position init).
    apply (@cycle_run sched init s tr); auto. }
  split; [exact Hf|].
  destruct (@follows_counts tr 0 (position s)) as [H _]; [lia|exact Hf|].
  change (3 <=? 0) with false in H. cbv iota in H.
  destruct (3 <=? position s); lia.
Qed.

Lemma events_two_calls_witness :
  run two_calls init = Some (two_calls_end, two_calls_trace)
  /\ follows 0 two_calls_trace = Some (position two_calls_end)
  /\ frames two_calls_trace
     = returns two_calls_trace
       + (if 3 <=? position two_calls_end then 1 else 0).
Proof.
  split; [reflexivity|].
  apply (@events_go_round_the_cycle two_calls two_calls_end two_calls_trace);
    reflexivity.
Defined.

(** *** The worker on its own *)

Lemma alone_preserved (s : state) (l : label) :
  coherent s = true -> nobody_else s = true -> alone_step s l = true.
Proof.
  intros Hc Hn.
  assert (H : implb (coherent s && nobody_else s) (alone_step s l) = true).
  { apply (by_enumeration
             (fun s l => implb (coherent s && nobody_else s) (alone_step s l))).
    vm_compute. reflexivity. }
  rewrite Hc, Hn in H. exact H.
Qed.

Lemma frames_app (a b : list event) : frames (a ++ b) = frames a + frames b.
Proof. unfold frames. rewrite filter_app, length_app. reflexivity. Qed.

Lemma alone_run (ws : list label) :
  forall s s' tr,
    coherent s = true -> nobody_else s = true ->
    forallb worker_label ws = true ->
    run ws s = Some (s', tr) ->
    frames_ahead s' + frames tr <= frames_ahead s /\ nobody_else s' = true.
Proof.
  induction ws as [|l rest IH]; intros s s' tr Hc Hn Hl Hr; simpl in Hr.
  - injection Hr as <- <-. unfold frames. simpl. split; [lia|exact Hn].
  - simpl in Hl. apply andb_prop in Hl as [Hl Hrest].
    destruct (step l s) as [[s1 ev]|] eqn:Hs; [|discriminate].
    destruct (run rest s1) as [[s2 evs]|] eqn:Hr1; [|discriminate].
    injection Hr as <- <-.
    pose proof (@alone_preserved s l Hc Hn) as Ha. unfold alone_step in Ha.
    rewrite Hs, Hl in Ha. simpl in Ha.
    apply andb_prop in Ha as [Hn1 Hle]. apply Nat.leb_le in Hle.
    pose proof (coherent_preserved s l Hc Hs) as Hc1.
    destruct (IH s1 s2 evs Hc1 Hn1 Hrest Hr1) as [Hle2 Hn2].
    rewrite frames_app. split; [lia|exact Hn2].
Qed.

(** X3. Whatever happened before, [Shutdown] included: once the Qt thread is
    outside [WaitForWorkerThread] and [Shutdown] is not running, the worker
    on its own renders at most one more frame; and none if [Shutdown] has
    never written. [ShuttingDown] does not let the worker run freely: the
    frame it allows overwrites it. *)
Theorem worker_alone_renders_at_most_one_frame
  (sched ws : list label) (s s' : state) (tr tr' : list event) :
  run sched init = Some (s, tr) ->
  nobody_else s = true ->
  forallb worker_label ws = true ->
  run ws s = Some (s', tr') ->
  frames tr' <= 1
  /\ (existsb is_shutdown tr = false -> frames tr' = 0).
Proof.
  intros Hr Hn Hl Hw.
  pose proof (coherent_run sched init coherent_init Hr) as Hc.
  destruct (@alone_run ws s s' tr' Hc Hn Hl Hw) as [Hle _].
  split.
  - assert (frames_ahead s <= 1);
      [unfold frames_ahead;
       destruct (wpc s), (worker_may_go (renderStallState s)); lia|lia].
  - intro Hno.
    pose proof (@before_shutdown_run sched s tr Hr Hno) as Hb.
    assert (H : implb (before_shutdown s && nobody_else s)
                  (frames_ahead s =? 0) = true).
    { apply (by_enumeration_states
               (fun s => implb (before_shutdown s && nobody_else s)
                           (frames_ahead s =? 0))).
      vm_compute. reflexivity. }
    rewrite Hb, Hn in H. simpl in H. apply Nat.eqb_eq in H. lia.
Qed.

Lemma worker_alone_witness :
  run (worker_blocks ++ shutdown_call) init
    = Some (mkState ShuttingDown None QIdle WWoken GIdle, [Shutdown])
  /\ run [runW; runW; runW; runW; runW; runW; runW; runW; runW]
       (mkState ShuttingDown None QIdle WWoken GIdle)
     = Some (asleep_for_good, [Proceed; Render; Release])
  /\ frames [Proceed; Render; Release] <= 1
  /\ (existsb is_shutdown [Shutdown] = false ->
      frames [Proceed; Render; Release] = 0).
Proof.
  split; [reflexivity|]. split; [reflexivity|].
  apply (@worker_alone_renders_at_most_one_frame
           (worker_blocks ++ shutdown_call)
           [runW; runW; runW; runW; runW; runW; runW; runW; runW]
           (mkState ShuttingDown None QIdle WWoken GIdle)
           asleep_for_good [Shutdown] [Proceed; Render; Release]);
    reflexivity.
Defined.

(** *** [Shutdown] gets through *)

(** X4. Wherever the hand-off stands, a call of [Shutdown] can be completed in
    at most ten steps: nobody sleeps or waits while holding the mutex, so
    the holder lets go after a few steps of its own, and [Shutdown] then
    writes [ShuttingDown] and returns. *)
Theorem shutdown_can_always_complete
  (sched : list label) (s : state) (tr : list event) :
  run sched init = Some (s, tr) ->
  exists s' tr',
    run (drive 10 s) s = Some (s', tr')
    /\ length (drive 10 s) <= 10
    /\ gpc s' = GIdle
    /\ (gpc s = GLock \/ gpc s = GSet -> In Shutdown tr').
Proof.
  intro Hr.
  pose proof (coherent_run sched init coherent_init Hr) as Hc.
  assert (H : implb (coherent s) (drive_ok s && (length (drive 10 s) <=? 10))
              = true).
  { apply (by_enumeration_states
             (fun s => implb (coherent s)
                         (drive_ok s && (length (drive 10 s) <=? 10)))).
    vm_compute. reflexivity. }
  rewrite Hc in H. simpl in H. apply andb_prop in H as [Hd Hlen].
  unfold drive_ok in Hd.
  destruct (run (drive 10 s) s) as [[s' tr']|]; [|discriminate].
  apply andb_prop in Hd as [Hi Hw].
  exists s', tr'. split; [reflexivity|].
  split; [apply Nat.leb_le; exact Hlen|].
  split; [unfold gui_idle in Hi; destruct (gpc s'); congruence|].
  intros Hg. unfold gui_idle, shutdown_written in Hw.
  destruct Hg as [Hg|Hg]; rewrite Hg in Hw; simpl in Hw;
    apply existsb_exists in Hw as (e & He & Hs);
    destruct e; try discriminate; exact He.
Qed.

Lemma shutdown_completes_witness :
  run (into_the_frame ++ [runG]) init
    = Some (mkState WorkerIsProceeding (Some Worker) QRelock WRender GLock,
            [CallBegin; Proceed])
  /\ exists s' tr',
       run (drive 10
              (mkState WorkerIsProceeding (Some Worker) QRelock WRender GLock))
         (mkState WorkerIsProceeding (Some Worker) QRelock WRender GLock)
       = Some (s', tr')
       /\ length
            (drive 10
               (mkState WorkerIsProceeding (Some Worker) QRelock WRender GLock))
          <= 10
       /\ gpc s' = GIdle
       /\ (gpc (mkState WorkerIsProceeding (Some Worker) QRelock WRender GLock)
           = GLock
           \/ gpc (mkState WorkerIsProceeding (Some Worker) QRelock WRender
                     GLock) = GSet ->
           In Shutdown tr').
Proof.
  split; [reflexivity|].
  apply (@shutdown_can_always_complete (into_the_frame ++ [runG])
           (mkState WorkerIsProceeding (Some Worker) QRelock WRender GLock)
           [CallBegin; Proceed]).
  reflexivity.
Defined.

End RenderSyncTheory.

(** ** The renderer: input dispatch, the frame, sizes, the texture node *)

Module SceneTheory.
Import Scene.

Local Open Scope Z_scope.

Section WithEngine.
Context {E : Engine}.

(** *** [ScreenToScene] in closed form *)

Lemma ScreenToScene_eq (p : Vector2i) (r : IgnRenderer) :
  ScreenToScene p r
  = Some (scene_point r p,
          with_dataPtr (set_rayQuery (aimed r p)) r, []).
Proof.
  unfold ScreenToScene, scene_point, aimed, bind, gets, modify, ret.
  destruct r as [ini tid tsz td ge [md hd dd me ke cam hp dp dt rq]].
  cbn. destruct (result_ok _); reflexivity.
Qed.

(** *** Each broadcast against its shadow *)

Lemma dispatched_app (l1 l2 : list event) :
  dispatched (l1 ++ l2) = dispatched l1 ++ dispatched l2.
Proof. apply flat_map_app. Qed.

Lemma simulates_bind (m1 m2 : M unit) (sh1 sh2 : shadow) :
  simulates m1 sh1 -> simulates m2 sh2 ->
  simulates (bind m1 (fun _ => m2)) (shadow_seq sh1 sh2).
Proof.
  intros H1 H2 r r' log u H. unfold bind in H.
  destruct (m1 r) as [[[u1 r1] l1]|] eqn:E1; [|discriminate].
  destruct (m2 r1) as [[[u2 r2] l2]|] eqn:E2; [|discriminate].
  injection H as <- <- <-.
  destruct (H1 _ _ _ _ E1) as [A1 P1]. destruct (H2 _ _ _ _ E2) as [A2 P2].
  unfold shadow_seq. rewrite <- A1, <- A2, dispatched_app. split; [reflexivity|].
  unfold same_public in *. intuition congruence.
Qed.

Ltac open_renderer r :=
  destruct r as [ini tid tsz td ge [md hd dd me ke cam hp dp dt rq]].

Ltac start_broadcast :=
  let r := fresh "r" in
  intros r ? ? ?; open_renderer r;
  unfold mouse_shadow, hover_shadow, drop_shadow, key_shadow, pending,
    same_public, bind, gets, modify, ret, sendEvent;
  cbn -[is_type is_button is_key_type ScreenToScene].

Ltac finish_broadcast :=
  cbn -[is_type is_button is_key_type ScreenToScene];
  rewrite ?ScreenToScene_eq;
  cbn -[is_type is_button is_key_type ScreenToScene];
  let H := fresh "H" in
  intro H; try discriminate H;
  inversion H; subst; cbn; repeat split; reflexivity.

Lemma BroadcastDrag_shadow :
  simulates BroadcastDrag (mouse_shadow Drag Dragging).
Proof.
  unfold BroadcastDrag. start_broadcast.
  destruct md, (Dragging me), getApp; finish_broadcast.
Qed.

Lemma BroadcastMousePress_shadow :
  simulates BroadcastMousePress (mouse_shadow GenericPress (is_type MousePress)).
Proof.
  unfold BroadcastMousePress. start_broadcast.
  destruct md, (is_type MousePress me), getApp; finish_broadcast.
Qed.

Lemma BroadcastScroll_shadow :
  simulates BroadcastScroll (mouse_shadow Scroll (is_type SCROLL)).
Proof.
  unfold BroadcastScroll. start_broadcast.
  destruct md, (is_type SCROLL me), getApp; finish_broadcast.
Qed.

Lemma BroadcastLeftClick_shadow :
  simulates BroadcastLeftClick
    (mouse_shadow LeftClick
       (fun m => is_button LEFT m && is_type MouseRelease m)).
Proof.
  unfold BroadcastLeftClick. start_broadcast.
  destruct md, (is_button LEFT me), (is_type MouseRelease me), getApp;
    finish_broadcast.
Qed.

Lemma BroadcastRightClick_shadow :
  simulates BroadcastRightClick
    (mouse_shadow RightClick
       (fun m => is_button RIGHT m && is_type MouseRelease m)).
Proof.
  unfold BroadcastRightClick. start_broadcast.
  destruct md, (is_button RIGHT me), (is_type MouseRelease me), getApp;
    finish_broadcast.
Qed.

Lemma BroadcastHoverPos_shadow : simulates BroadcastHoverPos hover_shadow.
Proof.
  unfold BroadcastHoverPos. start_broadcast.
  destruct hd, getApp; finish_broadcast.
Qed.

Lemma BroadcastDrop_shadow : simulates BroadcastDrop drop_shadow.
Proof.
  unfold BroadcastDrop. start_broadcast.
  destruct dd, getApp; finish_broadcast.
Qed.

Lemma BroadcastKeyPress_shadow :
  simulates BroadcastKeyPress (key_shadow KeyPress PRESS).
Proof.
  unfold BroadcastKeyPress. start_broadcast.
  destruct (is_key_type PRESS ke), getApp; finish_broadcast.
Qed.

Lemma BroadcastKeyRelease_shadow :
  simulates BroadcastKeyRelease (key_shadow KeyRelease RELEASE).
Proof.
  unfold BroadcastKeyRelease. start_broadcast.
  destruct (is_key_type RELEASE ke), getApp; finish_broadcast.
Qed.

Lemma clear_mouseDirty_shadow :
  simulates (modify (with_dataPtr (set_mouseDirty false)))
    (fun p => (clear_mouse p, [])).
Proof. start_broadcast. finish_broadcast. Qed.

Lemma HandleMouseEvent_simulated :
  simulates HandleMouseEvent HandleMouseEvent_shadow.
Proof.
  unfold HandleMouseEvent, HandleMouseEvent_shadow.
  repeat apply simulates_bind.
  - apply BroadcastHoverPos_shadow.
  - apply BroadcastDrag_shadow.
  - apply BroadcastMousePress_shadow.
  - apply BroadcastLeftClick_shadow.
  - apply BroadcastRightClick_shadow.
  - apply BroadcastScroll_shadow.
  - apply BroadcastKeyPress_shadow.
  - apply BroadcastKeyRelease_shadow.
  - apply BroadcastDrop_shadow.
  - apply clear_mouseDirty_shadow.
Qed.

(** *** The dispatch table *)

Lemma shadow_is_table (p : Pending) :
  HandleMouseEvent_shadow p = (consumed p, dispatch_table p).
Proof.
  destruct p as [h m d [pos ppos drag ty bt c s a] [kt k kc ks ka]].
  destruct h, m, d, drag, ty, bt, kt; reflexivity.
Qed.

(** [HandleMouseEvent] dispatches what the table says and leaves every
    flag cleared and the key event without a type. *)
Lemma HandleMouseEvent_spec (r r' : IgnRenderer) (log : list event) (u : unit) :
  HandleMouseEvent r = Some (u, r', log) ->
  pending r' = consumed (pending r)
  /\ dispatched log = dispatch_table (pending r)
  /\ same_public r r'.
Proof.
  intro H. destruct (HandleMouseEvent_simulated _ H) as [A B].
  rewrite shadow_is_table in A.
  split; [exact (f_equal fst A)|]. split; [exact (f_equal snd A)|exact B].
Qed.

Lemma defined_bind (m1 m2 : M unit) :
  defined m1 -> defined m2 -> defined (bind m1 (fun _ => m2)).
Proof.
  intros H1 H2 r. destruct (H1 r) as (r1 & l1 & E1).
  destruct (H2 r1) as (r2 & l2 & E2).
  exists r2, (l1 ++ l2). unfold bind. rewrite E1, E2. reflexivity.
Qed.

(** With an application to send to, nothing in [HandleMouseEvent] is
    undefined. *)
Ltac defined_broadcast Happ :=
  let r := fresh "r" in
  intro r; open_renderer r;
  unfold bind, gets, modify, ret, sendEvent; rewrite Happ;
  cbn -[is_type is_button is_key_type ScreenToScene];
  repeat match goal with
         | |- context [if ?b then _ else _] =>
             destruct b; cbn -[is_type is_button is_key_type ScreenToScene]
         end;
  rewrite ?ScreenToScene_eq; cbn -[is_type is_button is_key_type ScreenToScene];
  eexists; eexists; reflexivity.

Lemma HandleMouseEvent_defined : getApp = true -> defined HandleMouseEvent.
Proof.
  intro Happ. unfold HandleMouseEvent.
  repeat apply defined_bind.
  - unfold BroadcastHoverPos. defined_broadcast Happ.
  - unfold BroadcastDrag. defined_broadcast Happ.
  - unfold BroadcastMousePress. defined_broadcast Happ.
  - unfold BroadcastLeftClick. defined_broadcast Happ.
  - unfold BroadcastRightClick. defined_broadcast Happ.
  - unfold BroadcastScroll. defined_broadcast Happ.
  - unfold BroadcastKeyPress. defined_broadcast Happ.
  - unfold BroadcastKeyRelease. defined_broadcast Happ.
  - unfold BroadcastDrop. defined_broadcast Happ.
  - intro r. eexists; eexists; reflexivity.
Qed.

Lemma table_once_gated_cleared (p : Pending) (c : category) :
  (times c (dispatch_table p) <= 1)%nat
  /\ (times c (dispatch_table p) = 1%nat ->
      gate c p = true /\ gate c (consumed p) = false).
Proof.
  destruct p as [h m d [pos ppos drag ty bt ct s a] [kt k kc ks ka]].
  destruct h, m, d, drag, ty, bt, kt, c; cbn; split;
    solve [ lia | intro; split; reflexivity | intro; discriminate ].
Qed.

Lemma table_one_mouse_path (p : Pending) :
  (length (filter is_mouse_category (dispatch_table p)) <= 1)%nat
  /\ (pMouse p = false \/ mouse_path (pMouseEvent p) = None ->
      filter is_mouse_category (dispatch_table p) = []).
Proof.
  destruct p as [h m d [pos ppos drag ty bt ct s a] [kt k kc ks ka]].
  destruct h, m, d, drag, ty, bt, kt; cbn; split;
    solve [ lia | reflexivity | intros [?|?]; discriminate ].
Qed.

Lemma table_no_key_after (p : Pending) :
  KeyType (pKeyEvent (consumed p)) = NO_EVENT.
Proof. destruct p as [h m d me [[] k kc ks ka]]; reflexivity. Qed.

Lemma table_key_needs_type (p : Pending) :
  KeyType (pKeyEvent p) = NO_EVENT ->
  times KeyPress (dispatch_table p) = 0%nat
  /\ times KeyRelease (dispatch_table p) = 0%nat.
Proof.
  destruct p as [h m d [pos ppos drag ty bt ct s a] [kt k kc ks ka]].
  cbn. intros ->.
  destruct h, m, d, drag, ty, bt; cbn; split; reflexivity.
Qed.

(** *** The frame *)

Lemma bind_inv {A B : Type} (m : M A) (f : A -> M B) (r r2 : IgnRenderer)
  (b : B) (l : list event) :
  bind m f r = Some (b, r2, l) ->
  exists a r1 l1 l2,
    m r = Some (a, r1, l1) /\ f a r1 = Some (b, r2, l2) /\ l = l1 ++ l2.
Proof.
  unfold bind. intro H.
  destruct (m r) as [[[a r1] l1]|]; [|discriminate].
  destruct (f a r1) as [[[b' r2'] l2]|] eqn:Ef; [|discriminate].
  injection H as <- <- <-. exists a, r1, l1, l2. auto.
Qed.

Lemma when_app_sendEvent (e : event) (r r' : IgnRenderer) (l : list event)
  (u : unit) :
  when getApp (sendEvent e) r = Some (u, r', l) ->
  r' = with_dataPtr (fun i => set_camera (app_handlers e (camera i)) i) r.
Proof.
  unfold when, sendEvent, ret, app_handlers.
  destruct getApp; intro H; injection H as _ <- _; [reflexivity|].
  destruct r as [ini tid tsz td ge [md hd dd me ke cam hp dp dt rq]].
  reflexivity.
Qed.

(** [Render] in stages: the resize block, the read of the texture id, the
    input, and only then the update of the camera between the two render
    events. *)
Lemma Render_stages (r r2 : IgnRenderer) (evs : list event) (u : unit) :
  Render r = Some (u, r2, evs) ->
  exists r1 r3 l3 u3,
    after_resize r = Some r1
    /\ HandleMouseEvent
         (set_textureId (RenderTextureGLId (camera (dataPtr r1))) r1)
       = Some (u3, r3, l3)
    /\ textureId r2 = RenderTextureGLId (camera (dataPtr r1))
    /\ textureSize r2 = textureSize r1
    /\ camera (dataPtr r2)
       = app_handlers RenderEvent
           (Update (app_handlers PreRenderEvent (camera (dataPtr r3)))).
Proof.
  unfold Render. intro H.
  apply bind_inv in H as (dirty & r0 & l0 & l0' & H0 & H & _).
  unfold gets in H0. injection H0 as <- <- _.
  apply bind_inv in H as (u1 & r1 & l1 & l1' & H1 & H & _).
  apply bind_inv in H as (u2 & ra & l2 & l2' & H2 & H & _).
  unfold read_texture_id, modify in H2. injection H2 as _ <- _.
  apply bind_inv in H as (u3 & r3 & l3 & l3' & H3 & H & _).
  apply bind_inv in H as (u4 & r4 & l4 & l4' & H4 & H & _).
  apply bind_inv in H as (u5 & r5 & l5 & l5' & H5 & H6 & _).
  apply when_app_sendEvent in H4. apply when_app_sendEvent in H6.
  unfold update_camera, modify in H5. injection H5 as _ <- _.
  destruct (HandleMouseEvent_spec _ H3) as (_ & _ & P).
  exists r1, r3, l3, u3. unfold after_resize. rewrite H1.
  split; [reflexivity|]. split; [exact H3|].
  destruct P as (_ & Pid & Psz & _).
  subst r2 r4.
  destruct r3 as [ini tid tsz td ge [md hd dd me ke cam hp dp dt rq]].
  cbn in *. subst. repeat split; reflexivity.
Qed.

End WithEngine.

(** *** The claims about the input dispatch and the frame *)

(** Each broadcast on its own: when its test holds on entry it dispatches
    its category once and resets its gate before it returns; otherwise it
    returns at once with nothing sent and nothing changed. *)
Lemma broadcast_of_spec
  {E : Engine} (c : category) (r r' : IgnRenderer) (log : list event)
  (u : unit) :
  broadcast_of c r = Some (u, r', log) ->
  if fires c (pending r)
  then gate c (pending r) = true
       /\ dispatched log = [c]
       /\ pending r' = reset c (pending r)
       /\ gate c (pending r') = false
  else r' = r /\ log = [].
Proof.
  destruct r as [ini tid tsz td ge [md hd dd me ke cam hp dp dt rq]].
  destruct c; unfold broadcast_of, fires, gate, reset, pending;
    cbn -[is_type is_button is_key_type ScreenToScene
          BroadcastHoverPos BroadcastDrag BroadcastMousePress
          BroadcastLeftClick BroadcastRightClick BroadcastScroll
          BroadcastKeyPress BroadcastKeyRelease BroadcastDrop].
  - unfold BroadcastHoverPos, bind, gets, modify, ret, sendEvent.
    cbn -[ScreenToScene].
    destruct hd, getApp; cbn -[ScreenToScene];
      rewrite ?ScreenToScene_eq; cbn;
      intro H; try discriminate H; inversion H; subst; cbn;
      repeat split; reflexivity.
  - unfold BroadcastDrag, bind, gets, modify, ret, sendEvent. cbn.
    destruct md, (Dragging me), getApp; cbn;
      intro H; try discriminate H; inversion H; subst; cbn;
      repeat split; reflexivity.
  - unfold BroadcastMousePress, bind, gets, modify, ret, sendEvent.
    cbn -[is_type].
    destruct md, (is_type MousePress me), getApp; cbn -[is_type];
      intro H; try discriminate H; inversion H; subst; cbn;
      repeat split; reflexivity.
  - unfold BroadcastLeftClick, bind, gets, modify, ret, sendEvent.
    cbn -[is_type is_button ScreenToScene].
    destruct md, (is_button LEFT me), (is_type MouseRelease me), getApp;
      cbn -[is_type is_button ScreenToScene];
      rewrite ?ScreenToScene_eq; cbn;
      intro H; try discriminate H; inversion H; subst; cbn;
      repeat split; reflexivity.
  - unfold BroadcastRightClick, bind, gets, modify, ret, sendEvent.
    cbn -[is_type is_button ScreenToScene].
    destruct md, (is_button RIGHT me), (is_type MouseRelease me), getApp;
      cbn -[is_type is_button ScreenToScene];
      rewrite ?ScreenToScene_eq; cbn;
      intro H; try discriminate H; inversion H; subst; cbn;
      repeat split; reflexivity.
  - unfold BroadcastScroll, bind, gets, modify, ret, sendEvent.
    cbn -[is_type].
    destruct md, (is_type SCROLL me), getApp; cbn -[is_type];
      intro H; try discriminate H; inversion H; subst; cbn;
      repeat split; reflexivity.
  - unfold BroadcastKeyPress, bind, gets, modify, ret, sendEvent.
    cbn -[is_key_type].
    destruct (is_key_type PRESS ke) eqn:Hk, getApp; cbn -[is_key_type];
      intro H; try discriminate H; inversion H; subst; cbn;
      repeat split; try reflexivity; destruct ke; reflexivity.
  - unfold BroadcastKeyRelease, bind, gets, modify, ret, sendEvent.
    cbn -[is_key_type].
    destruct (is_key_type RELEASE ke) eqn:Hk, getApp; cbn -[is_key_type];
      intro H; try discriminate H; inversion H; subst; cbn;
      repeat split; try reflexivity; destruct ke; reflexivity.
  - unfold BroadcastDrop, bind, gets, modify, ret, sendEvent. cbn.
    destruct dd, getApp; cbn;
      intro H; try discriminate H; inversion H; subst; cbn;
      repeat split; reflexivity.
Qed.
(** C6, as the code has it. In one call of [HandleMouseEvent] every
    category is dispatched at most once, and a category that is dispatched
    had its gate set when the call began and has it clear when the call
    returns. The gate of hover and of drop is their own dirty flag; drag,
    press, left click, right click and scroll share the one [mouseDirty];
    the keys have no dirty flag, what gates them is the type of the stored
    key event. Every dispatch path resets the gate it consumed: the
    broadcast of a category, started in any state, dispatches its category
    once when its test holds and leaves its gate reset before it returns,
    and otherwise returns with nothing sent and nothing changed.
    [HandleMouseEvent] is the nine broadcasts in a row and a last
    [mouseDirty = false]. *)
Theorem HandleMouseEvent_dispatches_once_gated_cleared
  {E : Engine} (r r' : IgnRenderer) (log : list event) (u : unit)
  (c : category) :
  HandleMouseEvent r = Some (u, r', log) ->
  (times c (dispatched log) <= 1)%nat
  /\ (times c (dispatched log) = 1%nat ->
      gate c (pending r) = true /\ gate c (pending r') = false)
  /\ (forall r0 r1 l0 u0,
        broadcast_of c r0 = Some (u0, r1, l0) ->
        if fires c (pending r0)
        then gate c (pending r0) = true
             /\ dispatched l0 = [c]
             /\ pending r1 = reset c (pending r0)
             /\ gate c (pending r1) = false
        else r1 = r0 /\ l0 = [])
  /\ HandleMouseEvent
     = bind (broadcast_of Hover) (fun _ =>
       bind (broadcast_of Drag) (fun _ =>
       bind (broadcast_of GenericPress) (fun _ =>
       bind (broadcast_of LeftClick) (fun _ =>
       bind (broadcast_of RightClick) (fun _ =>
       bind (broadcast_of Scroll) (fun _ =>
       bind (broadcast_of KeyPress) (fun _ =>
       bind (broadcast_of KeyRelease) (fun _ =>
       bind (broadcast_of Drop) (fun _ =>
       modify (with_dataPtr (set_mouseDirty false))))))))))).
Proof.
  intro H. destruct (HandleMouseEvent_spec _ H) as (Hp & Hd & _).
  rewrite Hp, Hd.
  destruct (table_once_gated_cleared (pending r) c) as [A B].
  split; [exact A|]. split; [exact B|].
  split; [|reflexivity].
  intros r0 r1 l0 u0. apply broadcast_of_spec.
Qed.

Lemma HandleMouseEvent_busy_witness :
  exists r' log r1 l0,
    HandleMouseEvent busy_renderer = Some (tt, r', log)
    /\ dispatched log = [Hover; LeftClick; KeyPress; Drop]
    /\ (times LeftClick (dispatched log) <= 1)%nat
    /\ gate LeftClick (pending busy_renderer) = true
    /\ gate LeftClick (pending r') = false
    /\ BroadcastLeftClick busy_renderer = Some (tt, r1, l0)
    /\ dispatched l0 = [LeftClick]
    /\ mouseDirty (dataPtr r1) = false.
Proof.
  eexists. eexists. eexists. eexists.
  split; [vm_compute; reflexivity|].
  split; [reflexivity|].
  match goal with
  | |- (times _ (dispatched ?l) <= 1)%nat
       /\ _ /\ gate _ (pending ?r') = _ /\ _ =>
      destruct (@HandleMouseEvent_dispatches_once_gated_cleared toy_engine
                  busy_renderer r' l tt LeftClick)
        as (A & B & C & _); [vm_compute; reflexivity|]
  end.
  split; [exact A|].
  split; [apply B; reflexivity|].
  split; [apply B; reflexivity|].
  split; [vm_compute; reflexivity|].
  match goal with
  | |- dispatched ?l = _ /\ mouseDirty (dataPtr ?r1) = _ =>
      pose proof (C busy_renderer r1 l tt eq_refl) as D0
  end.
  change (fires LeftClick (pending busy_renderer)) with true in D0.
  cbv iota in D0. destruct D0 as (_ & D1 & _ & D2).
  split; [exact D1|exact D2].
Defined.

(** C6 as stated fails for the keys: they have no dirty flag of their
    own. A key press stored by [HandleKeyPress] sets no dirty flag; with
    every dirty flag false the next call dispatches it all the same. What
    gates the dispatch is the type of the stored key event, and that type,
    no flag, is what the dispatch resets. *)
Lemma key_press_is_dispatched_with_every_dirty_flag_clear :
  exists r' log,
    hoverDirty (dataPtr (HandleKeyPress key_a_pressed toy_renderer)) = false
    /\ mouseDirty (dataPtr (HandleKeyPress key_a_pressed toy_renderer)) = false
    /\ dropDirty (dataPtr (HandleKeyPress key_a_pressed toy_renderer)) = false
    /\ HandleMouseEvent (HandleKeyPress key_a_pressed toy_renderer)
       = Some (tt, r', log)
    /\ dispatched log = [KeyPress]
    /\ hoverDirty (dataPtr r') = false
    /\ mouseDirty (dataPtr r') = false
    /\ dropDirty (dataPtr r') = false
    /\ KeyType (keyEvent (dataPtr (HandleKeyPress key_a_pressed toy_renderer)))
       = PRESS
    /\ KeyType (keyEvent (dataPtr r')) = NO_EVENT.
Proof.
  eexists. eexists.
  split; [reflexivity|]. split; [reflexivity|]. split; [reflexivity|].
  split; [vm_compute; reflexivity|].
  repeat split; reflexivity.
Qed.

(** C9. After a call of [HandleMouseEvent] the stored key event has type
    [NO_EVENT], whether the call dispatched it or there was none; so the
    next call, when no new key event has been stored in between, dispatches
    neither a key press nor a key release. *)
Theorem key_dispatch_is_edge_triggered
  {E : Engine} (r r1 r1' r2 : IgnRenderer) (log1 log2 : list event)
  (u1 u2 : unit) :
  HandleMouseEvent r = Some (u1, r1, log1) ->
  keyEvent (dataPtr r1') = keyEvent (dataPtr r1) ->
  HandleMouseEvent r1' = Some (u2, r2, log2) ->
  KeyType (keyEvent (dataPtr r1)) = NO_EVENT
  /\ times KeyPress (dispatched log2) = 0%nat
  /\ times KeyRelease (dispatched log2) = 0%nat.
Proof.
  intros H1 Hk H2.
  destruct (HandleMouseEvent_spec _ H1) as (Hp1 & _ & _).
  destruct (HandleMouseEvent_spec _ H2) as (_ & Hd2 & _).
  assert (Hno : KeyType (keyEvent (dataPtr r1)) = NO_EVENT).
  { change (KeyType (pKeyEvent (pending r1)) = NO_EVENT).
    rewrite Hp1. apply table_no_key_after. }
  split; [exact Hno|].
  rewrite Hd2. apply table_key_needs_type.
  unfold pending; cbn. rewrite Hk. exact Hno.
Qed.

Lemma key_dispatch_twice_witness :
  exists r1 log1 r2 log2,
    HandleMouseEvent busy_renderer = Some (tt, r1, log1)
    /\ times KeyPress (dispatched log1) = 1%nat
    /\ HandleMouseEvent r1 = Some (tt, r2, log2)
    /\ KeyType (keyEvent (dataPtr r1)) = NO_EVENT
    /\ times KeyPress (dispatched log2) = 0%nat
    /\ times KeyRelease (dispatched log2) = 0%nat.
Proof.
  eexists. eexists. eexists. eexists.
  split; [vm_compute; reflexivity|].
  split; [reflexivity|].
  split; [vm_compute; reflexivity|].
  eapply (@key_dispatch_is_edge_triggered toy_engine busy_renderer _ _ _ _ _
            tt tt);
    [vm_compute; reflexivity|reflexivity|vm_compute; reflexivity].
Defined.

(** The two firing broadcasts themselves write [NO_EVENT]. *)
Lemma BroadcastKeyPress_resets_type
  {E : Engine} (r r' : IgnRenderer) (log : list event) (u : unit) :
  BroadcastKeyPress r = Some (u, r', log) ->
  dispatched log = [KeyPress] ->
  KeyType (keyEvent (dataPtr r')) = NO_EVENT.
Proof.
  intros H Hd. destruct (BroadcastKeyPress_shadow _ H) as [A _].
  unfold key_shadow in A.
  destruct (is_key_type PRESS (pKeyEvent (pending r)));
    injection A as _ _ _ _ Hk Hl; [rewrite Hk; reflexivity|].
  rewrite Hd in Hl. discriminate.
Qed.

Lemma BroadcastKeyRelease_resets_type
  {E : Engine} (r r' : IgnRenderer) (log : list event) (u : unit) :
  BroadcastKeyRelease r = Some (u, r', log) ->
  dispatched log = [KeyRelease] ->
  KeyType (keyEvent (dataPtr r')) = NO_EVENT.
Proof.
  intros H Hd. destruct (BroadcastKeyRelease_shadow _ H) as [A _].
  unfold key_shadow in A.
  destruct (is_key_type RELEASE (pKeyEvent (pending r)));
    injection A as _ _ _ _ Hk Hl; [rewrite Hk; reflexivity|].
  rewrite Hd in Hl. discriminate.
Qed.

(** C10. In one call of [HandleMouseEvent] at most one of the five mouse
    broadcasts fires; [mouseDirty] is false when the call returns; a pending
    mouse event that matches no broadcast (a move without the dragging
    flag, a release of a button that is neither left nor right) is not
    dispatched in this call, and no later call dispatches a mouse event
    until [mouseDirty] is set again. *)
Theorem one_mouse_broadcast_per_call_rest_discarded
  {E : Engine} (r r' : IgnRenderer) (log : list event) (u : unit) :
  HandleMouseEvent r = Some (u, r', log) ->
  (length (filter is_mouse_category (dispatched log)) <= 1)%nat
  /\ mouseDirty (dataPtr r') = false
  /\ (mouse_path (mouseEvent (dataPtr r)) = None ->
      filter is_mouse_category (dispatched log) = [])
  /\ (forall m, Dragging m = false -> Type_ m = MOVE -> mouse_path m = None)
  /\ (forall m, Dragging m = false -> Type_ m = MouseRelease ->
                Button m <> LEFT -> Button m <> RIGHT -> mouse_path m = None)
  /\ (forall r1 r2 log2 u2,
        mouseDirty (dataPtr r1) = mouseDirty (dataPtr r') ->
        HandleMouseEvent r1 = Some (u2, r2, log2) ->
        filter is_mouse_category (dispatched log2) = []).
Proof.
  intro H. destruct (HandleMouseEvent_spec _ H) as (Hp & Hd & _).
  assert (Hm : mouseDirty (dataPtr r') = false).
  { change (pMouse (pending r') = false). rewrite Hp. reflexivity. }
  rewrite Hd.
  split; [apply table_one_mouse_path|]. split; [exact Hm|].
  split; [intro Hn; apply table_one_mouse_path; right; exact Hn|].
  split; [|split].
  - intros [pos ppos drag ty bt ct s a]; cbn. intros -> ->.
    destruct bt; reflexivity.
  - intros [pos ppos drag ty bt ct s a]; cbn. intros -> -> Hl Hr.
    destruct bt; try reflexivity; congruence.
  - intros r1 r2 log2 u2 Hsame H2.
    destruct (HandleMouseEvent_spec _ H2) as (_ & Hd2 & _).
    rewrite Hd2. apply table_one_mouse_path. left.
    unfold pending; cbn. congruence.
Qed.

Lemma unmatched_move_witness :
  exists r' log,
    HandleMouseEvent moved_renderer = Some (tt, r', log)
    /\ mouseDirty (dataPtr moved_renderer) = true
    /\ log = []
    /\ (length (filter is_mouse_category (dispatched log)) <= 1)%nat
    /\ mouseDirty (dataPtr r') = false
    /\ (mouse_path (mouseEvent (dataPtr moved_renderer)) = None ->
        filter is_mouse_category (dispatched log) = [])
    /\ (forall m, Dragging m = false -> Type_ m = MOVE -> mouse_path m = None)
    /\ (forall m, Dragging m = false -> Type_ m = MouseRelease ->
                  Button m <> LEFT -> Button m <> RIGHT -> mouse_path m = None)
    /\ (forall (r1 r2 : @IgnRenderer toy_engine) log2 u2,
          mouseDirty (dataPtr r1) = mouseDirty (dataPtr r') ->
          HandleMouseEvent r1 = Some (u2, r2, log2) ->
          filter is_mouse_category (dispatched log2) = []).
Proof.
  eexists. eexists.
  split; [vm_compute; reflexivity|].
  split; [reflexivity|]. split; [reflexivity|].
  apply (@one_mouse_broadcast_per_call_rest_discarded toy_engine
           moved_renderer _ _ tt).
  vm_compute. reflexivity.
Defined.

(** A pending event can match two broadcasts; the first to fire clears the
    flag the other is gated by. *)
Example drag_hides_press :
  exists r' log,
    HandleMouseEvent (NewMouseEvent drag_press toy_renderer)
      = Some (tt, r', log)
    /\ dispatched log = [Drag].
Proof. eexists. eexists. split; [vm_compute; reflexivity|reflexivity]. Qed.

(** C5. When [RenderNext] emits [TextureReady], the id it carries is the
    GL id of the camera's render texture as it was right after the resize
    block of [Render]: read before the input was applied and before
    [camera->Update ()], which runs afterwards between the two render
    events. *)
Theorem RenderNext_publishes_id_read_before_update
  {E : Engine} (r r2 : IgnRenderer) (evs : list event) (tid : Z) (sz : QSize) :
  RenderNext r = Some (r2, evs, Some (tid, sz)) ->
  let r0 := if initialized r then r else Initialize r in
  exists r1 r3 l3 u3,
    after_resize r0 = Some r1
    /\ tid = RenderTextureGLId (camera (dataPtr r1))
    /\ sz = textureSize r1
    /\ HandleMouseEvent (set_textureId tid r1) = Some (u3, r3, l3)
    /\ camera (dataPtr r2)
       = app_handlers RenderEvent
           (Update (app_handlers PreRenderEvent (camera (dataPtr r3)))).
Proof.
  intro H. cbv zeta. unfold RenderNext in H. cbv zeta in H.
  set (r0 := if initialized r then r else Initialize r) in *.
  destruct (negb (initialized r0)); [discriminate|].
  destruct (Render r0) as [[[u ra] l]|] eqn:HR; [|discriminate].
  injection H as <- _ <- <-.
  destruct (Render_stages _ HR) as (r1 & r3 & l3 & u3 & A & B & C & D' & F).
  exists r1, r3, l3, u3. rewrite C, D'. auto.
Qed.

Lemma RenderNext_toy_witness :
  exists r2 evs,
    RenderNext toy_renderer = Some (r2, evs, Some (7, mkQSize 800 600))
    /\ RenderTextureGLId (camera (dataPtr r2)) = 8
    /\ exists r1 r3 l3 u3,
         after_resize toy_renderer = Some r1
         /\ 7 = RenderTextureGLId (camera (dataPtr r1))
         /\ mkQSize 800 600 = textureSize r1
         /\ HandleMouseEvent (set_textureId 7 r1) = Some (u3, r3, l3)
         /\ camera (dataPtr r2)
            = app_handlers RenderEvent
                (Update (app_handlers PreRenderEvent (camera (dataPtr r3)))).
Proof.
  eexists. eexists.
  split; [vm_compute; reflexivity|].
  split; [reflexivity|].
  eapply (@RenderNext_publishes_id_read_before_update toy_engine toy_renderer).
  vm_compute. reflexivity.
Defined.


(** *** Sizes *)

Lemma truncate_ge_1 (x : qreal) :
  qreal_le (qreal_of_Z 1) x = true -> 1 <= truncate x.
Proof.
  unfold qreal_le, qreal_of_Z, QArith_base.Qle_bool, truncate.
  destruct x as [n d]. cbn. intro H. apply Z.leb_le in H.
  apply Z.quot_le_lower_bound; lia.
Qed.

Lemma not_le_0_of_ge_1 (x : qreal) :
  qreal_le (qreal_of_Z 1) x = true -> qreal_le x (qreal_of_Z 0) = false.
Proof.
  unfold qreal_le, qreal_of_Z, QArith_base.Qle_bool.
  destruct x as [n d]. cbn. intro H. apply Z.leb_le in H.
  apply Z.leb_gt. lia.
Qed.

Lemma to_int_truncate (x : qreal) (z : Z) :
  to_int x = Some z -> z = truncate x /\ INT_MIN <= z <= INT_MAX.
Proof.
  unfold to_int.
  destruct ((INT_MIN <=? truncate x) && (truncate x <=? INT_MAX)) eqn:Hb;
    [|discriminate].
  intro H. injection H as <-. apply andb_prop in Hb as [A B].
  apply Z.leb_le in A. apply Z.leb_le in B. auto.
Qed.

Lemma std_max_ge_1 (x : qreal) : 1 <= truncate (std_max x (qreal_of_Z 1)).
Proof.
  unfold std_max, qreal_lt.
  destruct (QArith_base.Qle_bool (qreal_of_Z 1) x) eqn:Hx; cbn.
  - apply truncate_ge_1. exact Hx.
  - vm_compute. discriminate.
Qed.

Lemma int_div_defined (a b : Z) : 1 <= b -> int_div a b = Some (Z.quot a b).
Proof.
  unfold int_div. intro Hb.
  destruct (b =? 0) eqn:H0; [apply Z.eqb_eq in H0; lia|].
  destruct (b =? -1) eqn:H1; [apply Z.eqb_eq in H1; lia|].
  rewrite andb_false_r. reflexivity.
Qed.

Lemma resize_defined {E : Engine} (r : IgnRenderer) :
  1 <= height (textureSize r) ->
  exists r', resize r = Some (tt, r', []) /\ textureDirty r' = false.
Proof.
  intro Hh. unfold resize, bind, gets, modify. cbn.
  rewrite (int_div_defined _ Hh). cbn. eexists. split; reflexivity.
Qed.

(** C7, as the code has it. [SizeChanged] does not clamp: a sender whose
    width or height is at most 0 is ignored, the texture size and the dirty
    flag stay as they are. The size [Ready] sets is clamped to at least 1
    in both directions. And a size change to a positive width and a height
    of at least 1 stores a height of at least 1 and marks the texture
    dirty, so that the division [width / height] of the resize block is
    defined. *)
Theorem SizeChanged_ignores_nonpositive_Ready_clamps
  {E : Engine} (w h : qreal) (r : IgnRenderer) :
  (qreal_le w (qreal_of_Z 0) = true \/ qreal_le h (qreal_of_Z 0) = true ->
   SizeChanged (Some (w, h)) r = Some r)
  /\ (forall r', Ready w h r = Some r' ->
                 1 <= width (textureSize r') /\ 1 <= height (textureSize r'))
  /\ (qreal_le w (qreal_of_Z 0) = false -> qreal_le (qreal_of_Z 1) h = true ->
      forall r', SizeChanged (Some (w, h)) r = Some r' ->
                 textureDirty r' = true
                 /\ width (textureSize r') = truncate w
                 /\ height (textureSize r') = truncate h
                 /\ 1 <= height (textureSize r')
                 /\ exists r'', resize r' = Some (tt, r'', [])).
Proof.
  split; [|split].
  - intros [H|H]; unfold SizeChanged; rewrite H; [|rewrite orb_true_r];
      reflexivity.
  - intros r' H. unfold Ready in H.
    destruct (to_int (std_max w (qreal_of_Z 1))) as [wi|] eqn:Hw;
      [|discriminate].
    destruct (to_int (std_max h (qreal_of_Z 1))) as [hi|] eqn:Hh;
      [|discriminate].
    injection H as <-. cbn.
    apply to_int_truncate in Hw as [-> _].
    apply to_int_truncate in Hh as [-> _].
    split; apply std_max_ge_1.
  - intros Hw Hh r' H. unfold SizeChanged in H.
    rewrite Hw, (not_le_0_of_ge_1 _ Hh) in H. cbn in H.
    destruct (to_int w) as [wi|] eqn:Ew; [|discriminate].
    destruct (to_int h) as [hi|] eqn:Eh; [|discriminate].
    injection H as <-.
    apply to_int_truncate in Ew as [-> _].
    apply to_int_truncate in Eh as [-> _].
    pose proof (truncate_ge_1 _ Hh) as Hge.
    cbn. repeat split; try assumption.
    destruct (@resize_defined E
                (set_textureDirty true
                   (set_textureSize (mkQSize (truncate w) (truncate h)) r)))
      as (r'' & Hr & _); [exact Hge|].
    exists r''. exact Hr.
Qed.

(** C7 as stated fails: a change to height 0 is not clamped to 1; the
    request is dropped, the height stays 600 and nothing is marked dirty. *)
Lemma zero_height_is_ignored_not_clamped :
  exists r',
    SizeChanged (Some (qreal_of_Z 800, qreal_of_Z 0)) toy_renderer = Some r'
    /\ height (textureSize r') = 600
    /\ height (textureSize r') <> 1
    /\ textureDirty r' = false.
Proof.
  exists toy_renderer. repeat split; try reflexivity. discriminate.
Qed.

(** A change to 1024.5 x 768 is stored as 1024 x 768 and marked dirty; an
    item of 0 x 0 makes [Ready] start with 1 x 1. *)
Example size_change_truncates :
  SizeChanged (Some (QArith_base.Qmake 2049 2, qreal_of_Z 768)) toy_renderer
    = Some (set_textureDirty true
              (set_textureSize (mkQSize 1024 768) toy_renderer))
  /\ Ready (qreal_of_Z 0) (qreal_of_Z 0) toy_renderer
     = Some (set_textureSize (mkQSize 1 1) toy_renderer).
Proof. split; reflexivity. Qed.

(** A height strictly between 0 and 1 passes the test of [SizeChanged] and
    is truncated to 0 by the conversion to [int]; the next [Render] then
    divides by zero. *)
Example fractional_height_divides_by_zero :
  SizeChanged (Some (qreal_of_Z 800, half)) toy_renderer
    = Some (set_textureDirty true (set_textureSize (mkQSize 800 0) toy_renderer))
  /\ Render (set_textureDirty true
               (set_textureSize (mkQSize 800 0) toy_renderer)) = None.
Proof. split; reflexivity. Qed.

(** *** The texture node *)

(** C4. [PrepareNode] takes the published id and leaves 0 in its place, the
    mutex held for exactly that; a nonzero id makes it delete the old
    texture, create one from the id and the size, install it and mark the
    material dirty; on 0 the texture and what is shown stay as they are; in
    both cases the last thing it does is [WaitForWorkerThread]. *)
Theorem PrepareNode_takes_id_swaps_texture_always_hands_off (n : TextureNode) :
  id (fst (PrepareNode n)) = 0
  /\ size (fst (PrepareNode n)) = size n
  /\ (id n <> 0 ->
      texture (fst (PrepareNode n)) = createTextureFromId (id n) (size n)
      /\ shown (fst (PrepareNode n)) = createTextureFromId (id n) (size n)
      /\ snd (PrepareNode n)
         = [MutexLock; MutexUnlock; Delete (texture n);
            Create (createTextureFromId (id n) (size n)); MarkDirtyMaterial;
            EmitTextureInUse; WaitForWorkerThread])
  /\ (id n = 0 ->
      texture (fst (PrepareNode n)) = texture n
      /\ shown (fst (PrepareNode n)) = shown n
      /\ snd (PrepareNode n)
         = [MutexLock; MutexUnlock; EmitTextureInUse; WaitForWorkerThread])
  /\ last (snd (PrepareNode n)) MutexLock = WaitForWorkerThread.
Proof.
  unfold PrepareNode. destruct (id n =? 0) eqn:Hid; cbn.
  - apply Z.eqb_eq in Hid. repeat split; try reflexivity; intros; congruence.
  - apply Z.eqb_neq in Hid. repeat split; try reflexivity; intros; congruence.
Qed.

(** The worker publishes id 7 at 800 x 600; [PrepareNode] swaps it in; the
    next [PrepareNode] finds id 0, keeps the texture of id 7 and still
    hands off. *)
Example two_prepares :
  let n1 := fst (NewTexture 7 (mkQSize 800 600) TextureNode_new) in
  let n2 := fst (PrepareNode n1) in
  let n3 := fst (PrepareNode n2) in
  snd (PrepareNode n1)
    = [MutexLock; MutexUnlock; Delete (mkQSGTexture 0 (mkQSize 1 1));
       Create (mkQSGTexture 7 (mkQSize 800 600)); MarkDirtyMaterial;
       EmitTextureInUse; WaitForWorkerThread]
  /\ shown n2 = mkQSGTexture 7 (mkQSize 800 600)
  /\ id n2 = 0
  /\ snd (PrepareNode n2)
     = [MutexLock; MutexUnlock; EmitTextureInUse; WaitForWorkerThread]
  /\ shown n3 = mkQSGTexture 7 (mkQSize 800 600)
  /\ texture n3 = mkQSGTexture 7 (mkQSize 800 600).
Proof. repeat split; reflexivity. Qed.

(** *** Screen to scene *)

(** *** The normalization of [ScreenToScene] under an ordered arithmetic *)

Section Normalized.
Context {E : Engine}.
Variable dle : D -> D -> Prop.
Hypothesis Hord : ordered_arith dle.

Lemma deq_trans (a b c : D) : deq dle a b -> deq dle b c -> deq dle a c.
Proof.
  intros [A B] [A' B']. split; eapply (dle_trans Hord); eassumption.
Qed.

Lemma exact_max_pos : 0 < exact_max.
Proof. reflexivity. Qed.

Lemma twice_mono (x1 x2 : Z) :
  Z.abs x1 <= exact_max -> Z.abs x2 <= exact_max -> x1 <= x2 ->
  dle (dmul (of_int 2) (of_int x1)) (dmul (of_int 2) (of_int x2)).
Proof.
  intros H1 H2 Hle.
  destruct (twice_exact Hord x1 H1) as [A _].
  destruct (twice_exact Hord x2 H2) as [_ B].
  eapply (dle_trans Hord); [exact A|].
  eapply (dle_trans Hord); [|exact B].
  apply (of_int_mono Hord). lia.
Qed.

Lemma ratio_mono (w x1 x2 : Z) :
  0 < w <= exact_max ->
  Z.abs x1 <= exact_max -> Z.abs x2 <= exact_max -> x1 <= x2 ->
  dle (ddiv (dmul (of_int 2) (of_int x1)) (of_int w))
      (ddiv (dmul (of_int 2) (of_int x2)) (of_int w)).
Proof.
  intros Hw H1 H2 Hle. apply (div_mono Hord); [exact Hw|].
  apply twice_mono; assumption.
Qed.

Lemma ratio_at_0 (w : Z) :
  0 < w <= exact_max ->
  deq dle (ddiv (dmul (of_int 2) (of_int 0)) (of_int w)) (of_int 0).
Proof.
  intro Hw.
  assert (H0 : Z.abs 0 <= exact_max) by (cbn; pose proof exact_max_pos; lia).
  destruct (twice_exact Hord 0 H0) as [A B]. cbn [Z.mul] in A, B.
  assert (Hk : Z.abs (0 * w) <= 2 * exact_max)
    by (cbn; pose proof exact_max_pos; lia).
  destruct (@div_exact _ _ Hord 0 w (proj1 Hw) Hk) as [C D0]. cbn [Z.mul] in C, D0.
  split.
  - eapply (dle_trans Hord); [|exact C].
    apply (div_mono Hord); [exact Hw|exact A].
  - eapply (dle_trans Hord); [exact D0|].
    apply (div_mono Hord); [exact Hw|exact B].
Qed.

Lemma ratio_at_full (w : Z) :
  0 < w <= exact_max ->
  deq dle (ddiv (dmul (of_int 2) (of_int w)) (of_int w)) (of_int 2).
Proof.
  intro Hw.
  assert (H0 : Z.abs w <= exact_max) by lia.
  destruct (twice_exact Hord w H0) as [A B].
  assert (Hk : Z.abs (2 * w) <= 2 * exact_max) by lia.
  destruct (@div_exact _ _ Hord 2 w (proj1 Hw) Hk) as [C D0].
  split.
  - eapply (dle_trans Hord); [|exact C].
    apply (div_mono Hord); [exact Hw|exact A].
  - eapply (dle_trans Hord); [exact D0|].
    apply (div_mono Hord); [exact Hw|exact B].
Qed.

Lemma small_exact (a : Z) : 0 <= a <= 2 -> Z.abs a <= exact_max.
Proof. intro H. pose proof exact_max_pos. unfold exact_max in *. lia. Qed.

Lemma normalize_x_mono (cam : Camera) (p q : Vector2i) :
  0 < ImageWidth cam <= exact_max ->
  Z.abs (X p) <= exact_max -> Z.abs (X q) <= exact_max -> X p <= X q ->
  dle (normalize_x cam p) (normalize_x cam q).
Proof.
  intros Hw Hp Hq Hle. unfold normalize_x.
  apply (sub_mono_l Hord). apply ratio_mono; assumption.
Qed.

Lemma normalize_y_anti (cam : Camera) (p q : Vector2i) :
  0 < ImageHeight cam <= exact_max ->
  Z.abs (Y p) <= exact_max -> Z.abs (Y q) <= exact_max -> Y p <= Y q ->
  dle (normalize_y cam q) (normalize_y cam p).
Proof.
  intros Hh Hp Hq Hle. unfold normalize_y.
  apply (sub_mono_r Hord). apply ratio_mono; assumption.
Qed.

Lemma normalize_x_left (cam : Camera) (p : Vector2i) :
  0 < ImageWidth cam <= exact_max -> X p = 0 ->
  deq dle (normalize_x cam p) (of_int (-1)).
Proof.
  intros Hw Hx. unfold normalize_x. rewrite Hx.
  destruct (ratio_at_0 Hw) as [A B].
  destruct (@sub_exact _ _ Hord 0 1 (@small_exact 0 ltac:(lia))
              (@small_exact 1 ltac:(lia))) as [C D0].
  cbn [Z.sub Z.add Z.opp] in C, D0.
  split.
  - eapply (dle_trans Hord); [|exact C]. apply (sub_mono_l Hord). exact A.
  - eapply (dle_trans Hord); [exact D0|]. apply (sub_mono_l Hord). exact B.
Qed.

Lemma normalize_x_right (cam : Camera) (p : Vector2i) :
  0 < ImageWidth cam <= exact_max -> X p = ImageWidth cam ->
  deq dle (normalize_x cam p) (of_int 1).
Proof.
  intros Hw Hx. unfold normalize_x. rewrite Hx.
  destruct (ratio_at_full Hw) as [A B].
  destruct (@sub_exact _ _ Hord 2 1 (@small_exact 2 ltac:(lia))
              (@small_exact 1 ltac:(lia))) as [C D0].
  cbn [Z.sub Z.add Z.opp Z.pos_sub Pos.pred_double] in C, D0.
  split.
  - eapply (dle_trans Hord); [|exact C]. apply (sub_mono_l Hord). exact A.
  - eapply (dle_trans Hord); [exact D0|]. apply (sub_mono_l Hord). exact B.
Qed.

Lemma normalize_y_top (cam : Camera) (p : Vector2i) :
  0 < ImageHeight cam <= exact_max -> Y p = 0 ->
  deq dle (normalize_y cam p) (of_int 1).
Proof.
  intros Hh Hy. unfold normalize_y. rewrite Hy.
  destruct (ratio_at_0 Hh) as [A B].
  destruct (@sub_exact _ _ Hord 1 0 (@small_exact 1 ltac:(lia))
              (@small_exact 0 ltac:(lia))) as [C D0].
  cbn [Z.sub Z.add Z.opp] in C, D0.
  split.
  - eapply (dle_trans Hord); [|exact C]. apply (sub_mono_r Hord). exact B.
  - eapply (dle_trans Hord); [exact D0|]. apply (sub_mono_r Hord). exact A.
Qed.

Lemma normalize_y_bottom (cam : Camera) (p : Vector2i) :
  0 < ImageHeight cam <= exact_max -> Y p = ImageHeight cam ->
  deq dle (normalize_y cam p) (of_int (-1)).
Proof.
  intros Hh Hy. unfold normalize_y. rewrite Hy.
  destruct (ratio_at_full Hh) as [A B].
  destruct (@sub_exact _ _ Hord 1 2 (@small_exact 1 ltac:(lia))
              (@small_exact 2 ltac:(lia))) as [C D0].
  cbn [Z.sub Z.add Z.opp Z.pos_sub Pos.pred_double] in C, D0.
  split.
  - eapply (dle_trans Hord); [|exact C]. apply (sub_mono_r Hord). exact B.
  - eapply (dle_trans Hord); [exact D0|]. apply (sub_mono_r Hord). exact A.
Qed.

Lemma normalized_on_image (cam : Camera) (p : Vector2i) :
  0 < ImageWidth cam <= exact_max ->
  0 < ImageHeight cam <= exact_max ->
  0 <= X p <= ImageWidth cam ->
  0 <= Y p <= ImageHeight cam ->
  dle (of_int (-1)) (normalize_x cam p)
  /\ dle (normalize_x cam p) (of_int 1)
  /\ dle (of_int (-1)) (normalize_y cam p)
  /\ dle (normalize_y cam p) (of_int 1).
Proof.
  intros Hw Hh Hx Hy.
  pose proof exact_max_pos as Hm.
  set (tl := mkVector2i 0 0).
  set (br := mkVector2i (ImageWidth cam) (ImageHeight cam)).
  destruct (@normalize_x_left cam tl Hw eq_refl) as [_ L].
  destruct (@normalize_x_right cam br Hw eq_refl) as [R _].
  destruct (@normalize_y_top cam tl Hh eq_refl) as [T _].
  destruct (@normalize_y_bottom cam br Hh eq_refl) as [_ B].
  assert (Hx0 : Z.abs (X p) <= exact_max) by lia.
  assert (Hy0 : Z.abs (Y p) <= exact_max) by lia.
  assert (Hw0 : Z.abs (ImageWidth cam) <= exact_max) by lia.
  assert (Hh0 : Z.abs (ImageHeight cam) <= exact_max) by lia.
  assert (Hz : Z.abs 0 <= exact_max) by (cbn; lia).
  repeat split.
  - eapply (dle_trans Hord); [exact L|].
    apply normalize_x_mono; [exact Hw|exact Hz|exact Hx0|cbn; lia].
  - eapply (dle_trans Hord); [|exact R].
    apply normalize_x_mono; [exact Hw|exact Hx0|exact Hw0|cbn; lia].
  - eapply (dle_trans Hord); [exact B|].
    apply normalize_y_anti; [exact Hh|exact Hy0|exact Hh0|cbn; lia].
  - eapply (dle_trans Hord); [|exact T].
    apply normalize_y_anti; [exact Hh|exact Hz|exact Hy0|cbn; lia].
Qed.

End Normalized.

(** Exact arithmetic is an ordered arithmetic. *)
Lemma toy_arith_ordered : @ordered_arith toy_engine QArith_base.Qle.
Proof.
  constructor; cbn.
  - intros a b c. apply QArith_base.Qle_trans.
  - intros a b H. unfold QArith_base.Qle. cbn. lia.
  - intros a _. unfold deq, QArith_base.Qle. cbn. lia.
  - intros [an ad] [bn bd] w [Hw _] H.
    destruct w as [|w|w]; try lia.
    unfold QArith_base.Qle, QArith_base.Qdiv, QArith_base.Qmult,
      QArith_base.Qinv in *.
    cbn -[Z.mul] in *. rewrite !Pos2Z.inj_mul. nia.
  - intros k w Hw _. destruct w as [|w|w]; try lia.
    unfold deq, QArith_base.Qle, QArith_base.Qdiv, QArith_base.Qmult,
      QArith_base.Qinv.
    cbn -[Z.mul]. rewrite ?Pos2Z.inj_mul. split; nia.
  - intros [an ad] [bn bd] H.
    unfold QArith_base.Qle, QArith_base.Qminus, QArith_base.Qplus,
      QArith_base.Qopp in *.
    cbn -[Z.mul] in *. rewrite ?Pos2Z.inj_mul. nia.
  - intros [an ad] [bn bd] H.
    unfold QArith_base.Qle, QArith_base.Qminus, QArith_base.Qplus,
      QArith_base.Qopp in *.
    cbn -[Z.mul] in *. rewrite ?Pos2Z.inj_mul. nia.
  - intros a b _ _.
    unfold deq, QArith_base.Qle, QArith_base.Qminus, QArith_base.Qplus,
      QArith_base.Qopp.
    cbn -[Z.mul]. split; lia.
Qed.
(** C8, as the code has it. [ScreenToScene] maps the screen position
    [(x, y)] to [(2 x / width - 1, 1 - 2 y / height)] and clamps nothing.
    It aims the ray query through the camera there and returns the point
    of the closest intersection when there is one, and otherwise the origin
    of the ray plus 10 times its direction. Under an ordered arithmetic and
    for an image of positive width and height: a position on the image
    ([0 <= x <= width], [0 <= y <= height]) is normalized into
    [[-1, 1] x [-1, 1]]; the left edge goes to -1 and the right edge to 1,
    the top edge to 1 and the bottom edge to -1; the first coordinate does
    not decrease with [x], and the second does not increase with [y]: the
    y axis is inverted. *)
Theorem ScreenToScene_normalizes_queries_and_falls_back
  {E : Engine} (p : Vector2i) (r : IgnRenderer) :
  let cam := camera (dataPtr r) in
  let nx :=
    dsub (ddiv (dmul (of_int 2) (of_int (X p))) (of_int (ImageWidth cam)))
      (of_int 1) in
  let ny :=
    dsub (of_int 1)
      (ddiv (dmul (of_int 2) (of_int (Y p))) (of_int (ImageHeight cam))) in
  let rq := SetFromCamera cam (nx, ny) (rayQuery (dataPtr r)) in
  (exists pt,
     ScreenToScene p r = Some (pt, with_dataPtr (set_rayQuery rq) r, [])
     /\ (result_ok (ClosestPoint rq) = true ->
         pt = result_point (ClosestPoint rq))
     /\ (result_ok (ClosestPoint rq) = false ->
         pt = mkVector3
                (dadd (vx (Origin rq)) (dmul (vx (Direction rq)) (of_int 10)))
                (dadd (vy (Origin rq)) (dmul (vy (Direction rq)) (of_int 10)))
                (dadd (vz (Origin rq))
                   (dmul (vz (Direction rq)) (of_int 10)))))
  /\ (forall dle : D -> D -> Prop,
        ordered_arith dle ->
        0 < ImageWidth cam <= exact_max ->
        0 < ImageHeight cam <= exact_max ->
        (0 <= X p <= ImageWidth cam -> 0 <= Y p <= ImageHeight cam ->
         dle (of_int (-1)) nx /\ dle nx (of_int 1)
         /\ dle (of_int (-1)) ny /\ dle ny (of_int 1))
        /\ (X p = 0 -> deq dle nx (of_int (-1)))
        /\ (X p = ImageWidth cam -> deq dle nx (of_int 1))
        /\ (Y p = 0 -> deq dle ny (of_int 1))
        /\ (Y p = ImageHeight cam -> deq dle ny (of_int (-1)))
        /\ (forall q,
              Z.abs (X p) <= exact_max -> Z.abs (X q) <= exact_max ->
              X p <= X q -> dle nx (normalize_x cam q))
        /\ (forall q,
              Z.abs (Y p) <= exact_max -> Z.abs (Y q) <= exact_max ->
              Y p <= Y q -> dle (normalize_y cam q) ny)).
Proof.
  cbv zeta. split.
  - rewrite ScreenToScene_eq. eexists. split; [reflexivity|].
    unfold scene_point, aimed, normalize_x, normalize_y, vadd, vscale.
    destruct (result_ok _); split; intro; try discriminate; reflexivity.
  - intros dle Hord Hw Hh.
    fold (normalize_x (camera (dataPtr r)) p).
    fold (normalize_y (camera (dataPtr r)) p).
    split; [intros Hx Hy; apply normalized_on_image; assumption|].
    split; [intro Hx; apply normalize_x_left; assumption|].
    split; [intro Hx; apply normalize_x_right; assumption|].
    split; [intro Hy; apply normalize_y_top; assumption|].
    split; [intro Hy; apply normalize_y_bottom; assumption|].
    split.
    + intros q Hp Hq Hle. apply normalize_x_mono; assumption.
    + intros q Hp Hq Hle. apply normalize_y_anti; assumption.
Qed.

Lemma ScreenToScene_on_image_witness :
  exists pt r',
    ScreenToScene (mkVector2i 600 150) toy_renderer = Some (pt, r', [])
    /\ QArith_base.Qle (QArith_base.inject_Z (-1))
         (@normalize_x toy_engine (camera (dataPtr toy_renderer))
            (mkVector2i 600 150))
    /\ QArith_base.Qle
         (@normalize_x toy_engine (camera (dataPtr toy_renderer))
            (mkVector2i 600 150))
         (QArith_base.inject_Z 1)
    /\ QArith_base.Qle (QArith_base.inject_Z (-1))
         (@normalize_y toy_engine (camera (dataPtr toy_renderer))
            (mkVector2i 600 150))
    /\ QArith_base.Qle
         (@normalize_y toy_engine (camera (dataPtr toy_renderer))
            (mkVector2i 600 150))
         (QArith_base.inject_Z 1).
Proof.
  destruct (@ScreenToScene_normalizes_queries_and_falls_back toy_engine
              (mkVector2i 600 150) toy_renderer) as [(pt & Hs & _) Hn].
  destruct (Hn QArith_base.Qle toy_arith_ordered) as (Hr & _);
    [vm_compute; split; [reflexivity|discriminate]
    |vm_compute; split; [reflexivity|discriminate]|].
  exists pt. eexists. split; [exact Hs|].
  apply Hr; vm_compute; split; discriminate.
Defined.

(** C8 as stated fails off the image: nothing clamps. A position the item
    reports while the pointer is dragged out of it, [(1000, -30)] on an
    image of 800 x 600, is normalized to [(3/2, 11/10)], outside the
    square, and the ray query is aimed there. *)
Lemma off_image_position_is_normalized_outside_the_square :
  exists pt r',
    ScreenToScene (mkVector2i 1000 (-30)) toy_renderer = Some (pt, r', [])
    /\ QArith_base.Qeq (toy_nx (rayQuery (dataPtr r')))
         (QArith_base.Qmake 3 2)
    /\ QArith_base.Qeq (toy_ny (rayQuery (dataPtr r')))
         (QArith_base.Qmake 11 10)
    /\ ~ QArith_base.Qle (toy_nx (rayQuery (dataPtr r')))
           (QArith_base.inject_Z 1)
    /\ ~ QArith_base.Qle (toy_ny (rayQuery (dataPtr r')))
           (QArith_base.inject_Z 1).
Proof.
  eexists. eexists. split; [vm_compute; reflexivity|].
  repeat split; try (vm_compute; reflexivity);
    intro H; vm_compute in H; apply H; reflexivity.
Qed.

(** The corners of an image of 800 x 600 in exact arithmetic. *)
Example corners_of_the_image :
  @normalize_x toy_engine (mkToyCamera 800 600 0) (mkVector2i 0 0)
    = QArith_base.Qmake (-800) 800
  /\ @normalize_y toy_engine (mkToyCamera 800 600 0) (mkVector2i 0 0)
     = QArith_base.Qmake 600 600
  /\ @normalize_x toy_engine (mkToyCamera 800 600 0) (mkVector2i 800 600)
     = QArith_base.Qmake 800 800
  /\ @normalize_y toy_engine (mkToyCamera 800 600 0) (mkVector2i 800 600)
     = QArith_base.Qmake (-600) 600.
Proof. repeat split; vm_compute; reflexivity. Qed.

(** *** What the events of [HandleMouseEvent] carry *)

Section Carried.
Context {E : Engine}.

Ltac open_up r :=
  destruct r as [ini tid tsz td ge [md hd dd me ke cam hp dp dt rq]].

Lemma is_type_eq (t : MouseEventType) (m : MouseEvent) :
  is_type t m = true -> Type_ m = t.
Proof. unfold is_type. destruct t, (Type_ m); congruence. Qed.

Lemma is_button_eq (b : MouseButton) (m : MouseEvent) :
  is_button b m = true -> Button m = b.
Proof. unfold is_button. destruct b, (Button m); congruence. Qed.

Lemma is_key_type_eq (t : KeyEventType) (k : KeyEvent) :
  is_key_type t k = true -> KeyType k = t.
Proof. unfold is_key_type. destruct t, (KeyType k); congruence. Qed.

Lemma keeps_bind (m1 m2 : M unit) :
  keeps m1 -> keeps m2 -> keeps (bind m1 (fun _ => m2)).
Proof.
  intros H1 H2 r r' log u H.
  apply bind_inv in H as (u1 & r1 & l1 & l2 & E1 & E2 & ->).
  destruct (H1 _ _ _ _ E1) as [A1 F1]. destruct (H2 _ _ _ _ E2) as [A2 F2].
  split; [congruence|]. apply Forall_app. split; [exact F1|].
  rewrite <- A1. exact F2.
Qed.

Ltac start_keeps :=
  let r := fresh "r" in
  intros r ? ? ?; open_up r;
  unfold stored, bind, gets, modify, ret, sendEvent;
  cbn -[is_type is_button is_key_type ScreenToScene].

Ltac finish_keeps :=
  cbn -[is_type is_button is_key_type ScreenToScene];
  rewrite ?ScreenToScene_eq;
  cbn -[is_type is_button is_key_type ScreenToScene];
  let H := fresh "H" in
  intro H; try discriminate H;
  inversion H; subst; cbn;
  (split; [reflexivity|]);
  repeat constructor; cbn; auto.

Lemma BroadcastDrag_keeps : keeps BroadcastDrag.
Proof.
  unfold BroadcastDrag. start_keeps.
  destruct md, (Dragging me) eqn:Hd, getApp; finish_keeps.
Qed.

Lemma BroadcastMousePress_keeps : keeps BroadcastMousePress.
Proof.
  unfold BroadcastMousePress. start_keeps.
  destruct md, (is_type MousePress me) eqn:Ht, getApp; finish_keeps.
  apply is_type_eq; exact Ht.
Qed.

Lemma BroadcastScroll_keeps : keeps BroadcastScroll.
Proof.
  unfold BroadcastScroll. start_keeps.
  destruct md, (is_type SCROLL me) eqn:Ht, getApp; finish_keeps.
  apply is_type_eq; exact Ht.
Qed.

Lemma BroadcastLeftClick_keeps : keeps BroadcastLeftClick.
Proof.
  unfold BroadcastLeftClick. start_keeps.
  destruct md, (is_button LEFT me) eqn:Hb, (is_type MouseRelease me) eqn:Ht,
    getApp; finish_keeps.
  - apply is_button_eq; exact Hb.
  - apply is_type_eq; exact Ht.
Qed.

Lemma BroadcastRightClick_keeps : keeps BroadcastRightClick.
Proof.
  unfold BroadcastRightClick. start_keeps.
  destruct md, (is_button RIGHT me) eqn:Hb, (is_type MouseRelease me) eqn:Ht,
    getApp; finish_keeps.
  - apply is_button_eq; exact Hb.
  - apply is_type_eq; exact Ht.
Qed.

Lemma BroadcastHoverPos_keeps : keeps BroadcastHoverPos.
Proof.
  unfold BroadcastHoverPos. start_keeps.
  destruct hd, getApp; finish_keeps.
Qed.

Lemma BroadcastDrop_keeps : keeps BroadcastDrop.
Proof.
  unfold BroadcastDrop. start_keeps.
  destruct dd, getApp; finish_keeps.
Qed.

Lemma BroadcastKeyPress_keeps : keeps BroadcastKeyPress.
Proof.
  unfold BroadcastKeyPress. start_keeps.
  destruct (is_key_type PRESS ke) eqn:Ht, getApp; finish_keeps.
  apply is_key_type_eq; exact Ht.
Qed.

Lemma BroadcastKeyRelease_keeps : keeps BroadcastKeyRelease.
Proof.
  unfold BroadcastKeyRelease. start_keeps.
  destruct (is_key_type RELEASE ke) eqn:Ht, getApp; finish_keeps.
  apply is_key_type_eq; exact Ht.
Qed.

Lemma clear_mouseDirty_keeps :
  keeps (modify (with_dataPtr (set_mouseDirty false))).
Proof. start_keeps. finish_keeps. Qed.

Lemma HandleMouseEvent_keeps : keeps HandleMouseEvent.
Proof.
  unfold HandleMouseEvent.
  repeat apply keeps_bind.
  - apply BroadcastHoverPos_keeps.
  - apply BroadcastDrag_keeps.
  - apply BroadcastMousePress_keeps.
  - apply BroadcastLeftClick_keeps.
  - apply BroadcastRightClick_keeps.
  - apply BroadcastScroll_keeps.
  - apply BroadcastKeyPress_keeps.
  - apply BroadcastKeyRelease_keeps.
  - apply BroadcastDrop_keeps.
  - apply clear_mouseDirty_keeps.
Qed.

(** X5. Every event [HandleMouseEvent] sends carries the stored input
    unchanged, and the call leaves the stored input as it was: a mouse
    event is the stored mouse event and has the shape its broadcast tests
    for (dragging; press; left or right release; scroll); the hover event
    has the hover position, is not dragging and of type [MOVE]; a key event
    is the stored key event; the drop event has the stored text and
    position. [HandleMouseEvent] sends neither of the two render events. *)
Theorem HandleMouseEvent_events_carry_stored_input
  (r r' : IgnRenderer) (log : list event) (u : unit) :
  HandleMouseEvent r = Some (u, r', log) ->
  stored r' = stored r /\ Forall (carries (stored r)) log.
Proof. apply HandleMouseEvent_keeps. Qed.

(** *** Nothing pending *)

Lemma nothing_pending_nothing_sent (r : IgnRenderer) :
  hoverDirty (dataPtr r) = false ->
  mouseDirty (dataPtr r) = false ->
  dropDirty (dataPtr r) = false ->
  KeyType (keyEvent (dataPtr r)) = NO_EVENT ->
  HandleMouseEvent r = Some (tt, r, []).
Proof.
  open_up r. destruct ke as [kt k kc ks ka]. cbn.
  intros -> -> -> ->. reflexivity.
Qed.

Lemma consumed_nothing_pending (r r' : IgnRenderer) :
  pending r' = consumed (pending r) ->
  hoverDirty (dataPtr r') = false
  /\ mouseDirty (dataPtr r') = false
  /\ dropDirty (dataPtr r') = false
  /\ KeyType (keyEvent (dataPtr r')) = NO_EVENT.
Proof.
  intro H.
  change (pHover (pending r') = false /\ pMouse (pending r') = false
          /\ pDrop (pending r') = false
          /\ KeyType (pKeyEvent (pending r')) = NO_EVENT).
  rewrite H. cbn. repeat split.
  destruct (keyEvent (dataPtr r)) as [kt k kc ks ka]. cbn.
  destruct kt; reflexivity.
Qed.

(** X6. [HandleMouseEvent] is idempotent: called again right after itself
    it sends nothing, changes nothing, and is defined whether or not there
    is an application. *)
Theorem HandleMouseEvent_again_does_nothing
  (r r1 : IgnRenderer) (log : list event) (u : unit) :
  HandleMouseEvent r = Some (u, r1, log) ->
  HandleMouseEvent r1 = Some (tt, r1, []).
Proof.
  intro H. destruct (HandleMouseEvent_spec _ H) as (Hp & _ & _).
  destruct (@consumed_nothing_pending r r1 Hp) as (A & B & C & D0).
  apply nothing_pending_nothing_sent; assumption.
Qed.

(** *** Without an application *)

Lemma without_app_bind (m1 m2 : M unit) (sh1 sh2 : shadow) :
  without_app m1 sh1 -> without_app m2 sh2 ->
  without_app (bind m1 (fun _ => m2)) (shadow_seq sh1 sh2).
Proof.
  intros H1 H2 Happ r. specialize (H1 Happ r).
  unfold shadow_seq, bind.
  destruct (sh1 (pending r)) as [p1 c1] eqn:E1. cbn in H1.
  destruct c1 as [|c c1].
  - destruct H1 as (r1 & Hm & Hp & Hs & Hc). rewrite Hm.
    specialize (H2 Happ r1). rewrite Hp in H2.
    destruct (sh2 p1) as [p2 c2] eqn:E2. cbn in *.
    destruct c2 as [|c' c2].
    + destruct H2 as (r2 & Hm2 & Hp2 & Hs2 & Hc2). rewrite Hm2.
      exists r2. repeat split; try assumption; try congruence.
      all: unfold same_public in *; intuition congruence.
    + rewrite H2. reflexivity.
  - rewrite H1. destruct (sh2 p1). reflexivity.
Qed.

Ltac no_app Happ :=
  let r := fresh "r" in
  intros Happ r; open_up r;
  unfold mouse_shadow, hover_shadow, drop_shadow, key_shadow, pending,
    same_public, bind, gets, modify, ret, sendEvent;
  rewrite ?Happ;
  cbn -[is_type is_button is_key_type ScreenToScene].

Ltac no_app_done Happ :=
  cbn -[is_type is_button is_key_type ScreenToScene];
  rewrite ?ScreenToScene_eq, ?Happ;
  cbn -[is_type is_button is_key_type ScreenToScene];
  rewrite ?Happ;
  first [ reflexivity
        | eexists; repeat split; reflexivity ].

Lemma BroadcastHoverPos_without_app :
  without_app BroadcastHoverPos hover_shadow.
Proof.
  unfold BroadcastHoverPos. no_app Happ. destruct hd; no_app_done Happ.
Qed.

Lemma BroadcastDrag_without_app :
  without_app BroadcastDrag (mouse_shadow Drag Dragging).
Proof.
  unfold BroadcastDrag. no_app Happ.
  destruct md, (Dragging me); no_app_done Happ.
Qed.

Lemma BroadcastMousePress_without_app :
  without_app BroadcastMousePress
    (mouse_shadow GenericPress (is_type MousePress)).
Proof.
  unfold BroadcastMousePress. no_app Happ.
  destruct md, (is_type MousePress me); no_app_done Happ.
Qed.

Lemma BroadcastLeftClick_without_app :
  without_app BroadcastLeftClick
    (mouse_shadow LeftClick
       (fun m => is_button LEFT m && is_type MouseRelease m)).
Proof.
  unfold BroadcastLeftClick. no_app Happ.
  destruct md, (is_button LEFT me), (is_type MouseRelease me);
    no_app_done Happ.
Qed.

Lemma BroadcastRightClick_without_app :
  without_app BroadcastRightClick
    (mouse_shadow RightClick
       (fun m => is_button RIGHT m && is_type MouseRelease m)).
Proof.
  unfold BroadcastRightClick. no_app Happ.
  destruct md, (is_button RIGHT me), (is_type MouseRelease me);
    no_app_done Happ.
Qed.

Lemma BroadcastScroll_without_app :
  without_app BroadcastScroll (mouse_shadow Scroll (is_type SCROLL)).
Proof.
  unfold BroadcastScroll. no_app Happ.
  destruct md, (is_type SCROLL me); no_app_done Happ.
Qed.

Lemma BroadcastKeyPress_without_app :
  without_app BroadcastKeyPress (key_shadow KeyPress PRESS).
Proof.
  unfold BroadcastKeyPress. no_app Happ.
  destruct (is_key_type PRESS ke); no_app_done Happ.
Qed.

Lemma BroadcastKeyRelease_without_app :
  without_app BroadcastKeyRelease (key_shadow KeyRelease RELEASE).
Proof.
  unfold BroadcastKeyRelease. no_app Happ.
  destruct (is_key_type RELEASE ke); no_app_done Happ.
Qed.

Lemma BroadcastDrop_without_app : without_app BroadcastDrop drop_shadow.
Proof.
  unfold BroadcastDrop. no_app Happ. destruct dd; no_app_done Happ.
Qed.

Lemma clear_mouseDirty_without_app :
  without_app (modify (with_dataPtr (set_mouseDirty false)))
    (fun p => (clear_mouse p, [])).
Proof. no_app Happ. no_app_done Happ. Qed.

Lemma HandleMouseEvent_without_app :
  without_app HandleMouseEvent HandleMouseEvent_shadow.
Proof.
  unfold HandleMouseEvent, HandleMouseEvent_shadow.
  repeat apply without_app_bind.
  - apply BroadcastHoverPos_without_app.
  - apply BroadcastDrag_without_app.
  - apply BroadcastMousePress_without_app.
  - apply BroadcastLeftClick_without_app.
  - apply BroadcastRightClick_without_app.
  - apply BroadcastScroll_without_app.
  - apply BroadcastKeyPress_without_app.
  - apply BroadcastKeyRelease_without_app.
  - apply BroadcastDrop_without_app.
  - apply clear_mouseDirty_without_app.
Qed.

Lemma HandleMouseEvent_None_iff (r : IgnRenderer) :
  HandleMouseEvent r = None
  <-> getApp = false /\ dispatch_table (pending r) <> [].
Proof.
  split.
  - intro H. destruct getApp eqn:Happ.
    + destruct (HandleMouseEvent_defined Happ r) as (r' & l & Hd). congruence.
    + split; [reflexivity|]. intro Ht.
      pose proof (HandleMouseEvent_without_app Happ r) as Hw.
      rewrite shadow_is_table in Hw. cbn [fst snd] in Hw. rewrite Ht in Hw.
      destruct Hw as (r' & Hd & _). congruence.
  - intros [Happ Ht].
    pose proof (HandleMouseEvent_without_app Happ r) as Hw.
    rewrite shadow_is_table in Hw. cbn [fst snd] in Hw.
    destruct (dispatch_table (pending r)); [congruence|exact Hw].
Qed.

(** X7. The broadcasts call through [getApp ()] without testing it, so
    [HandleMouseEvent] is undefined exactly when there is no application
    and there is something to dispatch. *)
Theorem HandleMouseEvent_undefined_iff (r : IgnRenderer) :
  HandleMouseEvent r = None
  <-> getApp = false /\ dispatch_table (pending r) <> [].
Proof. apply HandleMouseEvent_None_iff. Qed.

(** *** A frame *)

Lemma int_div_None (a b : Z) :
  int_div a b = None <-> b = 0 \/ (a = INT_MIN /\ b = -1).
Proof.
  unfold int_div.
  destruct (Z.eqb_spec b 0) as [H0|H0]; [tauto|].
  destruct (Z.eqb_spec a INT_MIN) as [Ha|Ha],
           (Z.eqb_spec b (-1)) as [Hb|Hb]; cbn;
    split; intro H; try discriminate H; try tauto;
    destruct H as [H|[H1 H2]]; contradiction.
Qed.

Lemma after_resize_cases (r : IgnRenderer) :
  (textureDirty r = true
   /\ int_div (width (textureSize r)) (height (textureSize r)) = None
   /\ after_resize r = None)
  \/ (exists r1,
        after_resize r = Some r1
        /\ pending r1 = pending r
        /\ stored r1 = stored r
        /\ textureDirty r1 = false
        /\ textureSize r1 = textureSize r
        /\ initialized r1 = initialized r
        /\ (textureDirty r = false -> r1 = r)
        /\ (textureDirty r = true ->
            int_div (width (textureSize r)) (height (textureSize r))
            <> None)).
Proof.
  unfold after_resize, when, resize, bind, gets, modify, ret, undefined.
  open_up r. cbn -[int_div]. destruct td; cbn -[int_div].
  - destruct (int_div (width tsz) (height tsz)) eqn:Hd; cbn.
    + right. eexists. split; [reflexivity|].
      repeat split; try discriminate.
    + left. auto.
  - right. eexists. split; [reflexivity|].
    repeat split; try discriminate.
Qed.

Lemma Render_eq (r : IgnRenderer) :
  Render r =
  match after_resize r with
  | None => None
  | Some r1 =>
      match HandleMouseEvent (with_id_read r1) with
      | None => None
      | Some (_, r3, l3) => Some (tt, finish_frame r3, l3 ++ render_events)
      end
  end.
Proof.
  unfold Render, after_resize.
  unfold bind at 1. unfold gets at 1. unfold bind at 1.
  destruct (when (textureDirty r) resize r) as [[[u1 r1] l1]|] eqn:H1;
    [|reflexivity].
  assert (Hl : l1 = []).
  { unfold when, resize, bind, gets, modify, ret, undefined in H1.
    destruct (textureDirty r); cbn -[int_div] in H1.
    - destruct (int_div _ _); cbn in H1; [|discriminate].
      inversion H1; reflexivity.
    - inversion H1; reflexivity. }
  subst l1.
  unfold bind at 1. unfold read_texture_id at 1. unfold modify at 1.
  unfold bind at 1. fold (with_id_read r1).
  destruct (HandleMouseEvent (with_id_read r1)) as [[[u3 r3] l3]|];
    [|reflexivity].
  unfold bind, when, sendEvent, update_camera, modify, ret, render_events,
    finish_frame, app_handlers.
  open_up r3. destruct getApp; cbn; rewrite ?app_nil_r; reflexivity.
Qed.

Lemma pending_with_id_read (r : IgnRenderer) :
  pending (with_id_read r) = pending r.
Proof. reflexivity. Qed.

Lemma stored_with_id_read (r : IgnRenderer) :
  stored (with_id_read r) = stored r.
Proof. reflexivity. Qed.

(** X8. [Render] is undefined in exactly two cases: the texture size is
    dirty and the [int] division [width / height] of the resize block is
    undefined (a height of 0, or [INT_MIN / -1]); or there is no
    application and there is input to dispatch. Without an application and
    without input a frame goes through. *)
Theorem Render_undefined_iff (r : IgnRenderer) :
  Render r = None
  <-> (textureDirty r = true
       /\ (height (textureSize r) = 0
           \/ (width (textureSize r) = INT_MIN
               /\ height (textureSize r) = -1)))
      \/ (getApp = false /\ dispatch_table (pending r) <> []).
Proof.
  rewrite Render_eq.
  destruct (after_resize_cases r) as [(Hd & Hz & Ha)|(r1 & Ha & Hp & _ & _ & _ & _ & _ & Hn)];
    rewrite Ha.
  - split; [|reflexivity]. intros _. left. split; [exact Hd|].
    apply int_div_None. exact Hz.
  - destruct (HandleMouseEvent (with_id_read r1)) as [[[u3 r3] l3]|] eqn:H3.
    + split; [discriminate|]. intros [[Hd Hz]|Hq].
      * exfalso. apply (Hn Hd). apply int_div_None. exact Hz.
      * exfalso.
        assert (Hu : HandleMouseEvent (with_id_read r1) = None).
        { apply HandleMouseEvent_None_iff.
          rewrite pending_with_id_read, Hp. exact Hq. }
        congruence.
    + split; [|reflexivity]. intros _. right.
      apply HandleMouseEvent_None_iff in H3.
      rewrite pending_with_id_read, Hp in H3. exact H3.
Qed.

Lemma Render_result
  (r r2 : IgnRenderer) (evs : list event) (u : unit) :
  Render r = Some (u, r2, evs) ->
  exists l,
    evs = l ++ render_events
    /\ Forall (carries (stored r)) l
    /\ dispatched l = dispatch_table (pending r)
    /\ dispatched evs = dispatch_table (pending r)
    /\ stored r2 = stored r
    /\ pending r2 = consumed (pending r)
    /\ textureDirty r2 = false
    /\ textureSize r2 = textureSize r
    /\ initialized r2 = initialized r.
Proof.
  rewrite Render_eq. intro H.
  destruct (after_resize_cases r)
    as [(_ & _ & Ha)|(r1 & Ha & Hp & Hs & Hd & Hz & Hi1 & _)];
    rewrite Ha in H; [discriminate|].
  destruct (HandleMouseEvent (with_id_read r1)) as [[[u3 r3] l3]|] eqn:H3;
    [|discriminate].
  inversion H; subst. clear H.
  destruct (HandleMouseEvent_keeps _ H3) as [Ks Kf].
  destruct (HandleMouseEvent_spec _ H3) as (Sp & Sd & Sq).
  rewrite stored_with_id_read, Hs in Ks, Kf.
  rewrite pending_with_id_read, Hp in Sp, Sd.
  exists l3. split; [reflexivity|]. split; [exact Kf|].
  split; [exact Sd|].
  split.
  { rewrite dispatched_app, Sd. unfold render_events.
    destruct getApp; cbn; apply app_nil_r. }
  destruct Sq as (Qi & _ & Qsz & Qd & _). cbn in Qi, Qsz, Qd.
  open_up r3. cbn in *. repeat split; try assumption; congruence.
Qed.

(** X9. A frame sends the input first and the two render events last:
    the events of [Render] are those of the pending input, in the order of
    the dispatch table and carrying the stored input, followed by
    [PreRenderEvent] and [RenderEvent] when there is an application. The
    frame leaves the stored input as it was, every gate clear and the
    texture size clean. *)
Theorem Render_sends_input_then_render_events
  (r r2 : IgnRenderer) (evs : list event) (u : unit) :
  Render r = Some (u, r2, evs) ->
  exists l,
    evs = l ++ render_events
    /\ Forall (carries (stored r)) l
    /\ dispatched l = dispatch_table (pending r)
    /\ dispatched evs = dispatch_table (pending r)
    /\ stored r2 = stored r
    /\ pending r2 = consumed (pending r)
    /\ textureDirty r2 = false
    /\ textureSize r2 = textureSize r.
Proof.
  intro H.
  destruct (@Render_result r r2 evs u H) as (l & A & B & C & D1 & F & G & H1 & H2 & _).
  exists l. repeat split; assumption.
Qed.

(** X10. A frame that follows a frame, with no new input and no size
    change in between, is always defined, with or without an application;
    it skips the resize block, reads the texture id, sends nothing but the
    two render events and updates the camera. *)
Theorem Render_after_Render
  (r r2 : IgnRenderer) (evs : list event) (u : unit) :
  Render r = Some (u, r2, evs) ->
  Render r2 = Some (tt, finish_frame (with_id_read r2), render_events).
Proof.
  intro H.
  destruct (@Render_result r r2 evs u H) as (l & _ & _ & _ & _ & _ & Hp & Hd & _).
  rewrite Render_eq.
  destruct (after_resize_cases r2)
    as [(Hd' & _)|(r1 & Ha & _ & _ & _ & _ & _ & Hsame & _)]; [congruence|].
  rewrite Ha, (Hsame Hd).
  destruct (@consumed_nothing_pending r (with_id_read r2))
    as (A & B & C & D0).
  { rewrite pending_with_id_read. exact Hp. }
  rewrite (nothing_pending_nothing_sent _ A B C D0).
  reflexivity.
Qed.

(** *** [RenderNext] and [Initialize] *)

Lemma Initialize_fails (r : IgnRenderer) :
  initialized r = false -> cannot_initialize r = true -> Initialize r = r.
Proof.
  unfold Initialize, cannot_initialize. intros -> H.
  destruct (negb engine_supported); [reflexivity|].
  cbn in H. rewrite H. reflexivity.
Qed.

Lemma Initialize_succeeds (r : IgnRenderer) :
  initialized r = false -> cannot_initialize r = false ->
  initialized (Initialize r) = true.
Proof.
  unfold Initialize, cannot_initialize. intros -> H.
  apply orb_false_elim in H as [He Hg]. rewrite He, Hg. reflexivity.
Qed.

(** X11. [RenderNext] on a renderer that is not initialized and cannot
    be (the engine is not supported, or the grid is wanted, missing and
    cannot be created) renders nothing, emits no [TextureReady] and leaves
    the renderer as it was, not initialized. In every other case a call
    that returns has rendered a frame, leaves the renderer initialized and
    emits [TextureReady] with the texture id and size the renderer then
    has. *)
Theorem RenderNext_emits_unless_Initialize_fails (r : IgnRenderer) :
  (initialized r = false -> cannot_initialize r = true ->
   RenderNext r = Some (r, [], None))
  /\ (forall r2 evs sig,
        RenderNext r = Some (r2, evs, sig) ->
        initialized r = true \/ cannot_initialize r = false ->
        initialized r2 = true
        /\ sig = Some (textureId r2, textureSize r2)
        /\ exists u,
             Render (if initialized r then r else Initialize r)
             = Some (u, r2, evs)).
Proof.
  split.
  - intros Hi Hc. unfold RenderNext. rewrite Hi.
    rewrite (Initialize_fails r Hi Hc), Hi. reflexivity.
  - intros r2 evs sig H Hok. unfold RenderNext in H. cbv zeta in H.
    set (r0 := if initialized r then r else Initialize r) in *.
    assert (Hr0 : initialized r0 = true).
    { subst r0. destruct (initialized r) eqn:Hi; [exact Hi|].
      destruct Hok as [Hok|Hok]; [discriminate|].
      apply Initialize_succeeds; assumption. }
    rewrite Hr0 in H. cbn [negb] in H. cbv iota in H.
    destruct (Render r0) as [[[u ra] l]|] eqn:HR; [|discriminate].
    inversion H; subst. clear H.
    split; [|split; [reflexivity|exists u; reflexivity]].
    destruct (@Render_result r0 r2 evs u HR) as (_ & _ & _ & _ & _ & _ & _ & _ & _ & Hi).
    rewrite Hi. exact Hr0.
Qed.

(** *** Size changes *)

Lemma truncate_fraction (x : qreal) :
  qreal_le x (qreal_of_Z 0) = false ->
  qreal_le (qreal_of_Z 1) x = false ->
  truncate x = 0.
Proof.
  unfold qreal_le, qreal_of_Z, QArith_base.Qle_bool, truncate.
  destruct x as [n d]. cbn. intros H0 H1.
  apply Z.leb_gt in H0. apply Z.leb_gt in H1.
  apply Z.quot_small. lia.
Qed.

(** X12. A size change to a height strictly between 0 and 1 passes the
    guard of [SizeChanged], is stored as a height of 0 and marked dirty, and
    the next frame divides by it: [Render] is undefined. *)
Theorem SizeChanged_fractional_height_breaks_next_frame
  (w h : qreal) (wi : Z) (r : IgnRenderer) :
  qreal_le w (qreal_of_Z 0) = false ->
  qreal_le h (qreal_of_Z 0) = false ->
  qreal_le (qreal_of_Z 1) h = false ->
  to_int w = Some wi ->
  exists r',
    SizeChanged (Some (w, h)) r = Some r'
    /\ textureSize r' = mkQSize wi 0
    /\ textureDirty r' = true
    /\ Render r' = None.
Proof.
  intros Hw Hh H1 Hi.
  exists (set_textureDirty true (set_textureSize (mkQSize wi 0) r)).
  split.
  { unfold SizeChanged. rewrite Hw, Hh, Hi. cbn [orb].
    unfold to_int. rewrite (truncate_fraction h Hh H1). reflexivity. }
  split; [reflexivity|]. split; [reflexivity|].
  rewrite Render_eq.
  destruct (after_resize_cases
              (set_textureDirty true (set_textureSize (mkQSize wi 0) r)))
    as [(_ & _ & Ha)|(r1 & _ & _ & _ & _ & _ & _ & _ & Hn)].
  - rewrite Ha. reflexivity.
  - exfalso. apply Hn; reflexivity.
Qed.

(** X13. The aspect ratio the resize block of [Render] gives the camera
    is the [int] quotient of width by height, converted to [double] only
    afterwards: for a width of at least 0 and a height of at least 1 it is
    the integer [q] with [q * height <= width < (q + 1) * height], hence 0
    for every size that is higher than wide. *)
Theorem resize_aspect_ratio_is_integer_quotient
  (r r' : IgnRenderer) (u : unit) (l : list event) :
  0 <= width (textureSize r) ->
  1 <= height (textureSize r) ->
  resize r = Some (u, r', l) ->
  exists q,
    camera (dataPtr r')
    = PreRender
        (SetAspectRatio (of_int q)
           (SetImageHeight (height (textureSize r))
              (SetImageWidth (width (textureSize r)) (camera (dataPtr r)))))
    /\ q * height (textureSize r) <= width (textureSize r)
       < (q + 1) * height (textureSize r)
    /\ (width (textureSize r) < height (textureSize r) -> q = 0)
    /\ textureDirty r' = false
    /\ l = [].
Proof.
  intros Hw Hh. unfold resize, bind, gets, modify, undefined.
  cbn -[int_div]. rewrite (int_div_defined _ Hh). cbn.
  intro H. inversion H; subst. clear H.
  exists (Z.quot (width (textureSize r)) (height (textureSize r))).
  split; [reflexivity|].
  rewrite Z.quot_div_nonneg by lia.
  split.
  { pose proof (Z.mul_div_le (width (textureSize r)) (height (textureSize r))).
    pose proof (Z.mul_succ_div_gt (width (textureSize r))
                  (height (textureSize r))).
    nia. }
  split; [intro Hlt; apply Z.div_small; lia|].
  split; reflexivity.
Qed.

(** X14. [SizeChanged] is undefined exactly when the change is accepted
    (a sender of positive width and height) and a truncated side does not
    fit an [int]; every other call returns. *)
Theorem SizeChanged_undefined_iff (w h : qreal) (r : IgnRenderer) :
  SizeChanged (Some (w, h)) r = None
  <-> qreal_le w (qreal_of_Z 0) = false
      /\ qreal_le h (qreal_of_Z 0) = false
      /\ (INT_MAX < truncate w \/ INT_MAX < truncate h).
Proof.
  assert (Hpos : forall x, qreal_le x (qreal_of_Z 0) = false ->
                           INT_MIN <= truncate x).
  { intros x Hx. unfold qreal_le, qreal_of_Z, QArith_base.Qle_bool in Hx.
    unfold truncate. destruct x as [n d]. cbn in *.
    apply Z.leb_gt in Hx.
    assert (0 <= Z.quot n (Z.pos d)) by (apply Z.quot_pos; lia).
    unfold INT_MIN. lia. }
  unfold SizeChanged.
  destruct (qreal_le w (qreal_of_Z 0)) eqn:Hw; cbn [orb].
  { split; [discriminate|]. intros (A & _); discriminate. }
  destruct (qreal_le h (qreal_of_Z 0)) eqn:Hh.
  { split; [discriminate|]. intros (_ & A & _); discriminate. }
  pose proof (Hpos w Hw) as Pw. pose proof (Hpos h Hh) as Ph.
  unfold to_int.
  destruct (Z.leb_spec INT_MIN (truncate w)); [|lia].
  destruct (Z.leb_spec INT_MIN (truncate h)); [|lia].
  cbn [andb].
  destruct (Z.leb_spec (truncate w) INT_MAX);
    destruct (Z.leb_spec (truncate h) INT_MAX);
    split; intro H'; try discriminate H'; try reflexivity; try lia;
      repeat split; try reflexivity; lia.
Qed.

(** *** Key events and the pending mouse event *)

Lemma carried_mouse (a : Stored) (e : event) (m : MouseEvent) :
  carries a e -> mouse_of e = Some m ->
  PressPos m = PressPos (sMouse a)
  /\ Control m = Control (sMouse a)
  /\ Shift m = Shift (sMouse a)
  /\ Alt m = Alt (sMouse a).
Proof.
  destruct e; cbn; intros Hc Hm; try discriminate Hm;
    inversion Hm; subst; clear Hm.
  - subst. cbn. auto.
  - destruct Hc as [-> _]. auto.
  - destruct Hc as [-> _]. auto.
  - destruct Hc as [-> _]. auto.
  - destruct Hc as [-> _]. auto.
  - destruct Hc as [-> _]. auto.
Qed.

(** X15. A key event that arrives after a mouse event and before the
    frame overwrites the modifiers of the stored mouse event: every event
    of the next [HandleMouseEvent] that carries a mouse event carries the
    control, shift and alt state of the key event, not that of the mouse
    event; and the key event sets no dirty flag of its own. *)
Theorem key_event_overrides_modifiers_of_pending_mouse_event
  (k : KeyEvent) (m : MouseEvent) (r r' : IgnRenderer) (log : list event)
  (u : unit) :
  HandleMouseEvent (HandleKeyPress k (NewMouseEvent m r)) = Some (u, r', log) ->
  Forall (fun e => forall m', mouse_of e = Some m' -> modifiers_of k m') log
  /\ HandleKeyRelease k (NewMouseEvent m r)
     = HandleKeyPress k (NewMouseEvent m r)
  /\ mouseDirty (dataPtr (HandleKeyPress k r)) = mouseDirty (dataPtr r)
  /\ hoverDirty (dataPtr (HandleKeyPress k r)) = hoverDirty (dataPtr r)
  /\ dropDirty (dataPtr (HandleKeyPress k r)) = dropDirty (dataPtr r).
Proof.
  intro H. destruct (HandleMouseEvent_keeps _ H) as [_ Hf].
  split; [|repeat split].
  eapply Forall_impl; [|exact Hf].
  intros e Hc m' Hm.
  destruct (carried_mouse _ _ Hc Hm) as (_ & A & B & C).
  unfold modifiers_of. rewrite A, B, C. repeat split.
Qed.

(** *** The item over a session *)

Lemma session_app (o1 o2 : list gui_op) (it it2 : RenderWindowItem)
  (log : list event) :
  session (o1 ++ o2) it = Some (it2, log) ->
  exists it1 l1 l2,
    session o1 it = Some (it1, l1)
    /\ session o2 it1 = Some (it2, l2)
    /\ log = l1 ++ l2.
Proof.
  revert it log. induction o1 as [|o o1 IH]; intros it log H.
  - exists it, [], log. auto.
  - cbn [app session] in *.
    destruct (item_step o it) as [[ita la]|]; [|discriminate].
    destruct (session (o1 ++ o2) ita) as [[itb lb]|] eqn:Hs; [|discriminate].
    inversion H; subst. clear H.
    destruct (IH _ _ Hs) as (it1 & l1 & l2 & A & B & ->).
    rewrite A. exists it1, (la ++ l1), l2.
    split; [reflexivity|]. split; [exact B|]. apply app_assoc.
Qed.

Lemma times_app (c : category) (l1 l2 : list category) :
  times c (l1 ++ l2) = (times c l1 + times c l2)%nat.
Proof. unfold times. rewrite filter_app. apply length_app. Qed.

Lemma item_step_frame (it it' : RenderWindowItem) (log : list event) :
  item_step Frame it = Some (it', log) ->
  exists u,
    HandleMouseEvent (ignRenderer it) = Some (u, ignRenderer it', log)
    /\ item_mouseEvent it' = item_mouseEvent it.
Proof.
  cbn. destruct (HandleMouseEvent (ignRenderer it)) as [[[u r] l]|];
    [|discriminate].
  intro H. inversion H; subst. exists u. auto.
Qed.

Lemma press_kept_step (p : Vector2i) (o : gui_op) (it it' : RenderWindowItem)
  (log : list event) :
  keeps_press o = true ->
  PressPos (item_mouseEvent it) = p ->
  PressPos (mouseEvent (dataPtr (ignRenderer it))) = p ->
  item_step o it = Some (it', log) ->
  PressPos (item_mouseEvent it') = p
  /\ PressPos (mouseEvent (dataPtr (ignRenderer it'))) = p
  /\ Forall (fun e => forall m, mouse_of e = Some m -> PressPos m = p) log.
Proof.
  intros Hk Hi Hr H.
  destruct o as [e|e|e|e|a e|a e|x y|t x y|]; try discriminate Hk.
  - cbn in H. inversion H; subst. clear H. cbn. auto.
  - (* a dragging move *)
    cbn in Hk. cbn in H. inversion H; subst. clear H.
    unfold mouseMoveEvent. rewrite Hk. cbn. auto.
  - cbn in H. inversion H; subst. clear H.
    unfold keyPressEvent. destruct a; cbn; auto.
  - cbn in H. inversion H; subst. clear H.
    unfold keyReleaseEvent. destruct a; cbn; auto.
  - cbn in H. inversion H; subst. clear H. cbn. auto.
  - cbn in H. inversion H; subst. clear H. cbn. auto.
  - (* a frame *)
    apply item_step_frame in H as (u & H & Hm).
    destruct (HandleMouseEvent_keeps _ H) as [Hs Hf].
    split; [congruence|]. split.
    + assert (Hme : mouseEvent (dataPtr (ignRenderer it'))
                    = mouseEvent (dataPtr (ignRenderer it))).
      { change (sMouse (stored (ignRenderer it'))
                = sMouse (stored (ignRenderer it))). rewrite Hs. reflexivity. }
      rewrite Hme. exact Hr.
    + eapply Forall_impl; [|exact Hf].
      intros e Hc m Hm'. destruct (carried_mouse _ _ Hc Hm') as (A & _).
      rewrite A. exact Hr.
Qed.

Lemma press_kept (p : Vector2i) (ops : list gui_op) (it it' : RenderWindowItem)
  (log : list event) :
  forallb keeps_press ops = true ->
  PressPos (item_mouseEvent it) = p ->
  PressPos (mouseEvent (dataPtr (ignRenderer it))) = p ->
  session ops it = Some (it', log) ->
  PressPos (item_mouseEvent it') = p
  /\ PressPos (mouseEvent (dataPtr (ignRenderer it'))) = p
  /\ Forall (fun e => forall m, mouse_of e = Some m -> PressPos m = p) log.
Proof.
  revert it log. induction ops as [|o ops IH]; intros it log Hk Hi Hr H.
  - cbn in H. inversion H; subst. auto.
  - cbn [forallb] in Hk. apply andb_prop in Hk as [Ho Hk].
    cbn [session] in H.
    destruct (item_step o it) as [[ita la]|] eqn:Hs; [|discriminate].
    destruct (session ops ita) as [[itb lb]|] eqn:Hs'; [|discriminate].
    inversion H; subst. clear H.
    destruct (press_kept_step o it Ho eq_refl Hr Hs) as (A & B & C).
    destruct (IH _ _ Hk A B Hs') as (A' & B' & C').
    split; [exact A'|]. split; [exact B'|].
    apply Forall_app. auto.
Qed.

(** X16. The press position survives a drag. After [mousePressEvent]
    with an event at position [p], through any sequence of dragging moves,
    releases, key events, hovers, drops and frames, the item and the
    renderer keep [p] as press position, and every event dispatched in
    between that carries a mouse event carries [p] as its press position. *)
Theorem press_position_survives_the_drag
  (e0 : MouseEvent) (ops : list gui_op) (it it' : RenderWindowItem)
  (log : list event) :
  forallb keeps_press ops = true ->
  session (MousePressed e0 :: ops) it = Some (it', log) ->
  PressPos (item_mouseEvent it') = Pos e0
  /\ PressPos (mouseEvent (dataPtr (ignRenderer it'))) = Pos e0
  /\ Forall (fun e => forall m, mouse_of e = Some m -> PressPos m = Pos e0)
       log.
Proof.
  intros Hk H. cbn [session item_step] in H.
  destruct (session ops (mousePressEvent e0 it)) as [[itb lb]|] eqn:Hs;
    [|discriminate].
  inversion H; subst. clear H. cbn [app].
  apply (@press_kept (Pos e0) ops (mousePressEvent e0 it) it' log Hk);
    [reflexivity|reflexivity|exact Hs].
Qed.

Lemma table_mouse_path (p : Pending) :
  pMouse p = true ->
  filter is_mouse_category (dispatch_table p)
  = opt_list (mouse_path (pMouseEvent p)).
Proof.
  destruct p as [h m d [pos ppos drag ty bt ct s a] [kt k kc ks ka]].
  cbn. intros ->. destruct h, d, drag, ty, bt, kt; reflexivity.
Qed.

Lemma dragging_kept (ops : list gui_op) (it it' : RenderWindowItem)
  (log : list event) :
  forallb no_mouse ops = true ->
  session ops it = Some (it', log) ->
  item_mouseEvent it' = item_mouseEvent it.
Proof.
  revert it log. induction ops as [|o ops IH]; intros it log Hk H.
  - cbn in H. inversion H; reflexivity.
  - cbn [forallb] in Hk. apply andb_prop in Hk as [Ho Hk].
    cbn [session] in H.
    destruct (item_step o it) as [[ita la]|] eqn:Hs; [|discriminate].
    destruct (session ops ita) as [[itb lb]|] eqn:Hs'; [|discriminate].
    inversion H; subst. clear H.
    rewrite (IH _ _ Hk Hs').
    destruct o; try discriminate Ho;
      try (cbn in Hs; inversion Hs; subst; reflexivity).
    + cbn in Hs. unfold keyPressEvent in Hs.
      destruct isAutoRepeat; inversion Hs; reflexivity.
    + cbn in Hs. unfold keyReleaseEvent in Hs.
      destruct isAutoRepeat; inversion Hs; reflexivity.
    + apply item_step_frame in Hs as (u & _ & Hm). exact Hm.
Qed.

(** X17. A release that ends a drag is dispatched as a drag, not as a
    click. When the last mouse event before a release was a dragging move
    (key events, hovers, drops and frames may come in between), the frame
    after the release dispatches exactly one mouse broadcast, [Drag], and
    its event is the release event with the dragging flag set and the
    press position the item had before the move. *)
Theorem release_after_drag_is_dispatched_as_drag
  (m e : MouseEvent) (ops : list gui_op) (it it1 it2 : RenderWindowItem)
  (l1 l2 : list event) :
  Dragging m = true ->
  forallb no_mouse ops = true ->
  session (MouseMoved m :: ops) it = Some (it1, l1) ->
  session [MouseReleased e; Frame] it1 = Some (it2, l2) ->
  filter is_mouse_category (dispatched l2) = [Drag]
  /\ In (DragOnScene
           (SetDragging true (SetPressPos (PressPos (item_mouseEvent it)) e)))
        l2.
Proof.
  intros Hd Hk H1 H2.
  cbn [session item_step] in H1.
  destruct (session ops (mouseMoveEvent m it)) as [[ita la]|] eqn:Hs;
    [|discriminate].
  inversion H1; subst. clear H1.
  pose proof (dragging_kept _ _ Hk Hs) as Hit.
  assert (Hme : item_mouseEvent it1
                = SetPressPos (PressPos (item_mouseEvent it)) m).
  { rewrite Hit. unfold mouseMoveEvent. rewrite Hd. reflexivity. }
  assert (Hdr : Dragging (item_mouseEvent it1) = true).
  { rewrite Hme. exact Hd. }
  assert (Hpp : PressPos (item_mouseEvent it1)
                = PressPos (item_mouseEvent it)).
  { rewrite Hme. reflexivity. }
  cbn [session item_step] in H2.
  destruct (HandleMouseEvent (ignRenderer (mouseReleaseEvent e it1)))
    as [[[u r] l]|] eqn:HH; [|discriminate].
  inversion H2; subst. clear H2. cbn [app]. rewrite app_nil_r.
  destruct (HandleMouseEvent_spec _ HH) as (_ & Sd & _).
  destruct (HandleMouseEvent_keeps _ HH) as [_ Kf].
  assert (Hf : filter is_mouse_category (dispatched l) = [Drag]).
  { rewrite Sd. rewrite table_mouse_path by reflexivity.
    cbn. unfold mouse_path. cbn. rewrite Hdr. reflexivity. }
  split; [exact Hf|].
  assert (Hin : In Drag (dispatched l)).
  { assert (In Drag (filter is_mouse_category (dispatched l)))
      by (rewrite Hf; left; reflexivity).
    apply filter_In in H. tauto. }
  unfold dispatched in Hin. apply in_flat_map in Hin as (ev & Hev & Hl).
  rewrite Forall_forall in Kf. specialize (Kf ev Hev).
  destruct ev; cbn in Hl; try (destruct Hl as [Hl|[]]; discriminate Hl);
    try contradiction.
  cbn in Kf. destruct Kf as [Km _]. subst m0.
  cbn in Hev. rewrite Hdr, Hpp in Hev. exact Hev.
Qed.

Lemma table_key_press (p : Pending) :
  KeyType (pKeyEvent p) = PRESS ->
  times KeyPress (dispatch_table p) = 1%nat
  /\ times KeyRelease (dispatch_table p) = 0%nat.
Proof.
  destruct p as [h m d [pos ppos drag ty bt ct s a] [kt k kc ks ka]].
  cbn. intros ->. destruct h, m, d, drag, ty, bt; split; reflexivity.
Qed.

Lemma key_kept_step (o : gui_op) (it it' : RenderWindowItem)
  (log : list event) :
  no_new_key o = true -> is_frame o = false ->
  item_step o it = Some (it', log) ->
  keyEvent (dataPtr (ignRenderer it')) = keyEvent (dataPtr (ignRenderer it))
  /\ log = [].
Proof.
  intros Hk Hf H.
  destruct o; try discriminate Hf; cbn in Hk; subst;
    cbn in H; inversion H; subst; split; reflexivity.
Qed.

Lemma no_key_no_dispatch (ops : list gui_op) (it it' : RenderWindowItem)
  (log : list event) :
  forallb no_new_key ops = true ->
  KeyType (keyEvent (dataPtr (ignRenderer it))) = NO_EVENT ->
  session ops it = Some (it', log) ->
  times KeyPress (dispatched log) = 0%nat
  /\ times KeyRelease (dispatched log) = 0%nat.
Proof.
  revert it log. induction ops as [|o ops IH]; intros it log Hk Hn H.
  - cbn in H. inversion H; subst. split; reflexivity.
  - cbn [forallb] in Hk. apply andb_prop in Hk as [Ho Hk].
    cbn [session] in H.
    destruct (item_step o it) as [[ita la]|] eqn:Hs; [|discriminate].
    destruct (session ops ita) as [[itb lb]|] eqn:Hs'; [|discriminate].
    inversion H; subst. clear H.
    rewrite dispatched_app, !times_app.
    destruct (is_frame o) eqn:Hf.
    + destruct o; try discriminate Hf.
      apply item_step_frame in Hs as (u & Hs & _).
      destruct (HandleMouseEvent_spec _ Hs) as (Sp & Sd & _).
      assert (Hn' : KeyType (keyEvent (dataPtr (ignRenderer ita))) = NO_EVENT).
      { change (KeyType (pKeyEvent (pending (ignRenderer ita))) = NO_EVENT).
        rewrite Sp. apply table_no_key_after. }
      destruct (IH _ _ Hk Hn' Hs') as [A B]. rewrite A, B, Sd.
      destruct (table_key_needs_type (pending (ignRenderer it)) Hn)
        as [C D0].
      rewrite C, D0. split; reflexivity.
    + destruct (key_kept_step o it Ho Hf Hs) as [Hke ->].
      rewrite <- Hke in Hn.
      destruct (IH _ _ Hk Hn Hs') as [A B]. rewrite A, B.
      split; reflexivity.
Qed.

Lemma key_press_once (ops : list gui_op) (it it' : RenderWindowItem)
  (log : list event) :
  forallb no_new_key ops = true ->
  KeyType (keyEvent (dataPtr (ignRenderer it))) = PRESS ->
  session ops it = Some (it', log) ->
  times KeyPress (dispatched log) = (if existsb is_frame ops then 1 else 0)%nat
  /\ times KeyRelease (dispatched log) = 0%nat.
Proof.
  revert it log. induction ops as [|o ops IH]; intros it log Hk Hn H.
  - cbn in H. inversion H; subst. split; reflexivity.
  - cbn [forallb] in Hk. apply andb_prop in Hk as [Ho Hk].
    cbn [session] in H.
    destruct (item_step o it) as [[ita la]|] eqn:Hs; [|discriminate].
    destruct (session ops ita) as [[itb lb]|] eqn:Hs'; [|discriminate].
    inversion H; subst. clear H.
    rewrite dispatched_app, !times_app. cbn [existsb].
    destruct (is_frame o) eqn:Hf; cbn [orb].
    + destruct o; try discriminate Hf.
      apply item_step_frame in Hs as (u & Hs & _).
      destruct (HandleMouseEvent_spec _ Hs) as (Sp & Sd & _).
      assert (Hn' : KeyType (keyEvent (dataPtr (ignRenderer ita))) = NO_EVENT).
      { change (KeyType (pKeyEvent (pending (ignRenderer ita))) = NO_EVENT).
        rewrite Sp. apply table_no_key_after. }
      destruct (no_key_no_dispatch _ _ Hk Hn' Hs') as [A B].
      rewrite A, B, Sd.
      destruct (table_key_press (pending (ignRenderer it)) Hn) as [C D0].
      rewrite C, D0. split; reflexivity.
    + destruct (key_kept_step o it Ho Hf Hs) as [Hke ->].
      rewrite <- Hke in Hn.
      destruct (IH _ _ Hk Hn Hs') as [A B]. rewrite A, B.
      split; reflexivity.
Qed.

(** X18. A key that is held down is delivered once. After
    [keyPressEvent] with a press that is no auto-repeat, as long as only
    auto-repeats arrive as key events (among any mouse events, hovers,
    drops and frames), the key press is dispatched exactly once if a frame
    runs, by the first one, and never otherwise; no key release is
    dispatched. *)
Theorem held_key_is_delivered_once
  (k : KeyEvent) (ops : list gui_op) (it it' : RenderWindowItem)
  (log : list event) :
  KeyType k = PRESS ->
  forallb no_new_key ops = true ->
  session (KeyPressed false k :: ops) it = Some (it', log) ->
  times KeyPress (dispatched log) = (if existsb is_frame ops then 1 else 0)%nat
  /\ times KeyRelease (dispatched log) = 0%nat.
Proof.
  intros Hp Hk H. cbn [session item_step] in H.
  destruct (session ops (keyPressEvent false k it)) as [[itb lb]|] eqn:Hs;
    [|discriminate].
  inversion H; subst. clear H. cbn [app].
  apply (@key_press_once ops (keyPressEvent false k it) it' log Hk);
    [exact Hp|exact Hs].
Qed.

End Carried.

(** *** The texture node over time *)

Lemma node_run_app (o1 o2 : list node_op) (n : TextureNode) :
  node_run (o1 ++ o2) n
  = (fst (node_run o2 (fst (node_run o1 n))),
     snd (node_run o1 n) ++ snd (node_run o2 (fst (node_run o1 n)))).
Proof.
  revert n. induction o1 as [|o o1 IH]; intro n.
  - cbn. destruct (node_run o2 n). reflexivity.
  - cbn [app node_run].
    destruct (node_step o n) as [n1 l1]. rewrite IH.
    destruct (node_run o1 n1) as [na la]. cbn.
    destruct (node_run o2 na) as [nb lb]. cbn.
    rewrite app_assoc. reflexivity.
Qed.

Lemma publishes_only (ops : list node_op) (n : TextureNode) :
  forallb (fun o => negb (is_prepare o)) ops = true ->
  texture (fst (node_run ops n)) = texture n
  /\ shown (fst (node_run ops n)) = shown n
  /\ created (snd (node_run ops n)) = []
  /\ deleted (snd (node_run ops n)) = [].
Proof.
  revert n. induction ops as [|o ops IH]; intros n H.
  - cbn. auto.
  - cbn [forallb] in H. apply andb_prop in H as [Ho H].
    destruct o as [i sz|]; [|discriminate Ho].
    cbn [node_run node_step NewTexture].
    specialize (IH (mkTextureNode i sz (texture n) (shown n)) H).
    destruct (node_run ops (mkTextureNode i sz (texture n) (shown n)))
      as [n2 l2]. cbn in *. exact IH.
Qed.

(** X19. The last published texture wins. Of the textures published
    since the last [PrepareNode] only the last one is wrapped and shown:
    the next [PrepareNode] creates one texture, from the last id and size,
    deletes the one the node held, and the ids published before are never
    used. *)
Theorem last_published_texture_wins
  (ops : list node_op) (i : Z) (sz : QSize) (n n' : TextureNode)
  (l : list node_effect) :
  forallb (fun o => negb (is_prepare o)) ops = true ->
  i <> 0 ->
  node_run (ops ++ [Publish i sz; Prepare]) n = (n', l) ->
  texture n' = createTextureFromId i sz
  /\ shown n' = createTextureFromId i sz
  /\ id n' = 0
  /\ created l = [createTextureFromId i sz]
  /\ deleted l = [texture n].
Proof.
  intros Hp Hi H. rewrite node_run_app in H.
  destruct (publishes_only ops n Hp) as (A & B & C & D0).
  destruct (node_run ops n) as [n1 l1]. cbn [fst snd] in *.
  cbn [node_run node_step NewTexture] in H.
  unfold PrepareNode in H. cbn in H.
  destruct (Z.eqb_spec i 0) as [->|_]; [contradiction|].
  cbn in H. inversion H; subst. clear H.
  unfold created, deleted in *. rewrite !flat_map_app, C, D0. cbn.
  rewrite A. auto.
Qed.

Lemma node_step_lifecycle (o : node_op) (n : TextureNode) :
  deleted (snd (node_step o n)) ++ [texture (fst (node_step o n))]
  = texture n :: created (snd (node_step o n))
  /\ (shown n = texture n ->
      shown (fst (node_step o n)) = texture (fst (node_step o n)))
  /\ count is_wait (snd (node_step o n))
     = (if is_prepare o then 1 else 0)%nat
  /\ count is_in_use (snd (node_step o n))
     = (if is_prepare o then 1 else 0)%nat
  /\ (forall l, paired (snd (node_step o n) ++ l) = paired l).
Proof.
  destruct o as [i sz|]; cbn.
  - auto.
  - unfold PrepareNode. destruct (negb (id n =? 0)); cbn; auto.
Qed.

(** X20. The node never leaks a texture and never deletes one twice. Over
    any sequence of [NewTexture] and [PrepareNode] the textures deleted,
    followed by the one the node holds, are the texture it started with
    followed by the textures created, in the same order; what is shown is
    the texture held; and every [PrepareNode] emits [TextureInUse] and then
    waits for the worker exactly once, with no wait anywhere else. *)
Theorem node_deletes_each_texture_once
  (ops : list node_op) (n n' : TextureNode) (l : list node_effect) :
  node_run ops n = (n', l) ->
  deleted l ++ [texture n'] = texture n :: created l
  /\ (shown n = texture n -> shown n' = texture n')
  /\ count is_wait l = count is_prepare ops
  /\ count is_in_use l = count is_prepare ops
  /\ paired l = true.
Proof.
  revert n n' l. induction ops as [|o ops IH]; intros n n' l H.
  - cbn in H. inversion H; subst. cbn. auto.
  - cbn [node_run] in H.
    destruct (node_step_lifecycle o n) as (A & B & C & D0 & F).
    destruct (node_step o n) as [n1 l1]. cbn [fst snd] in *.
    destruct (node_run ops n1) as [n2 l2] eqn:Hr.
    inversion H; subst. clear H.
    destruct (IH _ _ _ Hr) as (A' & B' & C' & D' & F').
    unfold created, deleted, count in *.
    rewrite !flat_map_app, !filter_app, !length_app.
    split.
    { rewrite <- app_assoc, A'. rewrite app_comm_cons.
      cbn [app]. rewrite app_comm_cons, <- A.
      rewrite <- app_assoc. reflexivity. }
    split; [auto|].
    cbn [filter]. rewrite C, D0, C', D', F.
    destruct (is_prepare o); cbn; auto.
Qed.

(** *** The results above on the sample inputs *)

Lemma HandleMouseEvent_carries_witness :
  exists r' log,
    HandleMouseEvent busy_renderer = Some (tt, r', log)
    /\ stored r' = stored busy_renderer
    /\ Forall (carries (stored busy_renderer)) log.
Proof.
  eexists. eexists. split; [vm_compute; reflexivity|].
  eapply (@HandleMouseEvent_events_carry_stored_input toy_engine
           busy_renderer _ _ tt).
  vm_compute. reflexivity.
Defined.

Lemma HandleMouseEvent_again_witness :
  exists r1 log,
    HandleMouseEvent busy_renderer = Some (tt, r1, log)
    /\ HandleMouseEvent r1 = Some (tt, r1, []).
Proof.
  eexists. eexists. split; [vm_compute; reflexivity|].
  eapply (@HandleMouseEvent_again_does_nothing toy_engine busy_renderer _ _ tt).
  vm_compute. reflexivity.
Defined.

Lemma Render_order_witness :
  exists r2 evs,
    Render busy_renderer = Some (tt, r2, evs)
    /\ exists l,
         evs = l ++ render_events
         /\ Forall (carries (stored busy_renderer)) l
         /\ dispatched l = dispatch_table (pending busy_renderer)
         /\ dispatched evs = dispatch_table (pending busy_renderer)
         /\ stored r2 = stored busy_renderer
         /\ pending r2 = consumed (pending busy_renderer)
         /\ textureDirty r2 = false
         /\ textureSize r2 = textureSize busy_renderer.
Proof.
  eexists. eexists. split; [vm_compute; reflexivity|].
  eapply (@Render_sends_input_then_render_events toy_engine busy_renderer
           _ _ tt).
  vm_compute. reflexivity.
Defined.

Lemma Render_twice_witness :
  exists r2 evs,
    Render busy_renderer = Some (tt, r2, evs)
    /\ Render r2
       = Some (tt, finish_frame (with_id_read r2), render_events).
Proof.
  eexists. eexists. split; [vm_compute; reflexivity|].
  eapply (@Render_after_Render toy_engine busy_renderer _ _ tt).
  vm_compute. reflexivity.
Defined.

Lemma fractional_height_witness :
  exists r',
    SizeChanged (Some (qreal_of_Z 800, half)) toy_renderer = Some r'
    /\ textureSize r' = mkQSize 800 0
    /\ textureDirty r' = true
    /\ Render r' = None.
Proof.
  eapply (@SizeChanged_fractional_height_breaks_next_frame toy_engine
           (qreal_of_Z 800) half 800 toy_renderer); reflexivity.
Defined.

Lemma portrait_aspect_ratio_witness :
  exists r',
    resize (set_textureSize (mkQSize 600 800) toy_renderer)
    = Some (tt, r', [])
    /\ exists q,
         camera (dataPtr r')
         = @PreRender toy_engine
             (SetAspectRatio (of_int q)
                (SetImageHeight 800
                   (SetImageWidth 600 (camera (dataPtr toy_renderer)))))
         /\ q = 0.
Proof.
  eexists. split; [vm_compute; reflexivity|].
  edestruct (@resize_aspect_ratio_is_integer_quotient toy_engine
               (set_textureSize (mkQSize 600 800) toy_renderer))
    as (q & Hc & _ & Hq & _);
    [ | | vm_compute; reflexivity | ];
    [vm_compute; discriminate | vm_compute; discriminate |].
  exists q. split; [exact Hc|]. apply Hq. reflexivity.
Defined.

Lemma key_modifiers_witness :
  exists r' log,
    HandleMouseEvent
      (HandleKeyPress ctrl_pressed (NewMouseEvent left_release toy_renderer))
    = Some (tt, r', log)
    /\ Forall (fun e => forall m', mouse_of e = Some m' ->
                                   modifiers_of ctrl_pressed m') log
    /\ In (LeftClickOnScene
             (copy_modifiers ctrl_pressed left_release)) log.
Proof.
  eexists. eexists. split; [vm_compute; reflexivity|].
  split.
  - eapply (@key_event_overrides_modifiers_of_pending_mouse_event toy_engine
             ctrl_pressed left_release toy_renderer _ _ tt).
    vm_compute. reflexivity.
  - vm_compute. tauto.
Defined.

Lemma press_position_witness :
  exists it' log,
    session (MousePressed left_press :: drag_session) toy_item
    = Some (it', log)
    /\ PressPos (item_mouseEvent it') = Pos left_press
    /\ PressPos (mouseEvent (dataPtr (ignRenderer it'))) = Pos left_press
    /\ Forall (fun e => forall m, mouse_of e = Some m ->
                                  PressPos m = Pos left_press) log.
Proof.
  eexists. eexists. split; [vm_compute; reflexivity|].
  eapply (@press_position_survives_the_drag toy_engine left_press
           drag_session toy_item);
    [reflexivity | vm_compute; reflexivity].
Defined.

Lemma release_after_drag_witness :
  exists it1 l1 it2 l2,
    session [MouseMoved drag_move; Frame] toy_item = Some (it1, l1)
    /\ session [MouseReleased left_release; Frame] it1 = Some (it2, l2)
    /\ filter is_mouse_category (dispatched l2) = [Drag]
    /\ In (DragOnScene
             (SetDragging true
                (SetPressPos (PressPos (item_mouseEvent toy_item))
                   left_release))) l2.
Proof.
  eexists. eexists. eexists. eexists.
  split; [vm_compute; reflexivity|].
  split; [vm_compute; reflexivity|].
  eapply (@release_after_drag_is_dispatched_as_drag toy_engine drag_move
           left_release [Frame] toy_item);
    [reflexivity | reflexivity | vm_compute; reflexivity
    | vm_compute; reflexivity].
Defined.

Lemma held_key_witness :
  exists it' log,
    session
      [KeyPressed false key_a_pressed; KeyPressed true key_a_pressed; Frame;
       KeyPressed true key_a_pressed; Frame] toy_item
    = Some (it', log)
    /\ times KeyPress (dispatched log) = 1%nat
    /\ times KeyRelease (dispatched log) = 0%nat.
Proof.
  eexists. eexists. split; [vm_compute; reflexivity|].
  eapply (@held_key_is_delivered_once toy_engine key_a_pressed
           [KeyPressed true key_a_pressed; Frame;
            KeyPressed true key_a_pressed; Frame] toy_item);
    [reflexivity | reflexivity | vm_compute; reflexivity].
Defined.

Lemma last_published_witness :
  exists n' l,
    node_run two_published TextureNode_new = (n', l)
    /\ texture n' = createTextureFromId 8 (mkQSize 640 480)
    /\ shown n' = createTextureFromId 8 (mkQSize 640 480)
    /\ id n' = 0
    /\ created l = [createTextureFromId 8 (mkQSize 640 480)]
    /\ deleted l = [texture TextureNode_new].
Proof.
  eexists. eexists. split; [vm_compute; reflexivity|].
  eapply (@last_published_texture_wins [Publish 7 (mkQSize 800 600)] 8
           (mkQSize 640 480) TextureNode_new);
    [reflexivity | discriminate | vm_compute; reflexivity].
Defined.

Lemma node_lifecycle_witness :
  exists n' l,
    node_run (two_published ++ two_published) TextureNode_new = (n', l)
    /\ deleted l ++ [texture n'] = texture TextureNode_new :: created l
    /\ (shown TextureNode_new = texture TextureNode_new ->
        shown n' = texture n')
    /\ count is_wait l = count is_prepare (two_published ++ two_published)
    /\ count is_in_use l = count is_prepare (two_published ++ two_published)
    /\ paired l = true.
Proof.
  eexists. eexists. split; [vm_compute; reflexivity|].
  eapply (@node_deletes_each_texture_once (two_published ++ two_published)
           TextureNode_new).
  vm_compute. reflexivity.
Defined.

End SceneTheory.
